(** * aiclass-system: question-bank parser, exam session engine, mastery
      statistics and score report

    Shallow embedding of the JavaScript sources

    - utils (revised copy: [parseCSVText], [parseCSVRows], [checkAnswer],
      [calculateAccuracy]; older copy: [parseCSVLine] and its
      [parseCSVText]), and
    - the Vue application object (revised copy and the older [js/app.js]):
      [hasAnswer], [resetAnswer], [submitAnswer], [jumpToQuestion],
      [finishExam], [updateQuestionStats], [currentExamScore].

    JavaScript strings are sequences of UTF-16 code units and are modelled
    as lists of code units; counters are non-negative integers (exact as
    JavaScript numbers below 2^53); the one floating-point computation
    ([calculateAccuracy]) is modelled on IEEE-754 binary64 with the
    executable specification of the standard library. *)

From Stdlib Require Import List ZArith NArith Bool Lia String Ascii.
From Stdlib Require Import Permutation Sorted.
From Stdlib Require Import SpecFloat.
Import ListNotations.

Local Open Scope N_scope.
Local Open Scope list_scope.

(** ** JavaScript strings *)

Module JS.

(** One UTF-16 code unit. *)
Definition char := N.
Definition jsstring := list char.

(** Code units of an ASCII literal. *)
Definition str (s : string) : jsstring :=
  map N_of_ascii (list_ascii_of_string s).

Definition nl : char := 10.
Definition space : char := 32.
Definition quote : char := 34.
Definition comma : char := 44.

(** The literals of the sources outside ASCII. *)
Definition s_multi : jsstring := [22810; 36873].   (* '多选' *)
Definition s_boolean : jsstring := [21028; 26029]. (* '判断' *)
Definition s_single : jsstring := [21333; 36873].  (* '单选' *)
Definition s_right : jsstring := [23545].          (* '对' *)
Definition s_wrong : jsstring := [38169].          (* '错' *)

Definition eqb (a b : jsstring) : bool :=
  if list_eq_dec N.eq_dec a b then true else false.

(** [s.length > 0], which is also the truthiness of a string. *)
Definition nonEmpty (s : jsstring) : bool :=
  match s with [] => false | _ :: _ => true end.

(** White space and line terminators removed by
    [String.prototype.trim]. *)
Definition isWhiteSpace (c : char) : bool :=
  ((9 <=? c) && (c <=? 13)) || (c =? 32) || (c =? 160) || (c =? 5760)
  || ((8192 <=? c) && (c <=? 8202)) || (c =? 8232) || (c =? 8233)
  || (c =? 8239) || (c =? 8287) || (c =? 12288) || (c =? 65279).

Fixpoint trimStart (s : jsstring) : jsstring :=
  match s with
  | [] => []
  | c :: r => if isWhiteSpace c then trimStart r else s
  end.

Definition trim (s : jsstring) : jsstring :=
  rev (trimStart (rev (trimStart s))).

(** [s.split('\n')]: never empty, [''] for the empty string. *)
Fixpoint splitLines (s : jsstring) : list jsstring :=
  match s with
  | [] => [[]]
  | c :: r =>
      if c =? nl then [] :: splitLines r
      else match splitLines r with
           | l :: ls => (c :: l) :: ls
           | [] => [[c]]
           end
  end.

(** [s.replace(/\n+/g, ' ')]: every maximal run of line feeds becomes
    one space.  [inRun] tells that the previous unit was a line feed. *)
Fixpoint collapseFrom (inRun : bool) (s : jsstring) : jsstring :=
  match s with
  | [] => []
  | c :: r =>
      if c =? nl then
        if inRun then collapseFrom true r else space :: collapseFrom true r
      else c :: collapseFrom false r
  end.

Definition collapseNewlines (s : jsstring) : jsstring :=
  collapseFrom false s.

(** [a.join(sep)]. *)
Fixpoint join (sep : jsstring) (a : list jsstring) : jsstring :=
  match a with
  | [] => []
  | [x] => x
  | x :: r => x ++ sep ++ join sep r
  end.

(** [s.split('')]: one string per code unit. *)
Definition splitChars (s : jsstring) : list jsstring :=
  map (fun c => [c]) s.

(** Order of the default [Array.prototype.sort] comparator on strings:
    lexicographic on code units. *)
Fixpoint leb (a b : jsstring) : bool :=
  match a, b with
  | [], _ => true
  | _ :: _, [] => false
  | x :: a', y :: b' =>
      if x <? y then true else if y <? x then false else leb a' b'
  end.

Fixpoint insertSorted (x : jsstring) (l : list jsstring) : list jsstring :=
  match l with
  | [] => [x]
  | y :: r => if leb x y then x :: l else y :: insertSorted x r
  end.

(** [a.sort()] on an array of strings. *)
Fixpoint sort (l : list jsstring) : list jsstring :=
  match l with
  | [] => []
  | x :: r => insertSorted x (sort r)
  end.

End JS.

Import JS.

(** ** Data model *)

Record Statistics := mkStatistics {
  consecutiveCorrect : N;
  totalAttempts : N;
  correctAttempts : N
}.

(** Options are a JavaScript object filled in the order A..E: an
    association list from label to text, in insertion order. *)
Record Question := mkQuestion {
  id : jsstring;
  type : jsstring;
  question : jsstring;
  options : list (jsstring * jsstring);
  answer : jsstring;
  statistics : Statistics
}.

Definition zeroStatistics : Statistics := mkStatistics 0 0 0.

Definition labels (opts : list (jsstring * jsstring)) : list jsstring :=
  map fst opts.

(** The pending input [userAnswer]: a string for single-choice and
    true/false questions, an array of labels for multi-choice ones. *)
Inductive UserAnswer :=
| Text (s : jsstring)
| Labels (a : list jsstring).

(** [String(userAnswer)]: an array is joined with commas. *)
Definition toString (u : UserAnswer) : jsstring :=
  match u with
  | Text s => s
  | Labels a => join [comma] a
  end.

(** Effect of [userAnswer.sort()] on the array object itself. *)
Definition sortInPlace (u : UserAnswer) : UserAnswer :=
  match u with
  | Text s => Text s
  | Labels a => Labels (sort a)
  end.

(** ** IEEE-754 binary64 and [Number.prototype.toFixed(1)] *)

Module Float64.

Definition prec : Z := 53.
Definition emax : Z := 1024.

(** The number with integer value [n] (exact below 2^53). *)
Definition ofN (n : N) : spec_float :=
  binary_normalize prec emax (Z.of_N n) 0 false.

Definition div : spec_float -> spec_float -> spec_float := SFdiv prec emax.
Definition mul : spec_float -> spec_float -> spec_float := SFmul prec emax.

(** [m * 2^e >= 10^21], on the exact value. *)
Definition atLeast1e21 (m : positive) (e : Z) : bool :=
  match e with
  | Zneg k => (10 ^ 21 * 2 ^ Zpos k <=? Zpos m)%Z
  | _ => (10 ^ 21 <=? Zpos m * 2 ^ e)%Z
  end.

(** The integer [n] for which [n / 10 - m * 2^e] is closest to zero,
    the larger one when there are two. *)
Definition nearestTenths (m : positive) (e : Z) : Z :=
  match e with
  | Zneg k => ((20 * Zpos m + 2 ^ Zpos k) / 2 ^ (Zpos k + 1))%Z
  | _ => (10 * (Zpos m * 2 ^ e))%Z
  end.

(** The character of the decimal digit [d]. *)
Definition digit (d : Z) : char := Z.to_N (48 + d).

Fixpoint decimalFrom (fuel : nat) (n : Z) : jsstring :=
  match fuel with
  | O => []
  | S f =>
      if (n <? 10)%Z then [digit n]
      else decimalFrom f (n / 10) ++ [digit (n mod 10)]
  end.

(** The digits of the decimal representation of [n >= 0], without
    leading zeroes; a number has no more decimal digits than bits. *)
Definition decimal (n : Z) : jsstring :=
  decimalFrom (S (Z.to_nat (Z.log2 n))) n.

(** Decimal digits of [n], padded to two digits, with a point before
    the last one. *)
Definition pointBeforeLast (n : Z) : jsstring :=
  let m := decimal n in
  let m := if (List.length m <=? 1)%nat then str "0" ++ m else m in
  let k := List.length m in
  firstn (k - 1) m ++ str "." ++ skipn (k - 1) m.

Section Runtime.

(** [Number::toString] of the runtime, reached by [toFixed] only for
    values that are not finite or at least 10^21. *)
Variable numberToString : spec_float -> jsstring.

Definition toFixed1 (x : spec_float) : jsstring :=
  match x with
  | S754_zero _ => str "0.0"
  | S754_finite s m e =>
      if atLeast1e21 m e then numberToString x
      else (if s then str "-" else []) ++ pointBeforeLast (nearestTenths m e)
  | _ => numberToString x
  end.

End Runtime.

End Float64.

(** ** utils: delimited-text parser (revised copy) *)

Module Utils.

(** Inner loop of [parseCSVRows] over the code units of one line;
    [row], [field], [inQuotes] are [currentRow], [currentField] and
    [inQuotes]. *)
Fixpoint scanLine (line : jsstring) (row : list jsstring)
    (field : jsstring) (inQuotes : bool)
    : list jsstring * jsstring * bool :=
  match line with
  | [] => (row, field, inQuotes)
  | c :: rest =>
      if c =? quote then
        match rest with
        | c' :: rest' =>
            if inQuotes && (c' =? quote)
            then scanLine rest' row (field ++ [quote]) inQuotes
            else scanLine rest row field (negb inQuotes)
        | [] => (row, field, negb inQuotes)
        end
      else if (c =? comma) && negb inQuotes
      then scanLine rest (row ++ [trim field]) [] inQuotes
      else scanLine rest row (field ++ [c]) inQuotes
  end.

(** [rows.push(currentRow)] when some field is non-empty. *)
Definition pushRow (rows : list (list jsstring)) (row : list jsstring)
    : list (list jsstring) :=
  if existsb nonEmpty row then rows ++ [row] else rows.

(** Outer loop of [parseCSVRows] over the lines. *)
Fixpoint scanLines (lines : list jsstring) (rows : list (list jsstring))
    (row : list jsstring) (field : jsstring) (inQuotes : bool)
    : list (list jsstring) * list jsstring * jsstring * bool :=
  match lines with
  | [] => (rows, row, field, inQuotes)
  | line :: more =>
      let '(row1, field1, inQ1) := scanLine line row field inQuotes in
      if inQ1 then scanLines more rows row1 (field1 ++ [nl]) inQ1
      else scanLines more (pushRow rows (row1 ++ [trim field1])) [] [] inQ1
  end.

Definition parseCSVRows (text : jsstring) : list (list jsstring) :=
  let '(rows, row, field, _) :=
    scanLines (splitLines text) [] [] [] false in
  if (0 <? N.of_nat (List.length row)) || nonEmpty field
  then pushRow rows (row ++ [trim field])
  else rows.

(** [if (opt && opt.trim()) options.L = opt.trim().replace(/\n+/g, ' ')]. *)
Definition addOption (label : jsstring) (opt : jsstring)
    (opts : list (jsstring * jsstring)) : list (jsstring * jsstring) :=
  if nonEmpty opt && nonEmpty (trim opt)
  then opts ++ [(label, collapseNewlines (trim opt))]
  else opts.

Definition buildOptions (ty optA optB optC optD optE : jsstring)
    : list (jsstring * jsstring) :=
  if eqb (trim ty) s_boolean
  then [(str "A", s_right); (str "B", s_wrong)]
  else addOption (str "E") optE
         (addOption (str "D") optD
           (addOption (str "C") optC
             (addOption (str "B") optB
               (addOption (str "A") optA [])))).

(** Body of the loop of [parseCSVText] for one row: rows with fewer
    than nine fields are passed over, the others are destructured into
    their first nine fields. *)
Definition parseRow (fields : list jsstring) : option Question :=
  match fields with
  | i :: ty :: q :: optA :: optB :: optC :: optD :: optE :: ans :: _ =>
      Some {| id := trim i;
              type := trim ty;
              question := collapseNewlines (trim q);
              options := buildOptions ty optA optB optC optD optE;
              answer := trim ans;
              statistics := zeroStatistics |}
  | _ => None
  end.

(** The loop of [parseCSVText] from row index 1 on, with the array
    [questions] as accumulator. *)
Fixpoint parseRowsFrom (rows : list (list jsstring))
    (questions : list Question) : list Question :=
  match rows with
  | [] => questions
  | fields :: more =>
      match parseRow fields with
      | None => parseRowsFrom more questions
      | Some q => parseRowsFrom more (questions ++ [q])
      end
  end.

Definition parseCSVText (text : jsstring) : list Question :=
  parseRowsFrom (tl (parseCSVRows text)) [].

(** The boolean returned by [checkAnswer].  In the multi-choice branch
    the array passed in is sorted in place, see [checkAnswerArgument]. *)
Definition checkAnswer (userAnswer : UserAnswer)
    (correctAnswer questionType : jsstring) : bool :=
  if eqb questionType s_multi then
    let userAns :=
      match userAnswer with
      | Labels a => join [] (sort a)
      | Text _ => []
      end in
    let correctAns := join [] (sort (splitChars correctAnswer)) in
    eqb userAns correctAns
  else eqb (toString userAnswer) correctAnswer.

(** The caller's [userAnswer] object after [checkAnswer] returned. *)
Definition checkAnswerArgument (userAnswer : UserAnswer)
    (questionType : jsstring) : UserAnswer :=
  if eqb questionType s_multi then sortInPlace userAnswer else userAnswer.

Section Runtime.

Variable numberToString : spec_float -> jsstring.

Definition calculateAccuracy (correct total : N) : jsstring :=
  if total =? 0 then str "0%"
  else
    let accuracy :=
      Float64.toFixed1 numberToString
        (Float64.mul (Float64.div (Float64.ofN correct) (Float64.ofN total))
                     (Float64.ofN 100)) in
    accuracy ++ str "%".

End Runtime.

End Utils.

(** ** utils: older copy, line-based ([parseCSVLine]) *)

Module LegacyUtils.

(** Loop of [parseCSVLine]: every quote toggles [inQuotes] and is
    dropped; fields are pushed as they are. *)
Fixpoint scanFields (line : jsstring) (fields : list jsstring)
    (field : jsstring) (inQuotes : bool) : list jsstring :=
  match line with
  | [] => fields ++ [field]
  | c :: rest =>
      if c =? quote then scanFields rest fields field (negb inQuotes)
      else if (c =? comma) && negb inQuotes
      then scanFields rest (fields ++ [field]) [] inQuotes
      else scanFields rest fields (field ++ [c]) inQuotes
  end.

Definition parseCSVLine (line : jsstring) : list jsstring :=
  scanFields line [] [] false.

Definition addOption (label : jsstring) (opt : jsstring)
    (opts : list (jsstring * jsstring)) : list (jsstring * jsstring) :=
  if nonEmpty opt && nonEmpty (trim opt)
  then opts ++ [(label, trim opt)]
  else opts.

Definition buildOptions (ty optA optB optC optD optE : jsstring)
    : list (jsstring * jsstring) :=
  if eqb (trim ty) s_boolean
  then [(str "A", s_right); (str "B", s_wrong)]
  else addOption (str "E") optE
         (addOption (str "D") optD
           (addOption (str "C") optC
             (addOption (str "B") optB
               (addOption (str "A") optA [])))).

Definition parseFields (fields : list jsstring) : option Question :=
  match fields with
  | i :: ty :: q :: optA :: optB :: optC :: optD :: optE :: ans :: _ =>
      Some {| id := trim i;
              type := trim ty;
              question := trim q;
              options := buildOptions ty optA optB optC optD optE;
              answer := trim ans;
              statistics := zeroStatistics |}
  | _ => None
  end.

Fixpoint parseLinesFrom (lines : list jsstring)
    (questions : list Question) : list Question :=
  match lines with
  | [] => questions
  | l :: more =>
      let line := trim l in
      if negb (nonEmpty line) then parseLinesFrom more questions
      else
        match parseFields (parseCSVLine line) with
        | None => parseLinesFrom more questions
        | Some q => parseLinesFrom more (questions ++ [q])
        end
  end.

Definition parseCSVText (text : jsstring) : list Question :=
  let lines := filter (fun line => nonEmpty (trim line)) (splitLines text) in
  parseLinesFrom (tl lines) [].

End LegacyUtils.

(** ** The application object *)

Inductive Page := home | exam | overview | report | review | coloredReview.

(** One entry of [currentExamAnswers]. *)
Record AnswerRecord := mkAnswerRecord {
  questionId : jsstring;
  answeredQuestion : jsstring;   (* field [question] *)
  givenAnswer : jsstring;        (* field [userAnswer] *)
  correctAnswer : jsstring;
  isCorrect : bool
}.

(** [lastAnswerFeedback] when it is not [null]. *)
Record Feedback := mkFeedback {
  questionIndex : Z;
  feedbackUserAnswer : jsstring;     (* field [userAnswer] *)
  feedbackCorrectAnswer : jsstring;  (* field [correctAnswer] *)
  feedbackIsCorrect : bool           (* field [isCorrect] *)
}.

Record Score := mkScore {
  total : N;
  correct : N;
  incorrect : N;
  accuracy : jsstring
}.

Record ExamRecord := mkExamRecord {
  examId : Z;
  startTime : jsstring;
  endTime : jsstring;
  answers : list AnswerRecord;
  score : Score
}.

(** A reference to an object of the store. *)
Definition Ref : Set := nat.

(** [h] with the object at [r] replaced by [v]. *)
Definition write {A : Type} (r : Ref) (v : A) (h : Ref -> A) : Ref -> A :=
  fun r' => if Nat.eqb r' r then v else h r'.

(** A record of [examHistory] as it is stored.  Its field [answers] is
    the array object that was [currentExamAnswers] at the hand-in, not a
    copy of it. *)
Record HistoryEntry := mkHistoryEntry {
  entryId : Z;              (* field [examId] *)
  entryStart : jsstring;    (* field [startTime] *)
  entryEnd : jsstring;      (* field [endTime] *)
  entryAnswers : Ref;       (* field [answers] *)
  entryScore : Score        (* field [score] *)
}.

(** The reactive data of the application, with the store of the objects
    that the code shares and changes in place.
    - [objects] holds the question objects.  The arrays [questions] and
      [currentExamQuestions] hold references to them: [startExam] puts
      the objects of the bank themselves into the snapshot, and
      [updateQuestionStats] changes the object it finds in the bank.
      The statistics are part of the question object: every question
      has a statistics object of its own, as [parseCSVText] makes them.
    - [arrays] holds the answer arrays.  [currentExamAnswers] refers to
      one of them, [submitAnswer] pushes onto it, and a record of the
      history refers to the array that was current at its hand-in.
    What the code reads through these references is given by
    [questions], [currentExamQuestions], [currentExamAnswers] and
    [examHistory] below. *)
Record State := mkState {
  currentPage : Page;
  objects : Ref -> Question;
  questionRefs : list Ref;            (* the array [questions] *)
  examQuestionRefs : list Ref;        (* the array [currentExamQuestions] *)
  currentQuestionIndex : Z;
  userAnswer : UserAnswer;
  arrays : Ref -> list AnswerRecord;
  examAnswersRef : Ref;               (* [currentExamAnswers] *)
  lastAnswerFeedback : option Feedback;
  currentExamCorrect : N;
  currentExamIncorrect : N;
  historyEntries : list HistoryEntry; (* the array [examHistory] *)
  consecutiveCorrectThreshold : N
}.

(** [this.questions], read through the store. *)
Definition questions (s : State) : list Question :=
  map (objects s) (questionRefs s).

(** [this.currentExamQuestions], read through the store. *)
Definition currentExamQuestions (s : State) : list Question :=
  map (objects s) (examQuestionRefs s).

(** [this.currentExamAnswers], read through the store. *)
Definition currentExamAnswers (s : State) : list AnswerRecord :=
  arrays s (examAnswersRef s).

(** A record of the history with the present content of its answer
    array. *)
Definition readEntry (s : State) (e : HistoryEntry) : ExamRecord :=
  {| examId := entryId e;
     startTime := entryStart e;
     endTime := entryEnd e;
     answers := arrays s (entryAnswers e);
     score := entryScore e |}.

(** [this.examHistory], read through the store. *)
Definition examHistory (s : State) : list ExamRecord :=
  map (readEntry s) (historyEntries s).

Arguments questions : simpl never.
Arguments currentExamQuestions : simpl never.
Arguments currentExamAnswers : simpl never.
Arguments examHistory : simpl never.

(** What the environment answers during one call: the confirmation
    dialog and the clock. *)
Record Env := mkEnv {
  confirm : bool;
  dateNow : Z;
  isoStart : jsstring;
  isoEnd : jsstring
}.

(** Result of a method call: it returned, possibly after arming the
    1500 ms timer that calls [finishExam], or a [TypeError] was thrown
    before any assignment. *)
Inductive Outcome :=
| Returned (s : State) (timer : bool)
| TypeError.

Module App.

Definition setPage (p : Page) (s : State) : State :=
  mkState p (objects s) (questionRefs s) (examQuestionRefs s)
    (currentQuestionIndex s) (userAnswer s) (arrays s) (examAnswersRef s)
    (lastAnswerFeedback s) (currentExamCorrect s) (currentExamIncorrect s)
    (historyEntries s) (consecutiveCorrectThreshold s).

(** The question objects after changes in place. *)
Definition setObjects (o : Ref -> Question) (s : State) : State :=
  mkState (currentPage s) o (questionRefs s) (examQuestionRefs s)
    (currentQuestionIndex s) (userAnswer s) (arrays s) (examAnswersRef s)
    (lastAnswerFeedback s) (currentExamCorrect s) (currentExamIncorrect s)
    (historyEntries s) (consecutiveCorrectThreshold s).

(** [this.questions = ...]. *)
Definition setQuestionRefs (refs : list Ref) (s : State) : State :=
  mkState (currentPage s) (objects s) refs (examQuestionRefs s)
    (currentQuestionIndex s) (userAnswer s) (arrays s) (examAnswersRef s)
    (lastAnswerFeedback s) (currentExamCorrect s) (currentExamIncorrect s)
    (historyEntries s) (consecutiveCorrectThreshold s).

(** [this.currentExamQuestions = ...]. *)
Definition setExamQuestions (refs : list Ref) (s : State) : State :=
  mkState (currentPage s) (objects s) (questionRefs s) refs
    (currentQuestionIndex s) (userAnswer s) (arrays s) (examAnswersRef s)
    (lastAnswerFeedback s) (currentExamCorrect s) (currentExamIncorrect s)
    (historyEntries s) (consecutiveCorrectThreshold s).

Definition setIndex (i : Z) (s : State) : State :=
  mkState (currentPage s) (objects s) (questionRefs s) (examQuestionRefs s)
    i (userAnswer s) (arrays s) (examAnswersRef s) (lastAnswerFeedback s)
    (currentExamCorrect s) (currentExamIncorrect s) (historyEntries s)
    (consecutiveCorrectThreshold s).

Definition setUserAnswer (u : UserAnswer) (s : State) : State :=
  mkState (currentPage s) (objects s) (questionRefs s) (examQuestionRefs s)
    (currentQuestionIndex s) u (arrays s) (examAnswersRef s)
    (lastAnswerFeedback s) (currentExamCorrect s) (currentExamIncorrect s)
    (historyEntries s) (consecutiveCorrectThreshold s).

(** The answer arrays after changes in place. *)
Definition setArrays (h : Ref -> list AnswerRecord) (s : State) : State :=
  mkState (currentPage s) (objects s) (questionRefs s) (examQuestionRefs s)
    (currentQuestionIndex s) (userAnswer s) h (examAnswersRef s)
    (lastAnswerFeedback s) (currentExamCorrect s) (currentExamIncorrect s)
    (historyEntries s) (consecutiveCorrectThreshold s).

(** [this.currentExamAnswers = ...]. *)
Definition setAnswersRef (r : Ref) (s : State) : State :=
  mkState (currentPage s) (objects s) (questionRefs s) (examQuestionRefs s)
    (currentQuestionIndex s) (userAnswer s) (arrays s) r
    (lastAnswerFeedback s) (currentExamCorrect s) (currentExamIncorrect s)
    (historyEntries s) (consecutiveCorrectThreshold s).

Definition setFeedback (f : option Feedback) (s : State) : State :=
  mkState (currentPage s) (objects s) (questionRefs s) (examQuestionRefs s)
    (currentQuestionIndex s) (userAnswer s) (arrays s) (examAnswersRef s) f
    (currentExamCorrect s) (currentExamIncorrect s) (historyEntries s)
    (consecutiveCorrectThreshold s).

Definition setCorrect (n : N) (s : State) : State :=
  mkState (currentPage s) (objects s) (questionRefs s) (examQuestionRefs s)
    (currentQuestionIndex s) (userAnswer s) (arrays s) (examAnswersRef s)
    (lastAnswerFeedback s) n (currentExamIncorrect s) (historyEntries s)
    (consecutiveCorrectThreshold s).

Definition setIncorrect (n : N) (s : State) : State :=
  mkState (currentPage s) (objects s) (questionRefs s) (examQuestionRefs s)
    (currentQuestionIndex s) (userAnswer s) (arrays s) (examAnswersRef s)
    (lastAnswerFeedback s) (currentExamCorrect s) n (historyEntries s)
    (consecutiveCorrectThreshold s).

(** The array [examHistory] after [unshift]. *)
Definition setHistory (h : list HistoryEntry) (s : State) : State :=
  mkState (currentPage s) (objects s) (questionRefs s) (examQuestionRefs s)
    (currentQuestionIndex s) (userAnswer s) (arrays s) (examAnswersRef s)
    (lastAnswerFeedback s) (currentExamCorrect s) (currentExamIncorrect s) h
    (consecutiveCorrectThreshold s).

Definition setThreshold (n : N) (s : State) : State :=
  mkState (currentPage s) (objects s) (questionRefs s) (examQuestionRefs s)
    (currentQuestionIndex s) (userAnswer s) (arrays s) (examAnswersRef s)
    (lastAnswerFeedback s) (currentExamCorrect s) (currentExamIncorrect s)
    (historyEntries s) n.

(** The array object [currentExamAnswers] gets the content [a]; every
    record of the history that holds this array sees it. *)
Definition setAnswers (a : list AnswerRecord) (s : State) : State :=
  setArrays (write (examAnswersRef s) a (arrays s)) s.

(** A reference that no answer array in use has: neither
    [currentExamAnswers] nor a record of the history. *)
Definition freshArray (s : State) : Ref :=
  S (fold_right Nat.max (examAnswersRef s)
       (map entryAnswers (historyEntries s))).

(** [this.currentExamAnswers = []]: a new, empty array. *)
Definition newAnswers (s : State) : State :=
  setAnswersRef (freshArray s)
    (setArrays (write (freshArray s) [] (arrays s)) s).

(** [a[i]] for a number [i]: [undefined] outside the array. *)
Definition at_ {A : Type} (a : list A) (i : Z) : option A :=
  if (i <? 0)%Z then None else nth_error a (Z.to_nat i).

(** Computed [currentQuestion]; [None] stands for [null] and
    [undefined]. *)
Definition currentQuestion (s : State) : option Question :=
  match currentExamQuestions s with
  | [] => None
  | _ => at_ (currentExamQuestions s) (currentQuestionIndex s)
  end.

(** [this.currentQuestion?.type === '多选']. *)
Definition currentIsMulti (s : State) : bool :=
  match currentQuestion s with
  | Some q => eqb (type q) s_multi
  | None => false
  end.

(** Computed [hasAnswer]. *)
Definition hasAnswer (s : State) : bool :=
  if currentIsMulti s then
    match userAnswer s with
    | Labels a => (0 <? List.length a)%nat
    | Text _ => false
    end
  else
    match userAnswer s with
    | Text t => nonEmpty t
    | Labels _ => true
    end.

(** Computed [availableQuestions]: the objects of the bank whose streak
    is below the threshold. *)
Definition availableQuestions (s : State) : list Question :=
  filter (fun q => consecutiveCorrect (statistics q)
                   <? consecutiveCorrectThreshold s) (questions s).

(** The same array, as the references it holds. *)
Definition availableRefs (s : State) : list Ref :=
  filter (fun r => consecutiveCorrect (statistics (objects s r))
                   <? consecutiveCorrectThreshold s) (questionRefs s).

Definition resetAnswer (s : State) : State :=
  if currentIsMulti s then setUserAnswer (Labels []) s
  else setUserAnswer (Text []) s.

Definition startExam (s : State) : State :=
  match availableRefs s with
  | [] => s
  | avail =>
      setPage exam
        (setFeedback None
          (resetAnswer
            (setIncorrect 0
              (setCorrect 0
                (newAnswers
                  (setIndex 0
                    (setExamQuestions avail s)))))))
  end.

Definition previousQuestion (s : State) : State :=
  if (0 <? currentQuestionIndex s)%Z then
    setFeedback None
      (resetAnswer (setIndex (currentQuestionIndex s - 1) s))
  else s.

Definition jumpToQuestion (index : Z) (s : State) : State :=
  setPage exam (setFeedback None (resetAnswer (setIndex index s))).

(** Body of the [forEach] callback of [updateQuestionStats] on the
    statistics of the question found. *)
Definition recordAttempt (isCorrect : bool) (st : Statistics)
    : Statistics :=
  if isCorrect then
    {| consecutiveCorrect := consecutiveCorrect st + 1;
       totalAttempts := totalAttempts st + 1;
       correctAttempts := correctAttempts st + 1 |}
  else
    {| consecutiveCorrect := 0;
       totalAttempts := totalAttempts st + 1;
       correctAttempts := correctAttempts st |}.

Definition setStatistics (st : Statistics) (q : Question) : Question :=
  mkQuestion (id q) (type q) (question q) (options q) (answer q) st.

(** [this.questions.find(q => q.id === answer.questionId)]: the first
    object of the bank with that id. *)
Definition findQuestion (o : Ref -> Question) (refs : list Ref)
    (qid : jsstring) : option Ref :=
  find (fun r => eqb (id (o r)) qid) refs.

(** The callback of the [forEach]: the object found is changed in
    place; nothing happens when there is none. *)
Definition updateFound (refs : list Ref) (a : AnswerRecord)
    (o : Ref -> Question) : Ref -> Question :=
  match findQuestion o refs (questionId a) with
  | None => o
  | Some r =>
      write r (setStatistics (recordAttempt (isCorrect a)
                                            (statistics (o r))) (o r)) o
  end.

Definition updateQuestionStats (s : State) : State :=
  setObjects
    (fold_left (fun o a => updateFound (questionRefs s) a o)
               (currentExamAnswers s) (objects s))
    s.

Section Runtime.

Variable numberToString : spec_float -> jsstring.

(** Computed [currentExamScore]. *)
Definition currentExamScore (s : State) : Score :=
  let total := N.of_nat (List.length (currentExamAnswers s)) in
  let correct := currentExamCorrect s in
  let incorrect := currentExamIncorrect s in
  let accuracy := Utils.calculateAccuracy numberToString correct total in
  mkScore total correct incorrect accuracy.

Definition finishExam (env : Env) (s : State) : State :=
  match currentExamAnswers s with
  | [] => s
  | _ =>
      if negb (confirm env) then s
      else
        let s1 := updateQuestionStats s in
        let examRecord :=
          {| entryId := dateNow env;
             entryStart := isoStart env;
             entryEnd := isoEnd env;
             entryAnswers := examAnswersRef s1;
             entryScore := currentExamScore s1 |} in
        setPage report (setHistory (examRecord :: historyEntries s1) s1)
  end.

(** First half of [submitAnswer]: the answer is recorded when there
    is one, otherwise the feedback is cleared. [None] is the
    [TypeError] of reading [type] of no question, or of calling
    [sort] on a string. *)
Definition recordAnswer (s : State) : option State :=
  if hasAnswer s then
    match currentQuestion s with
    | None => None
    | Some q =>
        let multi := eqb (type q) s_multi in
        match (if multi then
                 match userAnswer s with
                 | Labels a => Some (join [] (sort a))
                 | Text _ => None
                 end
               else Some (toString (userAnswer s))) with
        | None => None
        | Some userAns =>
            let s1 :=
              if multi then setUserAnswer (sortInPlace (userAnswer s)) s
              else s in
            let isCorrect :=
              Utils.checkAnswer (userAnswer s1) (answer q) (type q) in
            let s2 :=
              setUserAnswer
                (Utils.checkAnswerArgument (userAnswer s1) (type q)) s1 in
            let s3 :=
              setAnswers
                (currentExamAnswers s2
                 ++ [mkAnswerRecord (id q) (question q) userAns
                                    (answer q) isCorrect]) s2 in
            let s4 :=
              if isCorrect
              then setCorrect (currentExamCorrect s3 + 1) s3
              else setIncorrect (currentExamIncorrect s3 + 1) s3 in
            Some (setFeedback
                    (Some (mkFeedback (currentQuestionIndex s4 + 1)
                                      userAns (answer q) isCorrect)) s4)
        end
    end
  else Some (setFeedback None s).

Definition isLastQuestion (s : State) : bool :=
  negb (currentQuestionIndex s
        <? Z.of_nat (List.length (currentExamQuestions s)) - 1)%Z.

Definition submitAnswer (env : Env) (s : State) : Outcome :=
  match recordAnswer s with
  | None => TypeError
  | Some s1 =>
      if negb (isLastQuestion s1) then
        Returned (resetAnswer (setIndex (currentQuestionIndex s1 + 1) s1))
                 false
      else if hasAnswer s1 then Returned s1 true
      else Returned (finishExam env s1) false
  end.

End Runtime.

End App.

(** ** The older [js/app.js] *)

Module LegacyApp.

(** [submitAnswer] of the older copy: it returns at once when there is
    no answer, and always arms the timer on the last question. *)
Definition submitAnswer (s : State) : Outcome :=
  if negb (App.hasAnswer s) then Returned s false
  else
    match App.recordAnswer s with
    | None => TypeError
    | Some s1 =>
        if negb (App.isLastQuestion s1) then
          Returned
            (App.resetAnswer (App.setIndex (currentQuestionIndex s1 + 1) s1))
            false
        else Returned s1 true
    end.

End LegacyApp.

(** ** Further methods of the application object and of utils *)

Module AppMore.

Definition showOverview (s : State) : State := App.setPage overview s.

Definition backToExam (s : State) : State := App.setPage exam s.

Definition backToHome (s : State) : State := App.setPage home s.

(** [getQuestionStatus(index)]: the answer list is read at [index]. *)
Definition getQuestionStatus (index : Z) (s : State) : jsstring :=
  match App.at_ (currentExamAnswers s) index with
  | None => str "unanswered"
  | Some a => if isCorrect a then str "correct" else str "incorrect"
  end.

(** [clearAllData]: after the confirmation the bank, the history, the
    threshold and the session data are reset; the page and the pending
    input are not assigned. *)
Definition clearAllData (env : Env) (s : State) : State :=
  if negb (confirm env) then s
  else
    App.setFeedback None
      (App.setIncorrect 0
        (App.setCorrect 0
          (App.setIndex 0
            (App.newAnswers
              (App.setExamQuestions []
                (App.setThreshold 3
                  (App.setHistory []
                    (App.setQuestionRefs [] s)))))))).





End AppMore.

Module UtilsMore.

(** [s.startsWith(p)]. *)
Fixpoint startsWith (s p : jsstring) : bool :=
  match p, s with
  | [], _ => true
  | _ :: _, [] => false
  | x :: p', y :: s' => (x =? y) && startsWith s' p'
  end.

(** [s.includes(sub)]: [sub] occurs in [s] at some position. *)
Fixpoint includes (s sub : jsstring) : bool :=
  startsWith s sub
  || match s with
     | [] => false
     | _ :: r => includes r sub
     end.

(** [isCorrectOption(question, optionKey)] of the review pages. *)
Definition isCorrectOption (q : Question) (optionKey : jsstring) : bool :=
  if eqb (type q) s_multi then includes (answer q) optionKey
  else eqb (answer q) optionKey.

Definition hash : char := 35.

Section Runtime.

(** [String.prototype.toUpperCase] of the runtime. *)
Variable toUpperCase : jsstring -> jsstring.

(** [rgbToHex(rgb)]; [None] stands for [null] and [undefined], in the
    argument and in the result. *)
Definition rgbToHex (rgb : option jsstring) : option jsstring :=
  match rgb with
  | None => None
  | Some [] => None
  | Some r =>
      if startsWith r [hash] then Some r
      else
        let r := if (List.length r =? 8)%nat then skipn 2 r else r in
        Some (hash :: toUpperCase r)
  end.

End Runtime.

(** [[a[i], a[j]] = [a[j], a[i]]] for indices inside the array. *)
Definition swap {A : Type} (i j : nat) (a : list A) : list A :=
  match nth_error a i, nth_error a j with
  | Some x, Some y =>
      let a1 := firstn i a ++ y :: skipn (S i) a in
      firstn j a1 ++ x :: skipn (S j) a1
  | _, _ => a
  end.

Section Random.

(** [pick i] is the value of [Math.floor(Math.random() * (i + 1))] in the
    iteration with index [i]. *)
Variable pick : nat -> nat.

Context {A : Type}.

(** The loop of [shuffleArray] for the indices [i], [i - 1], ..., 1. *)
Fixpoint shuffleFrom (i : nat) (a : list A) : list A :=
  match i with
  | O => a
  | S i' => shuffleFrom i' (swap i (pick i) a)
  end.

(** [shuffleArray(array)]: the loop runs on a copy. *)
Definition shuffleArray (array : list A) : list A :=
  shuffleFrom (List.length array - 1) array.

End Random.

End UtilsMore.

(** * Vocabulary of the properties *)

(** A session is in progress: the exam or its overview is shown and the
    position pointer is inside the snapshot. *)
Definition InProgress (s : State) : Prop :=
  (currentPage s = exam \/ currentPage s = overview) /\
  (0 <= currentQuestionIndex s
   < Z.of_nat (List.length (currentExamQuestions s)))%Z.

Definition Finished (s : State) : Prop := currentPage s = report.

(** The pending input is the empty form of the current question's type:
    the empty array for a multi-choice question, the empty string for the
    others. *)
Definition EmptySelection (s : State) : Prop :=
  match App.currentQuestion s with
  | Some q =>
      if eqb (type q) s_multi then userAnswer s = Labels []
      else userAnswer s = Text []
  | None => userAnswer s = Text []
  end.

(** The empty form [resetAnswer] chooses for the question at [index]. *)
Definition emptyFormAt (qs : list Question) (index : Z) : UserAnswer :=
  match App.at_ qs index with
  | Some q => if eqb (type q) s_multi then Labels [] else Text []
  | None => Text []
  end.

(** A store with the objects of [l] at the references 0, 1, ... and
    [d] at the others. *)
Definition storeOf {A : Type} (d : A) (l : list A) : Ref -> A :=
  fun r => nth r l d.

Definition noQuestion : Question :=
  mkQuestion [] [] [] [] [] (mkStatistics 0 0 0).

(** A state with the objects [bank] in the bank; the snapshot holds the
    objects of the bank at the positions [snapshot]; [answers] is the
    current answer array and the history is empty. *)
Definition session (page : Page) (bank : list Question)
    (snapshot : list nat) (index : Z) (u : UserAnswer)
    (answers : list AnswerRecord) (feedback : option Feedback)
    (nCorrect nIncorrect threshold : N) : State :=
  mkState page (storeOf noQuestion bank) (seq O (List.length bank))
    snapshot index u (storeOf [] [answers]) O feedback nCorrect nIncorrect
    [] threshold.

(** The state after the import of [bank], at the given threshold. *)
Definition imported (bank : list Question) (threshold : N) : State :=
  session home bank [] 0 (Text []) [] None 0 0 threshold.

(** A one-question session showing the feedback of an earlier answer. *)
Definition sampleQuestion : Question :=
  mkQuestion (str "1") s_single (str "Q") [(str "A", str "x")] (str "A")
             zeroStatistics.

Definition sampleSession : State :=
  session exam [sampleQuestion] [O] 0 (Text (str "A"))
    [mkAnswerRecord (str "1") (str "Q") (str "B") (str "A") false]
    (Some (mkFeedback 1 (str "B") (str "A") false)) 0 1 3.

(** A session of two positions at its first one, nothing selected, with
    the feedback of an earlier answer still shown. *)
Definition staleFeedbackSession : State :=
  session exam [sampleQuestion] [O; O] 0 (Text [])
    [mkAnswerRecord (str "1") (str "Q") (str "B") (str "A") false]
    (Some (mkFeedback 1 (str "B") (str "A") false)) 0 1 3.

Definition sampleEnv : Env := mkEnv true 1700000000000 (str "t0") (str "t1").

Definition sampleToString : spec_float -> jsstring := fun _ => str "NaN".

(** The sample session after its hand-in, with the user back on the
    exam page: the record of the history holds the answer array of the
    session. *)
Definition handedInSession : State :=
  AppMore.backToExam (App.finishExam sampleToString sampleEnv sampleSession).

(** The answer records of one question, in the order they were given. *)
Definition answersFor (qid : jsstring) (l : list AnswerRecord)
    : list AnswerRecord :=
  filter (fun a => eqb (questionId a) qid) l.

Definition correctCount (l : list AnswerRecord) : N :=
  N.of_nat (List.length (filter isCorrect l)).

Definition incorrectCount (l : list AnswerRecord) : N :=
  N.of_nat (List.length (filter (fun a => negb (isCorrect a)) l)).

(** The statistics after the attempts [l], one after the other. *)
Definition replay (l : list AnswerRecord) (st : Statistics) : Statistics :=
  fold_left (fun st a => App.recordAttempt (isCorrect a) st) l st.

(** The streak after the attempts [l]: one more for each correct answer,
    zero after an incorrect one. *)
Definition streak (c : N) (l : list AnswerRecord) : N :=
  fold_left (fun c a => if isCorrect a then c + 1 else 0) l c.

(** The answers of [l] for which [find] returns the object [r] of the
    bank [refs]. *)
Definition answersFoundAt (o : Ref -> Question) (refs : list Ref)
    (r : Ref) (l : list AnswerRecord) : list AnswerRecord :=
  filter (fun a => match App.findQuestion o refs (questionId a) with
                   | Some r' => Nat.eqb r' r
                   | None => false
                   end) l.

(** The bank and the answers of the end-to-end scenario: three
    questions, the first two answered correctly, the third one not, and
    one stray answer for a question that is not in the bank. *)
Definition sampleBank : list Question :=
  [ mkQuestion (str "1") s_single (str "Q1")
      [(str "A", str "x"); (str "B", str "y")] (str "B") zeroStatistics;
    mkQuestion (str "2") s_multi (str "Q2")
      [(str "A", str "x"); (str "B", str "y"); (str "C", str "z")]
      (str "AC") zeroStatistics;
    mkQuestion (str "3") s_boolean (str "Q3")
      [(str "A", s_right); (str "B", s_wrong)] (str "A")
      (mkStatistics 2 5 4) ].

Definition sampleAnswers : list AnswerRecord :=
  [ mkAnswerRecord (str "1") (str "Q1") (str "B") (str "B") true;
    mkAnswerRecord (str "9") (str "Q9") (str "A") (str "B") false;
    mkAnswerRecord (str "2") (str "Q2") (str "AC") (str "AC") true;
    mkAnswerRecord (str "3") (str "Q3") (str "B") (str "A") false ].

(** The sample bank with the sample answers recorded; the snapshot
    holds the three objects of the bank. *)
Definition answeredSession : State :=
  session exam sampleBank [0; 1; 2]%nat 2 (Text (str "B")) sampleAnswers
    None 2 2 3.

(** A label of one code unit, as the labels A to E are. *)
Definition singleLabel (l : jsstring) : Prop := exists c, l = [c].

(** The state of [parseCSVRows] after its loop over the lines of [text],
    entered with the given rows, current row, current field and quote
    flag. *)
Definition scanText (text : jsstring) (rows : list (list jsstring))
    (row : list jsstring) (field : jsstring) (inQuotes : bool)
    : list (list jsstring) * list jsstring * jsstring * bool :=
  Utils.scanLines (splitLines text) rows row field inQuotes.

(** A field value written as a quoted field: every quote doubled, the
    whole between quotes. *)
Fixpoint escapeQuotes (w : jsstring) : jsstring :=
  match w with
  | [] => []
  | c :: r =>
      if c =? quote then quote :: quote :: escapeQuotes r
      else c :: escapeQuotes r
  end.

Definition quoted (w : jsstring) : jsstring :=
  quote :: escapeQuotes w ++ [quote].

Definition encodeRow (r : list jsstring) : jsstring :=
  join [comma] (map quoted r).

Definition encodeRows (rs : list (list jsstring)) : jsstring :=
  join [nl] (map encodeRow rs).

(** The option columns of a row, by label. *)
Definition optionColumns (row : list jsstring)
    : list (jsstring * jsstring) :=
  combine [str "A"; str "B"; str "C"; str "D"; str "E"]
          (firstn 5 (skipn 3 row)).

(** The options of a row that is not of the true/false type: the option
    columns that are not empty after trimming, trimmed and with their
    newlines collapsed. *)
Definition keptOptions (row : list jsstring) : list (jsstring * jsstring) :=
  map (fun lv => (fst lv, collapseNewlines (trim (snd lv))))
      (filter (fun lv => nonEmpty (trim (snd lv))) (optionColumns row)).

(** The field ["a,b<LF>c"] of the specification, between quotes. *)
Definition quotedSample : jsstring := quoted (str "a,b" ++ [nl] ++ str "c").

Definition headerLine : jsstring := str "id,type,q,a,b,c,d,e,ans".

(** The record made from a row of at least nine fields. *)
Definition RecordOfRow (row : list jsstring) (q : Question) : Prop :=
  id q = trim (nth 0 row []) /\
  type q = trim (nth 1 row []) /\
  question q = collapseNewlines (trim (nth 2 row [])) /\
  answer q = trim (nth 8 row []) /\
  statistics q = zeroStatistics /\
  options q = (if eqb (type q) s_boolean
               then [(str "A", s_right); (str "B", s_wrong)]
               else keptOptions row) /\
  (options q <> [] <->
   type q = s_boolean \/
   exists lv, In lv (optionColumns row) /\ trim (snd lv) <> []).

(** The labels named by a correct-answer string: one per code unit. *)
Definition answerLabels (q : Question) : list jsstring :=
  splitChars (answer q).

(** The invariant of the data model on one record. *)
Definition WellFormedRecord (q : Question) : Prop :=
  options q <> [] /\
  forall l, In l (answerLabels q) -> In l (labels (options q)).

(** Two data rows of nine fields each: one without any option, one whose
    answer names a label that has no option. *)
Definition uncheckedText : jsstring :=
  headerLine ++ [nl] ++ str "1," ++ s_single ++ str ",Q1,,,,,,A" ++ [nl]
  ++ str "2," ++ s_single ++ str ",Q2,x,y,,,,C".

(** The number with integer value [n], on [Z]. *)
Definition ofZ (n : Z) : spec_float := binary_normalize 53 1024 n 0 false.

(** The counters of a session add up to the number of its answers. *)
Definition CountersAgree (s : State) : Prop :=
  currentExamCorrect s + currentExamIncorrect s
  = N.of_nat (List.length (currentExamAnswers s)).

(** The three questions of the end-to-end scenario as delimited text:
    single-choice with answer B, multi-choice with answer AC, true/false
    with answer A. *)
Definition scenarioText : jsstring :=
  headerLine ++ [nl]
  ++ str "1," ++ s_single ++ str ",Q1,x,y,,,,B" ++ [nl]
  ++ str "2," ++ s_multi ++ str ",Q2,x,y,z,,,AC" ++ [nl]
  ++ str "3," ++ s_boolean ++ str ",Q3,,,,,,A" ++ [nl].

(** The user selects [u] and submits. *)
Definition selectAndSubmit (u : UserAnswer) (o : Outcome) : Outcome :=
  match o with
  | Returned s _ =>
      App.submitAnswer sampleToString sampleEnv (App.setUserAnswer u s)
  | TypeError => TypeError
  end.

(** Import, start at threshold 3, answer B, then C and A, then B; the
    timer armed by the last answer then calls [finishExam]. *)
Definition scenarioRun : Outcome :=
  match
    selectAndSubmit (Text (str "B"))
      (selectAndSubmit (Labels [str "C"; str "A"])
        (selectAndSubmit (Text (str "B"))
          (Returned
             (App.startExam (imported (Utils.parseCSVText scenarioText) 3))
             false)))
  with
  | Returned s true =>
      Returned (App.finishExam sampleToString sampleEnv s) false
  | o => o
  end.

(** Page, scores of the history and statistics of the bank after the
    scenario. *)
Definition scenarioSummary
    : option (Page * list Score * list Statistics) :=
  match scenarioRun with
  | Returned s false =>
      Some (currentPage s, map score (examHistory s),
            map statistics (questions s))
  | _ => None
  end.

(** The events of a session: the user starts an exam, selects, submits,
    goes back, jumps, changes the page, or [finishExam] is called (by
    the hand-in button or by the timer armed at the last question). *)
Inductive Event :=
| DoStart
| DoSelect (u : UserAnswer)
| DoSubmit (env : Env)
| DoFinish (env : Env)
| DoPrevious
| DoJump (index : Z)
| DoOverview
| DoBackToExam
| DoBackToHome.

(** The position pointer is inside the snapshot. *)
Definition PointerInRange (s : State) : Prop :=
  (0 <= currentQuestionIndex s
   < Z.of_nat (List.length (currentExamQuestions s)))%Z.

(** A jump is admissible when its index is inside the snapshot; every
    other event is. *)
Definition Admissible (e : Event) (s : State) : Prop :=
  match e with
  | DoJump index =>
      (0 <= index < Z.of_nat (List.length (currentExamQuestions s)))%Z
  | _ => True
  end.

(** What a question is apart from its statistics. *)
Definition content (q : Question)
    : jsstring * jsstring * jsstring * list (jsstring * jsstring) * jsstring :=
  (id q, type q, question q, options q, answer q).

(** The submitted answer as [submitAnswer] records it: the sorted labels
    joined for a multi-choice question, the string otherwise. *)
Definition normalized (q : Question) (u : UserAnswer) : jsstring :=
  if eqb (type q) s_multi then
    match u with
    | Labels a => join [] (sort a)
    | Text _ => []
    end
  else toString u.

(** The record [submitAnswer] appends for the answer [u] to [q]. *)
Definition recorded (q : Question) (u : UserAnswer) : AnswerRecord :=
  mkAnswerRecord (id q) (question q) (normalized q u) (answer q)
                 (Utils.checkAnswer u (answer q) (type q)).

(** Invariant of the mastery statistics. *)
Definition StatsOK (st : Statistics) : Prop :=
  consecutiveCorrect st <= correctAttempts st /\
  correctAttempts st <= totalAttempts st.

(** The effect of one event on the state; a call that throws leaves the
    state as it was. *)
Definition step (numberToString : spec_float -> jsstring) (e : Event)
    (s : State) : State :=
  match e with
  | DoStart => App.startExam s
  | DoSelect u => App.setUserAnswer u s
  | DoSubmit env =>
      match App.submitAnswer numberToString env s with
      | Returned s' _ => s'
      | TypeError => s
      end
  | DoFinish env => App.finishExam numberToString env s
  | DoPrevious => App.previousQuestion s
  | DoJump index => App.jumpToQuestion index s
  | DoOverview => AppMore.showOverview s
  | DoBackToExam => AppMore.backToExam s
  | DoBackToHome => AppMore.backToHome s
  end.

Definition run (numberToString : spec_float -> jsstring)
    (es : list Event) (s : State) : State :=
  fold_left (fun s e => step numberToString e s) es s.

(** Every jump of the run is admissible in the state it is made in. *)
Fixpoint AllAdmissible (numberToString : spec_float -> jsstring)
    (es : list Event) (s : State) : Prop :=
  match es with
  | [] => True
  | e :: r =>
      Admissible e s /\ AllAdmissible numberToString r (step numberToString e s)
  end.

(** [u] counts as an answer to [q] for computed [hasAnswer]. *)
Definition isAnswerFor (q : Question) (u : UserAnswer) : bool :=
  if eqb (type q) s_multi then
    match u with
    | Labels a => (0 <? List.length a)%nat
    | Text _ => false
    end
  else
    match u with
    | Text t => nonEmpty t
    | Labels _ => true
    end.

(** The user answers one question after the other: each answer is
    selected and then submitted. *)
Fixpoint answerInTurn (numberToString : spec_float -> jsstring)
    (env : Env) (us : list UserAnswer) (s : State) : State :=
  match us with
  | [] => s
  | u :: r =>
      answerInTurn numberToString env r
        (step numberToString (DoSubmit env) (App.setUserAnswer u s))
  end.

(** The records of the answers [us] to the questions [qs], position by
    position. *)
Definition verdicts (qs : list Question) (us : list UserAnswer)
    : list AnswerRecord :=
  map (fun p => recorded (fst p) (snd p)) (combine qs us).

(** The option keys which the review pages mark as correct. *)
Definition markedKeys (q : Question) : list jsstring :=
  filter (UtilsMore.isCorrectOption q) (map fst (options q)).

(** A session just started on the sample bank. *)
Definition freshSession : State := App.startExam (imported sampleBank 3).

(** A row as [parseCSVRows] returns them: some field is not empty, and
    no field begins or ends with white space. *)
Definition NormalRow (r : list jsstring) : Prop :=
  existsb nonEmpty r = true /\ Forall (fun w => trim w = w) r.

(** [s.split(d)] for a separator [d] of one code unit. *)
Fixpoint splitOn (d : char) (s : jsstring) : list jsstring :=
  match s with
  | [] => [[]]
  | c :: r =>
      if c =? d then [] :: splitOn d r
      else match splitOn d r with
           | l :: ls => (c :: l) :: ls
           | [] => [[c]]
           end
  end.

(** The fields of a line without quotes: its parts between commas,
    trimmed. *)
Definition plainFields (line : jsstring) : list jsstring :=
  map trim (splitOn comma line).

(** The parts of a line when the scan is entered with the beginning
    [field] of its first part. *)
Definition prefixed (field : jsstring) (parts : list jsstring)
    : list jsstring :=
  match parts with
  | [] => [field]
  | l :: ls => (field ++ l) :: ls
  end.

(** [parts] with [w] appended to its last element. *)
Fixpoint appendLast (parts : list jsstring) (w : jsstring)
    : list jsstring :=
  match parts with
  | [] => [w]
  | [x] => [x ++ w]
  | x :: r => x :: appendLast r w
  end.

(** Every line of [text] that is not blank has a field that is not
    blank: no line is made of commas and white space only. *)
Definition NoCommaLines (text : jsstring) : Prop :=
  Forall (fun l => trim l <> [] -> existsb nonEmpty (plainFields l) = true)
         (splitLines text).

(** A header and a line of nine empty fields. *)
Definition commaLineText : jsstring :=
  headerLine ++ [nl] ++ str ",,,,,,,,".

(** The history as it reads when the current answer array has the
    content [a]: the records that hold this array show [a], the others
    are as they are. *)
Definition historyWith (a : list AnswerRecord) (s : State)
    : list ExamRecord :=
  map (fun e =>
         if Nat.eqb (entryAnswers e) (examAnswersRef s)
         then {| examId := entryId e;
                 startTime := entryStart e;
                 endTime := entryEnd e;
                 answers := a;
                 score := entryScore e |}
         else readEntry s e)
      (historyEntries s).

(** No record of the history holds the current answer array: the
    session has not been handed in. *)
Definition NotHandedIn (s : State) : Prop :=
  ~ In (examAnswersRef s) (map entryAnswers (historyEntries s)).

(** The record [now] is the record [old] with more answers, or the
    same answers: id, timestamps and score are those of [old]. *)
Definition GrownFrom (old now : ExamRecord) : Prop :=
  examId now = examId old /\
  startTime now = startTime old /\
  endTime now = endTime old /\
  score now = score old /\
  exists more, answers now = answers old ++ more.

(** * Properties *)

(** ** Strings *)

Lemma eqb_eq a b : eqb a b = true <-> a = b.
Proof.
  unfold eqb. destruct (list_eq_dec N.eq_dec a b); split;
    intros; congruence.
Qed.

Lemma eqb_refl a : eqb a a = true.
Proof. now apply eqb_eq. Qed.

Lemma eqb_neq a b : eqb a b = false <-> a <> b.
Proof.
  unfold eqb. destruct (list_eq_dec N.eq_dec a b); split;
    intros; congruence.
Qed.

(** ** Navigation: [jumpToQuestion] *)

Lemma currentQuestion_at s :
  App.currentQuestion s
  = App.at_ (currentExamQuestions s) (currentQuestionIndex s).
Proof.
  unfold App.currentQuestion.
  destruct (currentExamQuestions s) eqn:E; [|reflexivity].
  unfold App.at_. destruct (_ <? 0)%Z; [reflexivity|].
  now destruct (Z.to_nat _).
Qed.

Lemma resetAnswer_userAnswer s :
  userAnswer (App.resetAnswer s)
  = emptyFormAt (currentExamQuestions s) (currentQuestionIndex s).
Proof.
  unfold App.resetAnswer, App.currentIsMulti, emptyFormAt.
  rewrite currentQuestion_at.
  destruct (App.at_ _ _) as [q|]; [destruct (eqb (type q) s_multi)|];
    reflexivity.
Qed.

Lemma resetAnswer_frame s :
  let s' := App.resetAnswer s in
  currentPage s' = currentPage s /\
  questions s' = questions s /\
  currentExamQuestions s' = currentExamQuestions s /\
  currentQuestionIndex s' = currentQuestionIndex s /\
  currentExamAnswers s' = currentExamAnswers s /\
  lastAnswerFeedback s' = lastAnswerFeedback s /\
  currentExamCorrect s' = currentExamCorrect s /\
  currentExamIncorrect s' = currentExamIncorrect s /\
  examHistory s' = examHistory s /\
  consecutiveCorrectThreshold s' = consecutiveCorrectThreshold s.
Proof.
  unfold App.resetAnswer. destruct (App.currentIsMulti s); cbn; tauto.
Qed.

(** C2, as stated, fails: in a session of one question, a jump to index
    7 is not blocked; it moves the position pointer to 7, empties the
    pending input and clears the feedback. *)
Lemma jump_out_of_range_not_blocked :
  InProgress sampleSession /\
  ~ (0 <= 7 < Z.of_nat (List.length (currentExamQuestions sampleSession)))%Z /\
  currentQuestionIndex sampleSession = 0%Z /\
  currentQuestionIndex (App.jumpToQuestion 7 sampleSession) = 7%Z /\
  userAnswer sampleSession = Text (str "A") /\
  userAnswer (App.jumpToQuestion 7 sampleSession) = Text [] /\
  lastAnswerFeedback sampleSession <> None /\
  lastAnswerFeedback (App.jumpToQuestion 7 sampleSession) = None.
Proof.
  unfold InProgress, currentExamQuestions.
  repeat split; try reflexivity; cbn; try lia; try discriminate.
  now left.
Qed.

(** C2, amended: [jumpToQuestion] has no range check.  For every index,
    inside the snapshot or not, it sets the position pointer to the
    index, puts the pending input to the empty form of the question at
    that index (the empty string when there is none), clears the feedback
    and shows the exam page; the answers, both counters, the snapshot,
    the bank, the history and the threshold are unchanged. *)
Theorem jumpToQuestion_effect (index : Z) (s : State) :
  let s' := App.jumpToQuestion index s in
  currentQuestionIndex s' = index /\
  userAnswer s' = emptyFormAt (currentExamQuestions s) index /\
  lastAnswerFeedback s' = None /\
  currentPage s' = exam /\
  currentExamAnswers s' = currentExamAnswers s /\
  currentExamCorrect s' = currentExamCorrect s /\
  currentExamIncorrect s' = currentExamIncorrect s /\
  currentExamQuestions s' = currentExamQuestions s /\
  questions s' = questions s /\
  examHistory s' = examHistory s /\
  consecutiveCorrectThreshold s' = consecutiveCorrectThreshold s.
Proof.
  unfold App.jumpToQuestion. cbn.
  pose proof (resetAnswer_frame (App.setIndex index s)) as F.
  pose proof (resetAnswer_userAnswer (App.setIndex index s)) as U.
  cbn in F, U. intuition.
Qed.

(** ** The store *)

(** What is read through the store after an assignment that does not
    concern it. *)
Ltac read_through view :=
  repeat match goal with
         | |- context [view (?f ?a ?s)] =>
             progress change (view (f a s)) with (view s)
         | H : context [view (?f ?a ?s)] |- _ =>
             progress change (view (f a s)) with (view s) in H
         end.

Ltac views :=
  read_through questions; read_through currentExamQuestions;
  read_through currentExamAnswers; read_through examHistory.

Lemma write_same {A : Type} r (v : A) h : write r v h r = v.
Proof. unfold write. now rewrite Nat.eqb_refl. Qed.

Lemma write_other {A : Type} r r' (v : A) h :
  r' <> r -> write r v h r' = h r'.
Proof. unfold write. intros H. now rewrite (proj2 (Nat.eqb_neq _ _) H). Qed.

Lemma nth_error_questions s i :
  nth_error (questions s) i
  = option_map (objects s) (nth_error (questionRefs s) i).
Proof. unfold questions. apply nth_error_map. Qed.

Lemma nth_error_currentExamQuestions s i :
  nth_error (currentExamQuestions s) i
  = option_map (objects s) (nth_error (examQuestionRefs s) i).
Proof. unfold currentExamQuestions. apply nth_error_map. Qed.

Lemma length_currentExamQuestions s :
  List.length (currentExamQuestions s) = List.length (examQuestionRefs s).
Proof. unfold currentExamQuestions. apply length_map. Qed.

(** What [resetAnswer] leaves in the store. *)
Lemma resetAnswer_store s :
  let s' := App.resetAnswer s in
  objects s' = objects s /\
  questionRefs s' = questionRefs s /\
  examQuestionRefs s' = examQuestionRefs s /\
  arrays s' = arrays s /\
  examAnswersRef s' = examAnswersRef s /\
  historyEntries s' = historyEntries s.
Proof.
  unfold App.resetAnswer. destruct (App.currentIsMulti s); cbn; tauto.
Qed.

(** [availableQuestions] are the objects of [availableRefs]. *)
Lemma availableRefs_view s :
  map (objects s) (App.availableRefs s) = App.availableQuestions s.
Proof.
  unfold App.availableRefs, App.availableQuestions, questions.
  induction (questionRefs s) as [|r l IH]; cbn; [reflexivity|].
  destruct (_ <? _); cbn; now rewrite IH.
Qed.

Lemma startExam_none s :
  App.availableQuestions s = [] -> App.startExam s = s.
Proof.
  rewrite <- availableRefs_view. unfold App.startExam.
  now destruct (App.availableRefs s).
Qed.

Lemma startExam_started s :
  App.availableQuestions s <> [] ->
  App.startExam s
  = App.setPage exam
      (App.setFeedback None
        (App.resetAnswer
          (App.setIncorrect 0
            (App.setCorrect 0
              (App.newAnswers
                (App.setIndex 0
                  (App.setExamQuestions (App.availableRefs s) s))))))).
Proof.
  rewrite <- availableRefs_view. unfold App.startExam.
  destruct (App.availableRefs s); [now intros [] | reflexivity].
Qed.

Lemma max_bound c l :
  (c <= fold_right Nat.max c l)%nat /\
  (forall x, In x l -> (x <= fold_right Nat.max c l)%nat).
Proof.
  induction l as [|y l [IHc IHl]]; cbn; [split; [lia | tauto]|].
  split; [lia|]. intros x [->|H]; [lia|]. specialize (IHl x H). lia.
Qed.

(** The new array of [this.currentExamAnswers = []] is none of the
    arrays in use. *)
Lemma freshArray_current s : App.freshArray s <> examAnswersRef s.
Proof.
  unfold App.freshArray.
  pose proof (proj1 (max_bound (examAnswersRef s)
                       (map entryAnswers (historyEntries s)))).
  lia.
Qed.

Lemma freshArray_history s e :
  In e (historyEntries s) -> entryAnswers e <> App.freshArray s.
Proof.
  intros H. unfold App.freshArray.
  pose proof (proj2 (max_bound (examAnswersRef s)
                       (map entryAnswers (historyEntries s)))
                    (entryAnswers e) (in_map _ _ _ H)).
  lia.
Qed.

Lemma currentExamAnswers_newAnswers s :
  currentExamAnswers (App.newAnswers s) = [].
Proof. unfold currentExamAnswers. cbn. apply write_same. Qed.

Lemma examHistory_newAnswers s :
  examHistory (App.newAnswers s) = examHistory s.
Proof.
  unfold examHistory. cbn. apply map_ext_in. intros e H.
  unfold readEntry. cbn.
  now rewrite (write_other _ _ _ _ (freshArray_history s e H)).
Qed.

Lemma currentExamAnswers_setAnswers a s :
  currentExamAnswers (App.setAnswers a s) = a.
Proof. unfold currentExamAnswers. cbn. apply write_same. Qed.

(** A push onto the current answer array is seen by the records of the
    history that hold this array, and by no other. *)
Lemma examHistory_setAnswers a s :
  examHistory (App.setAnswers a s) = historyWith a s.
Proof.
  unfold examHistory, historyWith. cbn. apply map_ext. intros e.
  unfold readEntry. cbn. unfold write.
  now destruct (Nat.eqb (entryAnswers e) (examAnswersRef s)).
Qed.

Lemma historyWith_same s :
  historyWith (currentExamAnswers s) s = examHistory s.
Proof.
  unfold historyWith, examHistory. apply map_ext. intros e.
  unfold readEntry, currentExamAnswers.
  now destruct (Nat.eqb_spec (entryAnswers e) (examAnswersRef s)) as [->|].
Qed.

Lemma historyWith_NotHandedIn a s :
  NotHandedIn s -> historyWith a s = examHistory s.
Proof.
  unfold NotHandedIn, historyWith, examHistory. intros N.
  apply map_ext_in. intros e He.
  destruct (Nat.eqb_spec (entryAnswers e) (examAnswersRef s)) as [E|];
    [|reflexivity].
  elim N. rewrite <- E. now apply in_map.
Qed.

(** ** Mastery statistics: [updateQuestionStats] *)

Lemma setStatistics_same q : App.setStatistics (statistics q) q = q.
Proof. now destruct q. Qed.

Lemma replay_snoc l a st :
  replay (l ++ [a]) st = App.recordAttempt (isCorrect a) (replay l st).
Proof. unfold replay. now rewrite fold_left_app. Qed.

Lemma streak_snoc l a c :
  streak c (l ++ [a]) = if isCorrect a then streak c l + 1 else 0.
Proof. unfold streak. now rewrite fold_left_app. Qed.

Lemma replay_counts l st :
  totalAttempts (replay l st)
  = totalAttempts st + N.of_nat (List.length l) /\
  correctAttempts (replay l st) = correctAttempts st + correctCount l /\
  consecutiveCorrect (replay l st) = streak (consecutiveCorrect st) l /\
  N.of_nat (List.length l) = correctCount l + incorrectCount l.
Proof.
  induction l as [|a l IH] using rev_ind.
  - cbn. unfold correctCount, incorrectCount. cbn. lia.
  - rewrite replay_snoc, streak_snoc.
    unfold correctCount, incorrectCount in *.
    rewrite !filter_app, !length_app. cbn.
    destruct IH as (T & C & S & L).
    unfold App.recordAttempt. destruct (isCorrect a); cbn; lia.
Qed.

(** With unique ids every question is the first with its id. *)
Lemma NoDup_ids_first qs i q :
  NoDup (map id qs) ->
  nth_error qs i = Some q ->
  ~ In (id q) (map id (firstn i qs)).
Proof.
  revert i. induction qs as [|h r IH]; intros [|i] ND H; cbn in *;
    try discriminate; auto.
  inversion ND as [|? ? Hh ND']; subst.
  intros [E|Hin].
  - apply Hh. rewrite E. apply in_map. eapply nth_error_In; eauto.
  - eapply IH; eauto.
Qed.

(** The object that [find] returns has the id looked for. *)
Lemma findQuestion_id o refs qid r :
  App.findQuestion o refs qid = Some r -> In r refs /\ id (o r) = qid.
Proof.
  unfold App.findQuestion. intros H. apply find_some in H.
  destruct H as [H E]. now apply eqb_eq in E.
Qed.

Lemma findQuestion_none o refs qid :
  ~ In qid (map (fun r => id (o r)) refs) ->
  App.findQuestion o refs qid = None.
Proof.
  intros N. destruct (App.findQuestion o refs qid) as [r|] eqn:E;
    [|reflexivity].
  destruct (findQuestion_id _ _ _ _ E) as [I <-].
  elim N. now apply (in_map (fun r => id (o r))).
Qed.

(** [find] depends on the ids only. *)
Lemma findQuestion_ids o o' refs qid :
  (forall r, id (o' r) = id (o r)) ->
  App.findQuestion o' refs qid = App.findQuestion o refs qid.
Proof.
  intros H. unfold App.findQuestion.
  induction refs as [|r refs IH]; cbn; [reflexivity|].
  now rewrite H, IH.
Qed.

(** [find] returns the first object with the id. *)
Lemma findQuestion_first o refs i r :
  nth_error refs i = Some r ->
  ~ In (id (o r)) (map (fun x => id (o x)) (firstn i refs)) ->
  App.findQuestion o refs (id (o r)) = Some r.
Proof.
  unfold App.findQuestion. revert i.
  induction refs as [|x refs IH]; intros [|i] H N; cbn in *;
    try discriminate.
  - injection H as ->. now rewrite eqb_refl.
  - destruct (eqb (id (o x)) (id (o r))) eqn:E.
    + apply eqb_eq in E. elim N. now left.
    + apply (IH i); auto.
Qed.

(** The object at [r] after the callback of the [forEach]. *)
Lemma updateFound_at refs a o r :
  App.updateFound refs a o r
  = if match App.findQuestion o refs (questionId a) with
       | Some r' => Nat.eqb r' r
       | None => false
       end
    then App.setStatistics
           (App.recordAttempt (isCorrect a) (statistics (o r))) (o r)
    else o r.
Proof.
  unfold App.updateFound.
  destruct (App.findQuestion o refs (questionId a)) as [r'|];
    [|reflexivity].
  unfold write. rewrite (Nat.eqb_sym r r').
  destruct (Nat.eqb_spec r' r) as [->|]; reflexivity.
Qed.

Lemma updateFound_content refs a o r :
  content (App.updateFound refs a o r) = content (o r).
Proof.
  rewrite updateFound_at.
  now destruct (match App.findQuestion o refs (questionId a) with
                | Some r' => Nat.eqb r' r
                | None => false
                end).
Qed.

Lemma updateFound_id refs a o r :
  id (App.updateFound refs a o r) = id (o r).
Proof.
  pose proof (updateFound_content refs a o r) as H.
  unfold content in H. congruence.
Qed.

Lemma answersFoundAt_ids o o' refs r l :
  (forall x, id (o' x) = id (o x)) ->
  answersFoundAt o' refs r l = answersFoundAt o refs r l.
Proof.
  intros H. unfold answersFoundAt. apply filter_ext. intros a.
  now rewrite (findQuestion_ids o o' refs _ H).
Qed.

(** The objects after the [forEach]: the object at [r] has got the
    attempts of the answers for which [find] returned it, in their
    order, and nothing else of it has changed. *)
Lemma objects_after refs l : forall o r,
  fold_left (fun o a => App.updateFound refs a o) l o r
  = App.setStatistics
      (replay (answersFoundAt o refs r l) (statistics (o r))) (o r).
Proof.
  induction l as [|a l IH]; intros o r; cbn [fold_left].
  - cbn. now rewrite setStatistics_same.
  - rewrite IH.
    rewrite (answersFoundAt_ids o (App.updateFound refs a o) refs r l
               (updateFound_id refs a o)).
    rewrite updateFound_at. unfold answersFoundAt at 2. cbn [filter].
    destruct (match App.findQuestion o refs (questionId a) with
              | Some r' => Nat.eqb r' r
              | None => false
              end); reflexivity.
Qed.

Lemma updateQuestionStats_objects s r :
  objects (App.updateQuestionStats s) r
  = App.setStatistics
      (replay (answersFoundAt (objects s) (questionRefs s) r
                              (currentExamAnswers s))
              (statistics (objects s r)))
      (objects s r).
Proof. unfold App.updateQuestionStats. cbn. apply objects_after. Qed.

Lemma updateQuestionStats_content s r :
  content (objects (App.updateQuestionStats s) r) = content (objects s r).
Proof. now rewrite updateQuestionStats_objects. Qed.

(** For the first question of the bank with its id, the answers found
    are the answers with this id. *)
Lemma answersFoundAt_first s i r l :
  nth_error (questionRefs s) i = Some r ->
  ~ In (id (objects s r)) (map id (firstn i (questions s))) ->
  answersFoundAt (objects s) (questionRefs s) r l
  = answersFor (id (objects s r)) l.
Proof.
  intros H N. unfold answersFoundAt, answersFor. apply filter_ext.
  intros a.
  assert (N' : ~ In (id (objects s r))
                 (map (fun x => id (objects s x))
                      (firstn i (questionRefs s)))).
  { unfold questions in N. now rewrite firstn_map, map_map in N. }
  destruct (eqb (questionId a) (id (objects s r))) eqn:E.
  - apply eqb_eq in E. rewrite E.
    rewrite (findQuestion_first _ _ i r H N'). apply Nat.eqb_refl.
  - destruct (App.findQuestion (objects s) (questionRefs s) (questionId a))
      as [r'|] eqn:F; [|reflexivity].
    destruct (findQuestion_id _ _ _ _ F) as [_ I].
    destruct (Nat.eqb_spec r' r) as [->|]; [|reflexivity].
    apply eqb_neq in E. congruence.
Qed.

(** The first question of the bank with its id gets the attempts of
    the answers with this id. *)
Lemma updateQuestionStats_nth s i q :
  nth_error (questions s) i = Some q ->
  ~ In (id q) (map id (firstn i (questions s))) ->
  nth_error (questions (App.updateQuestionStats s)) i
  = Some (App.setStatistics
            (replay (answersFor (id q) (currentExamAnswers s))
                    (statistics q)) q).
Proof.
  rewrite !nth_error_questions.
  change (questionRefs (App.updateQuestionStats s)) with (questionRefs s).
  destruct (nth_error (questionRefs s) i) as [r|] eqn:H; [|discriminate].
  cbn [option_map]. intros [= <-] N.
  now rewrite updateQuestionStats_objects, (answersFoundAt_first s i r _ H N).
Qed.

(** Every question of the bank gets the attempts of some of the
    answers. *)
Lemma updateQuestionStats_some s i q :
  nth_error (questions s) i = Some q ->
  exists l,
    nth_error (questions (App.updateQuestionStats s)) i
    = Some (App.setStatistics (replay l (statistics q)) q).
Proof.
  rewrite !nth_error_questions.
  change (questionRefs (App.updateQuestionStats s)) with (questionRefs s).
  destruct (nth_error (questionRefs s) i) as [r|]; [|discriminate].
  cbn [option_map]. intros [= <-]. eexists.
  now rewrite updateQuestionStats_objects.
Qed.

(** A question that no answer refers to is not changed. *)
Lemma updateQuestionStats_other s i q :
  nth_error (questions s) i = Some q ->
  (forall a, In a (currentExamAnswers s) -> questionId a <> id q) ->
  nth_error (questions (App.updateQuestionStats s)) i = Some q.
Proof.
  rewrite !nth_error_questions.
  change (questionRefs (App.updateQuestionStats s)) with (questionRefs s).
  destruct (nth_error (questionRefs s) i) as [r|]; [|discriminate].
  cbn [option_map]. intros [= <-] N.
  rewrite updateQuestionStats_objects.
  replace (answersFoundAt (objects s) (questionRefs s) r
                          (currentExamAnswers s)) with (@nil AnswerRecord).
  - cbn. now rewrite setStatistics_same.
  - symmetry. unfold answersFoundAt.
    induction (currentExamAnswers s) as [|a l IH]; [reflexivity|].
    cbn [filter].
    destruct (App.findQuestion (objects s) (questionRefs s) (questionId a))
      as [r'|] eqn:F.
    + destruct (findQuestion_id _ _ _ _ F) as [_ I].
      destruct (Nat.eqb_spec r' r) as [->|].
      * elim (N a); [now left | now symmetry].
      * apply IH. intros b Hb. apply N. now right.
    + apply IH. intros b Hb. apply N. now right.
Qed.

(** C5: for every question of the bank, [updateQuestionStats] changes
    the statistics only, and neither [totalAttempts] nor
    [correctAttempts] of the question in the bank decreases.  For the
    question that [find] returns for an id (the first of the bank with
    that id; every question when ids are unique) the statistics of the
    question in the bank are the replay of the [forEach] body over the
    answers with that id: [totalAttempts] grows by one per answer,
    [correctAttempts] by one per correct answer, the streak is one more
    after a correct answer and exactly 0 after an incorrect one, and
    [totalAttempts = correctAttempts + incorrect answers] is kept. *)
Theorem updateQuestionStats_counts (s : State) (i : nat) (q : Question) :
  nth_error (questions s) i = Some q ->
  let mine := answersFor (id q) (currentExamAnswers s) in
  let st := statistics q in
  exists q',
    nth_error (questions (App.updateQuestionStats s)) i = Some q' /\
    content q' = content q /\
    totalAttempts st <= totalAttempts (statistics q') /\
    correctAttempts st <= correctAttempts (statistics q') /\
    (~ In (id q) (map id (firstn i (questions s))) ->
     statistics q' = replay mine st /\
     totalAttempts (statistics q')
     = totalAttempts st + N.of_nat (List.length mine) /\
     correctAttempts (statistics q')
     = correctAttempts st + correctCount mine /\
     consecutiveCorrect (statistics q')
     = streak (consecutiveCorrect st) mine /\
     (forall l a, streak (consecutiveCorrect st) (l ++ [a])
                  = if isCorrect a
                    then streak (consecutiveCorrect st) l + 1 else 0) /\
     (forall k, totalAttempts st = correctAttempts st + k ->
                totalAttempts (statistics q')
                = correctAttempts (statistics q')
                  + (k + incorrectCount mine))).
Proof.
  intros H mine st. subst st.
  destruct (updateQuestionStats_some s i q H) as (l & E).
  exists (App.setStatistics (replay l (statistics q)) q).
  destruct (replay_counts l (statistics q)) as (T & C & _ & _).
  split; [exact E|]. split; [reflexivity|].
  cbn [statistics App.setStatistics].
  split; [lia|]. split; [lia|].
  intros Hfirst.
  rewrite (updateQuestionStats_nth s i q H Hfirst) in E.
  injection E as E.
  assert (R : replay l (statistics q) = replay mine (statistics q)).
  { exact (eq_sym E). }
  rewrite R.
  destruct (replay_counts mine (statistics q)) as (T' & C' & S' & L').
  repeat split; auto; try lia.
  intros l0 a. apply streak_snoc.
Qed.

Lemma updateQuestionStats_counts_witness :
  exists q',
    nth_error (questions (App.updateQuestionStats answeredSession)) 2
    = Some q' /\
    totalAttempts (statistics q') = 6 /\
    correctAttempts (statistics q') = 4 /\
    consecutiveCorrect (statistics q') = 0.
Proof.
  destruct (updateQuestionStats_counts answeredSession 2
              (mkQuestion (str "3") s_boolean (str "Q3")
                 [(str "A", s_right); (str "B", s_wrong)] (str "A")
                 (mkStatistics 2 5 4)))
    as (q' & H & _ & _ & _ & F).
  - reflexivity.
  - destruct F as (_ & T & C & S & _).
    + vm_compute. intuition discriminate.
    + exists q'. repeat split; assumption.
Defined.

(** An answer whose id is in no question of the bank changes
    nothing. *)
Lemma updateFound_unknown refs a o :
  ~ In (questionId a) (map (fun r => id (o r)) refs) ->
  App.updateFound refs a o = o.
Proof.
  intros N. unfold App.updateFound. now rewrite findQuestion_none.
Qed.

Lemma updateFound_ids_fold refs l : forall o r,
  id (fold_left (fun o a => App.updateFound refs a o) l o r) = id (o r).
Proof. intros o r. now rewrite objects_after. Qed.

(** C10: an answer record whose [questionId] is the id of no question
    of the bank is passed over, wherever it stands in the list: the
    bank after the update is the bank that the update gives without
    this record.  A question that no answer record refers to is left
    as it is.  The update changes question objects only: no field of
    the application is assigned, so the answers and the history are as
    before, and the snapshot holds the same objects, of which only
    statistics can have changed. *)
Theorem updateQuestionStats_frame (s : State) :
  (forall pre a post,
     currentExamAnswers s = pre ++ a :: post ->
     ~ In (questionId a) (map id (questions s)) ->
     questions (App.updateQuestionStats s)
     = questions (App.updateQuestionStats (App.setAnswers (pre ++ post) s))) /\
  (forall i q,
     nth_error (questions s) i = Some q ->
     (forall a, In a (currentExamAnswers s) -> questionId a <> id q) ->
     nth_error (questions (App.updateQuestionStats s)) i = Some q) /\
  (App.updateQuestionStats s
   = App.setObjects (objects (App.updateQuestionStats s)) s /\
   currentExamAnswers (App.updateQuestionStats s) = currentExamAnswers s /\
   examHistory (App.updateQuestionStats s) = examHistory s /\
   examQuestionRefs (App.updateQuestionStats s) = examQuestionRefs s /\
   map content (currentExamQuestions (App.updateQuestionStats s))
   = map content (currentExamQuestions s)).
Proof.
  split; [|split; [|repeat split]].
  3:{ unfold currentExamQuestions. cbn [App.updateQuestionStats
        App.setObjects examQuestionRefs]. rewrite !map_map.
      apply map_ext. intros r. apply updateQuestionStats_content. }
  - intros pre a post E H.
    unfold questions, App.updateQuestionStats.
    rewrite currentExamAnswers_setAnswers, E. cbn.
    rewrite !fold_left_app. cbn [fold_left].
    rewrite updateFound_unknown; [reflexivity|].
    unfold questions in H. rewrite map_map in H.
    intros I. apply H. apply in_map_iff in I. destruct I as (r & Er & Ir).
    apply in_map_iff. exists r. split; [|exact Ir].
    now rewrite updateFound_ids_fold in Er.
  - intros i q H Hl. now apply updateQuestionStats_other.
Qed.

Lemma updateQuestionStats_frame_witness :
  questions (App.updateQuestionStats answeredSession)
  = questions
      (App.updateQuestionStats
         (App.setAnswers
            ([mkAnswerRecord (str "1") (str "Q1") (str "B") (str "B") true]
             ++ [mkAnswerRecord (str "2") (str "Q2") (str "AC") (str "AC") true;
                 mkAnswerRecord (str "3") (str "Q3") (str "B") (str "A") false])
            answeredSession)) /\
  nth_error
    (questions
       (App.updateQuestionStats
          (App.setAnswers
             [mkAnswerRecord (str "1") (str "Q1") (str "B") (str "B") true]
             answeredSession))) 1
  = Some (mkQuestion (str "2") s_multi (str "Q2")
            [(str "A", str "x"); (str "B", str "y"); (str "C", str "z")]
            (str "AC") zeroStatistics).
Proof.
  split.
  - apply (proj1 (updateQuestionStats_frame answeredSession)
             [mkAnswerRecord (str "1") (str "Q1") (str "B") (str "B") true]
             (mkAnswerRecord (str "9") (str "Q9") (str "A") (str "B") false)).
    + reflexivity.
    + vm_compute. intuition discriminate.
  - apply (proj1 (proj2 (updateQuestionStats_frame
             (App.setAnswers
                [mkAnswerRecord (str "1") (str "Q1") (str "B") (str "B") true]
                answeredSession)))).
    + reflexivity.
    + rewrite currentExamAnswers_setAnswers.
      intros a [<-|[]]. cbn. discriminate.
Defined.

(** ** Finalize and submit *)

Section Session.

Variable numberToString : spec_float -> jsstring.

Local Abbreviation finishExam := (App.finishExam numberToString).
Local Abbreviation submitAnswer := (App.submitAnswer numberToString).
Local Abbreviation currentExamScore := (App.currentExamScore numberToString).

(** What [finishExam] never touches. *)
Lemma finishExam_frame env s :
  let s' := finishExam env s in
  examQuestionRefs s' = examQuestionRefs s /\
  currentQuestionIndex s' = currentQuestionIndex s /\
  userAnswer s' = userAnswer s /\
  currentExamAnswers s' = currentExamAnswers s /\
  lastAnswerFeedback s' = lastAnswerFeedback s /\
  currentExamCorrect s' = currentExamCorrect s /\
  currentExamIncorrect s' = currentExamIncorrect s /\
  consecutiveCorrectThreshold s' = consecutiveCorrectThreshold s.
Proof.
  unfold App.finishExam.
  destruct (currentExamAnswers s) eqn:E; [cbn; tauto|].
  destruct (confirm env); cbn; repeat split; exact E.
Qed.

(** [finishExam] and the store: the arrays and the references stay, and
    of the question objects only statistics change. *)
Lemma finishExam_store env s :
  let s' := finishExam env s in
  questionRefs s' = questionRefs s /\
  arrays s' = arrays s /\
  examAnswersRef s' = examAnswersRef s /\
  (forall r, content (objects s' r) = content (objects s r)) /\
  List.length (currentExamQuestions s')
  = List.length (currentExamQuestions s).
Proof.
  unfold App.finishExam.
  destruct (currentExamAnswers s) eqn:E; [cbn; tauto|].
  destruct (confirm env); cbn; [|tauto].
  repeat split.
  - intros r. apply (updateQuestionStats_content s r).
  - now rewrite !length_currentExamQuestions.
Qed.

(** C6: [finishExam] with no recorded answer, or with the confirmation
    declined, returns the state as it was: statistics, history and
    page are untouched and a session in progress stays in progress.
    With at least one answer and the confirmation granted, the bank is
    the result of one pass of [updateQuestionStats] over the answers:
    the question that [find] returns for an id has got one attempt for
    each answer with that id, and no more; the history is the old
    history with exactly one new record in front (the session's answers
    and score, the clock's id and timestamps), whose answers are the
    array [currentExamAnswers] itself; the page is the report.  The
    snapshot holds the same objects as before; since they are the
    objects of the bank, it shows their new statistics.  Nothing else
    changes. *)
Theorem finishExam_guarded env s :
  ((currentExamAnswers s = [] \/ confirm env = false) ->
     finishExam env s = s /\
     questions (finishExam env s) = questions s /\
     examHistory (finishExam env s) = examHistory s /\
     (InProgress s -> InProgress (finishExam env s))) /\
  (currentExamAnswers s <> [] -> confirm env = true ->
     let s' := finishExam env s in
     questions s' = questions (App.updateQuestionStats s) /\
     (forall i q,
        nth_error (questions s) i = Some q ->
        ~ In (id q) (map id (firstn i (questions s))) ->
        let mine := answersFor (id q) (currentExamAnswers s) in
        exists q',
          nth_error (questions s') i = Some q' /\
          content q' = content q /\
          totalAttempts (statistics q')
          = totalAttempts (statistics q) + N.of_nat (List.length mine) /\
          correctAttempts (statistics q')
          = correctAttempts (statistics q) + correctCount mine /\
          consecutiveCorrect (statistics q')
          = streak (consecutiveCorrect (statistics q)) mine) /\
     examHistory s'
     = {| examId := dateNow env;
          startTime := isoStart env;
          endTime := isoEnd env;
          answers := currentExamAnswers s;
          score := currentExamScore s |} :: examHistory s /\
     map entryAnswers (historyEntries s')
     = examAnswersRef s :: map entryAnswers (historyEntries s) /\
     Finished s' /\
     examQuestionRefs s' = examQuestionRefs s /\
     currentExamQuestions s'
     = currentExamQuestions (App.updateQuestionStats s) /\
     (forall i j r,
        nth_error (questionRefs s) i = Some r ->
        nth_error (examQuestionRefs s) j = Some r ->
        nth_error (currentExamQuestions s') j
        = nth_error (questions s') i) /\
     map content (currentExamQuestions s')
     = map content (currentExamQuestions s) /\
     currentQuestionIndex s' = currentQuestionIndex s /\
     userAnswer s' = userAnswer s /\
     currentExamAnswers s' = currentExamAnswers s /\
     lastAnswerFeedback s' = lastAnswerFeedback s /\
     currentExamCorrect s' = currentExamCorrect s /\
     currentExamIncorrect s' = currentExamIncorrect s /\
     consecutiveCorrectThreshold s' = consecutiveCorrectThreshold s).
Proof.
  split.
  - intros H.
    assert (E : finishExam env s = s).
    { unfold App.finishExam. destruct H as [H|H].
      - now rewrite H.
      - rewrite H. now destruct (currentExamAnswers s). }
    rewrite E. auto.
  - intros Hne Hc s'.
    assert (E : s' = App.setPage report
                  (App.setHistory
                     ({| entryId := dateNow env;
                         entryStart := isoStart env;
                         entryEnd := isoEnd env;
                         entryAnswers := examAnswersRef s;
                         entryScore := currentExamScore s |}
                      :: historyEntries s)
                     (App.updateQuestionStats s))).
    { subst s'. unfold App.finishExam.
      destruct (currentExamAnswers s) eqn:E; [congruence|].
      now rewrite Hc. }
    clearbody s'. subst s'.
    split; [reflexivity|]. split.
    { intros i q Hq Hfirst mine.
      exists (App.setStatistics (replay mine (statistics q)) q).
      destruct (replay_counts mine (statistics q)) as (T & C & S & _).
      split; [exact (updateQuestionStats_nth s i q Hq Hfirst)|].
      repeat split; assumption. }
    split; [reflexivity|]. split; [reflexivity|].
    split; [reflexivity|]. split; [reflexivity|].
    split; [reflexivity|]. split.
    { intros i j r Hi Hj.
      rewrite nth_error_currentExamQuestions, nth_error_questions.
      cbn [App.setPage App.setHistory examQuestionRefs questionRefs
           App.updateQuestionStats App.setObjects].
      now rewrite Hi, Hj. }
    split.
    { unfold currentExamQuestions. cbn [App.setPage App.setHistory
        examQuestionRefs objects]. rewrite !map_map.
      apply map_ext. intros r. apply updateQuestionStats_content. }
    repeat split.
Qed.

(** Without an answer, the first half of [submitAnswer] only clears
    the feedback. *)
Lemma recordAnswer_no_answer s :
  App.hasAnswer s = false ->
  App.recordAnswer s = Some (App.setFeedback None s).
Proof. unfold App.recordAnswer. now intros ->. Qed.

Lemma EmptySelection_hasAnswer s :
  EmptySelection s -> App.hasAnswer s = false.
Proof.
  unfold EmptySelection, App.hasAnswer, App.currentIsMulti.
  destruct (App.currentQuestion s) as [q|].
  - destruct (eqb (type q) s_multi); now intros ->.
  - now intros ->.
Qed.

(** Submitting without an answer: the call returns without arming the
    timer; answers and counters are as before and the feedback is
    cleared. *)
Lemma submitAnswer_no_answer env s :
  App.hasAnswer s = false ->
  exists s',
    submitAnswer env s = Returned s' false /\
    currentExamAnswers s' = currentExamAnswers s /\
    currentExamCorrect s' = currentExamCorrect s /\
    currentExamIncorrect s' = currentExamIncorrect s /\
    lastAnswerFeedback s' = None /\
    examQuestionRefs s' = examQuestionRefs s.
Proof.
  intros H. unfold App.submitAnswer.
  rewrite (recordAnswer_no_answer _ H).
  set (s1 := App.setFeedback None s).
  assert (H1 : App.hasAnswer s1 = false) by exact H.
  destruct (App.isLastQuestion s1).
  - cbn [negb]. rewrite H1. eexists. split; [reflexivity|].
    pose proof (finishExam_frame env s1) as F. cbv zeta in F.
    destruct F as (F1 & F2 & F3 & F4 & F5 & F6 & F7 & F8).
    rewrite F1, F4, F5, F6, F7. repeat split.
  - cbn [negb]. eexists. split; [reflexivity|].
    pose proof (resetAnswer_frame
                  (App.setIndex (currentQuestionIndex s1 + 1) s1)) as F.
    pose proof (resetAnswer_store
                  (App.setIndex (currentQuestionIndex s1 + 1) s1)) as G.
    cbv zeta in F, G.
    destruct F as (_ & _ & _ & _ & F5 & F6 & F7 & F8 & _).
    destruct G as (_ & _ & G3 & _).
    rewrite F5, F6, F7, F8, G3. repeat split.
Qed.

(** C1: in a session in progress, submitting ([submitAnswer] of the
    revised application object) while the selection is empty (the empty
    string on a single-choice or true/false question, the empty array on
    a multi-choice one) is a skip: the call returns, no answer record is
    appended, the correct and incorrect counters keep their values, and
    the feedback of an earlier question is cleared. *)
Theorem submitAnswer_empty_selection_skips env s :
  InProgress s ->
  EmptySelection s ->
  exists s',
    submitAnswer env s = Returned s' false /\
    currentExamAnswers s' = currentExamAnswers s /\
    currentExamCorrect s' = currentExamCorrect s /\
    currentExamIncorrect s' = currentExamIncorrect s /\
    lastAnswerFeedback s' = None.
Proof.
  intros _ H.
  destruct (submitAnswer_no_answer env s (EmptySelection_hasAnswer s H))
    as (s' & E & ?). exists s'. intuition.
Qed.

End Session.

(** The older [js/app.js] differs here: without an answer its
    [submitAnswer] returns at once, so no record is appended and the
    counters stay, but the feedback of the earlier question stays too. *)
Lemma legacy_submitAnswer_no_answer s :
  App.hasAnswer s = false -> LegacyApp.submitAnswer s = Returned s false.
Proof. unfold LegacyApp.submitAnswer. now intros ->. Qed.

Lemma submitAnswer_empty_selection_skips_witness :
  exists s',
    App.submitAnswer sampleToString sampleEnv staleFeedbackSession
    = Returned s' false /\
    currentExamAnswers s' = currentExamAnswers staleFeedbackSession /\
    currentExamCorrect s' = currentExamCorrect staleFeedbackSession /\
    currentExamIncorrect s' = currentExamIncorrect staleFeedbackSession /\
    lastAnswerFeedback s' = None.
Proof.
  apply (submitAnswer_empty_selection_skips sampleToString sampleEnv
           staleFeedbackSession).
  - split; [now left | rewrite length_currentExamQuestions; cbn; lia].
  - reflexivity.
Defined.

Lemma finishExam_guarded_witness :
  (App.finishExam sampleToString (mkEnv false 0 [] []) sampleSession
   = sampleSession) /\
  (exists q',
     nth_error
       (questions (App.finishExam sampleToString sampleEnv sampleSession)) 0
     = Some q' /\
     totalAttempts (statistics q') = 1 /\
     correctAttempts (statistics q') = 0 /\
     consecutiveCorrect (statistics q') = 0) /\
  nth_error
    (currentExamQuestions
       (App.finishExam sampleToString sampleEnv sampleSession)) 0
  = nth_error
      (questions (App.finishExam sampleToString sampleEnv sampleSession)) 0 /\
  Finished (App.finishExam sampleToString sampleEnv sampleSession).
Proof.
  split.
  - apply (proj1 (finishExam_guarded sampleToString (mkEnv false 0 [] [])
                    sampleSession)).
    right. reflexivity.
  - destruct (proj2 (finishExam_guarded sampleToString sampleEnv
                       sampleSession))
      as (_ & St & _ & _ & Fin & _ & _ & Sh & _).
    + discriminate.
    + reflexivity.
    + destruct (St O sampleQuestion eq_refl) as (q' & Hq & _ & T & C & S).
      * cbn. tauto.
      * split; [|split; [exact (Sh O O O eq_refl eq_refl) | exact Fin]].
        exists q'. repeat split; assumption.
Defined.

(** ** Correctness evaluation: [checkAnswer] *)

Lemma leb_total a : forall b, leb a b = false -> leb b a = true.
Proof.
  induction a as [|x a IH]; intros [|y b]; cbn; try congruence.
  destruct (x <? y) eqn:Exy; [congruence|].
  destruct (y <? x) eqn:Eyx; [reflexivity|]. apply IH.
Qed.

Lemma leb_antisym a : forall b, leb a b = true -> leb b a = true -> a = b.
Proof.
  induction a as [|x a IH]; intros [|y b]; cbn; try congruence.
  destruct (x <? y) eqn:Exy, (y <? x) eqn:Eyx; try congruence.
  - apply N.ltb_lt in Exy, Eyx. lia.
  - apply N.ltb_ge in Exy, Eyx. intros H1 H2.
    f_equal; [lia | now apply IH].
Qed.

Lemma leb_trans a : forall b c,
  leb a b = true -> leb b c = true -> leb a c = true.
Proof.
  induction a as [|x a IH]; intros [|y b] [|z c]; cbn; try congruence.
  destruct (x <? y) eqn:Exy, (y <? z) eqn:Eyz, (x <? z) eqn:Exz;
    try reflexivity;
    rewrite ?N.ltb_lt, ?N.ltb_ge in *; try lia;
    destruct (y <? x) eqn:Eyx, (z <? y) eqn:Ezy, (z <? x) eqn:Ezx;
    rewrite ?N.ltb_lt, ?N.ltb_ge in *; try lia; try congruence.
  apply IH.
Qed.

(** Closes a goal whose hypotheses on [leb] contradict totality or
    transitivity, or force two strings to be equal. *)
Ltac order_strings :=
  repeat match goal with
  | H : leb ?a ?b = false |- _ =>
      lazymatch goal with
      | _ : leb b a = true |- _ => fail
      | _ => pose proof (leb_total a b H)
      end
  end;
  try match goal with
  | H1 : leb ?a ?b = true, H2 : leb ?b ?c = true, H3 : leb ?a ?c = false
    |- _ => rewrite (leb_trans a b c H1 H2) in H3; discriminate
  end;
  try match goal with
  | H1 : leb ?a ?b = true, H2 : leb ?b ?a = true |- _ =>
      rewrite (leb_antisym a b H1 H2) in *
  end;
  try congruence.

Lemma insertSorted_comm x y l :
  insertSorted x (insertSorted y l) = insertSorted y (insertSorted x l).
Proof.
  induction l as [|z l IH]; cbn.
  - destruct (leb x y) eqn:Exy, (leb y x) eqn:Eyx; order_strings.
  - destruct (leb y z) eqn:Eyz, (leb x z) eqn:Exz; cbn;
      rewrite ?Eyz, ?Exz;
      destruct (leb x y) eqn:Exy, (leb y x) eqn:Eyx; cbn;
      rewrite ?Eyz, ?Exz, ?IH; order_strings.
Qed.

Lemma sort_Permutation_eq l1 l2 :
  Permutation l1 l2 -> sort l1 = sort l2.
Proof.
  induction 1; cbn; try congruence.
  apply insertSorted_comm.
Qed.

Lemma insertSorted_Permutation x l : Permutation (insertSorted x l) (x :: l).
Proof.
  induction l as [|y l IH]; cbn; [reflexivity|].
  destruct (leb x y); [reflexivity|].
  rewrite IH. apply perm_swap.
Qed.

Lemma sort_Permutation l : Permutation (sort l) l.
Proof.
  induction l as [|x l IH]; cbn; [reflexivity|].
  now rewrite insertSorted_Permutation, IH.
Qed.

Lemma join_empty_concat l : join [] l = List.concat l.
Proof.
  induction l as [|x [|y r] IH]; cbn in *; [reflexivity| |].
  - now rewrite app_nil_r.
  - now rewrite IH.
Qed.

Lemma singles_splitChars u :
  Forall singleLabel u -> u = splitChars (List.concat u).
Proof.
  induction 1 as [|x u [c ->] _ IH]; cbn; [reflexivity|].
  now f_equal.
Qed.

Lemma concat_splitChars c : List.concat (splitChars c) = c.
Proof.
  induction c as [|x c IH]; cbn; [reflexivity|].
  unfold splitChars in IH. now rewrite IH.
Qed.

Lemma splitChars_singles c : Forall singleLabel (splitChars c).
Proof.
  induction c as [|x c IH]; cbn; constructor; auto. now exists x.
Qed.

Lemma join_singles_inj u v :
  Forall singleLabel u -> Forall singleLabel v ->
  join [] u = join [] v -> u = v.
Proof.
  intros Hu Hv. rewrite !join_empty_concat. intros E.
  rewrite (singles_splitChars u Hu), (singles_splitChars v Hv).
  now rewrite E.
Qed.

Lemma sort_singles u : Forall singleLabel u -> Forall singleLabel (sort u).
Proof.
  intros H. rewrite Forall_forall in *. intros x Hx. apply H.
  eapply Permutation_in; [apply sort_Permutation | exact Hx].
Qed.

Lemma checkAnswer_multi_Permutation u c :
  Forall singleLabel u ->
  Utils.checkAnswer (Labels u) c s_multi = true
  <-> Permutation u (splitChars c).
Proof.
  intros Hu. unfold Utils.checkAnswer. rewrite eqb_refl, eqb_eq. split.
  - intros E. apply join_singles_inj in E;
      auto using sort_singles, splitChars_singles.
    rewrite <- (sort_Permutation u), E. apply sort_Permutation.
  - intros P. now rewrite (sort_Permutation_eq _ _ P).
Qed.

Lemma NoDup_splitChars c : NoDup c -> NoDup (splitChars c).
Proof.
  induction 1 as [|x c Hx _ IH]; cbn; constructor; [|assumption].
  unfold splitChars. rewrite in_map_iff. intros (y & E & Hy).
  injection E as ->. contradiction.
Qed.

(** C7: the multi-choice branch of [checkAnswer] does not depend on the
    order of the submitted labels: two arrays with the same labels in
    any order get the same verdict.  For labels of one character, a
    submitted set of labels (no label twice) is judged correct exactly
    when it has the same labels as the correct-answer string (no label
    twice either); so [C,A] and [A,C] are both correct for "AC". *)
Theorem checkAnswer_multi_order_independent :
  (forall u1 u2 c,
     Permutation u1 u2 ->
     Utils.checkAnswer (Labels u1) c s_multi
     = Utils.checkAnswer (Labels u2) c s_multi) /\
  (forall u c,
     Forall singleLabel u -> NoDup u -> NoDup c ->
     (Utils.checkAnswer (Labels u) c s_multi = true
      <-> (forall l, In l u <-> In l (splitChars c)))) /\
  Utils.checkAnswer (Labels [str "C"; str "A"]) (str "AC") s_multi = true /\
  Utils.checkAnswer (Labels [str "A"; str "C"]) (str "AC") s_multi = true.
Proof.
  split; [|split; [|split; reflexivity]].
  - intros u1 u2 c P. unfold Utils.checkAnswer.
    now rewrite (sort_Permutation_eq _ _ P).
  - intros u c Hu Nu Nc.
    rewrite (checkAnswer_multi_Permutation u c Hu). split.
    + intros P l. split; apply Permutation_in; [assumption | now symmetry].
    + intros E. apply NoDup_Permutation; auto using NoDup_splitChars.
Qed.

Lemma checkAnswer_multi_order_independent_witness :
  Utils.checkAnswer (Labels [str "C"; str "A"; str "B"]) (str "AC") s_multi
  = Utils.checkAnswer (Labels [str "A"; str "C"; str "B"]) (str "AC") s_multi
  /\
  (Utils.checkAnswer (Labels [str "C"; str "A"]) (str "AC") s_multi = true
   <-> (forall l, In l [str "C"; str "A"] <-> In l (splitChars (str "AC")))).
Proof.
  split.
  - apply (proj1 checkAnswer_multi_order_independent).
    apply perm_swap.
  - apply (proj1 (proj2 checkAnswer_multi_order_independent)).
    + repeat constructor; eexists; reflexivity.
    + repeat constructor; cbn; intuition discriminate.
    + repeat constructor; cbn; intuition discriminate.
Defined.

Lemma sort_nil_inv l : sort l = [] -> l = [].
Proof.
  intros E. apply Permutation_nil. rewrite <- E.
  apply sort_Permutation.
Qed.

(** C9: on a multi-choice question a submission that is not an array
    counts as the empty label string: it is judged correct exactly when
    the correct-answer string is empty, hence never against a non-empty
    one. *)
Theorem checkAnswer_multi_not_array (t c : jsstring) :
  (Utils.checkAnswer (Text t) c s_multi = true <-> c = []) /\
  (c <> [] -> Utils.checkAnswer (Text t) c s_multi = false).
Proof.
  assert (H : Utils.checkAnswer (Text t) c s_multi = true <-> c = []).
  { unfold Utils.checkAnswer. rewrite eqb_refl, eqb_eq. split.
    - intros E. symmetry in E. rewrite join_empty_concat in E.
      pose proof (sort_singles _ (splitChars_singles c)) as S.
      destruct (sort (splitChars c)) as [|x r] eqn:Es.
      + apply sort_nil_inv in Es. now destruct c.
      + inversion S as [|? ? [ch ->] _]. discriminate.
    - now intros ->. }
  split; [exact H|].
  intros Hc. destruct (Utils.checkAnswer (Text t) c s_multi); [|reflexivity].
  exfalso. now apply Hc, H.
Qed.

Lemma checkAnswer_multi_not_array_witness :
  Utils.checkAnswer (Text (str "AC")) (str "AC") s_multi = false.
Proof.
  apply (proj2 (checkAnswer_multi_not_array (str "AC") (str "AC"))).
  discriminate.
Defined.

(** ** Tokenizer: [parseCSVRows] *)

Lemma splitLines_cons s : exists l ls, splitLines s = l :: ls.
Proof.
  induction s as [|c r (l & ls & E)]; cbn; [now eauto|].
  destruct (c =? nl); [now eauto|]. rewrite E. eauto.
Qed.

(** A line feed ends the line: inside quotes it joins the field, outside
    it closes the row. *)
Lemma scanText_newline r rows row field inQ :
  scanText (nl :: r) rows row field inQ
  = if inQ then scanText r rows row (field ++ [nl]) true
    else scanText r (Utils.pushRow rows (row ++ [trim field])) [] [] false.
Proof. unfold scanText. cbn. now destruct inQ. Qed.

Lemma scanText_end rows row field :
  scanText [] rows row field false
  = (Utils.pushRow rows (row ++ [trim field]), [], [], false).
Proof. reflexivity. Qed.

(** The step on a code unit that is neither a quote nor a line feed, and
    not a separating comma. *)
Lemma scanText_plain c r rows row field inQ :
  c <> nl -> c <> quote -> (c <> comma \/ inQ = true) ->
  scanText (c :: r) rows row field inQ
  = scanText r rows row (field ++ [c]) inQ.
Proof.
  intros Hn Hq Hc. unfold scanText. cbn [splitLines].
  apply N.eqb_neq in Hn, Hq. rewrite Hn.
  destruct (splitLines_cons r) as (l & ls & E). rewrite E.
  cbn [Utils.scanLines Utils.scanLine]. rewrite Hq.
  replace ((c =? comma) && negb inQ) with false; [reflexivity|].
  destruct Hc as [Hc | ->].
  - apply N.eqb_neq in Hc. now rewrite Hc.
  - now rewrite andb_false_r.
Qed.

Lemma scanText_comma r rows row field :
  scanText (comma :: r) rows row field false
  = scanText r rows (row ++ [trim field]) [] false.
Proof.
  unfold scanText. cbn [splitLines].
  replace (comma =? nl) with false by reflexivity.
  destruct (splitLines_cons r) as (l & ls & E). rewrite E.
  reflexivity.
Qed.

(** Two quotes in a row inside a quoted field are one quote of the
    field, whatever follows. *)
Lemma scanText_doubled_quote r rows row field :
  scanText (quote :: quote :: r) rows row field true
  = scanText r rows row (field ++ [quote]) true.
Proof.
  unfold scanText. cbn [splitLines].
  replace (quote =? nl) with false by reflexivity.
  destruct (splitLines_cons r) as (l & ls & E). rewrite E.
  reflexivity.
Qed.

Lemma scanText_open_quote r rows row field :
  scanText (quote :: r) rows row field false
  = scanText r rows row field true.
Proof.
  unfold scanText. cbn [splitLines].
  replace (quote =? nl) with false by reflexivity.
  destruct (splitLines_cons r) as (l & ls & E). rewrite E.
  cbn [Utils.scanLines Utils.scanLine].
  replace (quote =? quote) with true by reflexivity.
  destruct l; reflexivity.
Qed.

(** A quote inside a quoted field that is not followed by a quote
    closes the field. *)
Lemma scanText_close_quote r rows row field :
  hd_error r <> Some quote ->
  scanText (quote :: r) rows row field true
  = scanText r rows row field false.
Proof.
  intros H. unfold scanText. cbn [splitLines].
  replace (quote =? nl) with false by reflexivity.
  destruct r as [|c r]; [reflexivity|].
  cbn [splitLines]. destruct (c =? nl) eqn:En; [reflexivity|].
  destruct (splitLines_cons r) as (l & ls & E). rewrite E.
  cbn [Utils.scanLines Utils.scanLine].
  replace (quote =? quote) with true by reflexivity.
  destruct (c =? quote) eqn:Eq; [|reflexivity].
  apply N.eqb_eq in Eq. subst c. now elim H.
Qed.

(** Inside a quoted field the escaped form of [w] adds [w] to the
    field: commas and line feeds as they are, doubled quotes as one. *)
Lemma scanText_escaped w : forall r rows row field,
  scanText (escapeQuotes w ++ r) rows row field true
  = scanText r rows row (field ++ w) true.
Proof.
  induction w as [|c w IH]; intros r rows row field;
    cbn [escapeQuotes app].
  - now rewrite app_nil_r.
  - destruct (c =? quote) eqn:Eq.
    + apply N.eqb_eq in Eq. subst c.
      cbn [app]. rewrite scanText_doubled_quote, IH, <- app_assoc.
      reflexivity.
    + apply N.eqb_neq in Eq. cbn [app].
      destruct (N.eq_dec c nl) as [->|Hn].
      * rewrite scanText_newline, IH, <- app_assoc. reflexivity.
      * rewrite scanText_plain, IH, <- app_assoc; auto.
Qed.

Lemma scanText_quoted_then_comma w r rows row :
  scanText (quoted w ++ comma :: r) rows row [] false
  = scanText r rows (row ++ [trim w]) [] false.
Proof.
  unfold quoted. cbn [app]. rewrite scanText_open_quote, <- app_assoc.
  rewrite scanText_escaped. cbn [app].
  rewrite scanText_close_quote by (cbn; discriminate).
  apply scanText_comma.
Qed.

Lemma scanText_quoted_then_newline w r rows row :
  scanText (quoted w ++ nl :: r) rows row [] false
  = scanText r (Utils.pushRow rows (row ++ [trim w])) [] [] false.
Proof.
  unfold quoted. cbn [app]. rewrite scanText_open_quote, <- app_assoc.
  rewrite scanText_escaped. cbn [app].
  rewrite scanText_close_quote by (cbn; discriminate).
  apply scanText_newline.
Qed.

Lemma scanText_quoted_then_end w rows row :
  scanText (quoted w) rows row [] false
  = (Utils.pushRow rows (row ++ [trim w]), [], [], false).
Proof.
  unfold quoted. rewrite scanText_open_quote.
  rewrite scanText_escaped. cbn [app].
  rewrite scanText_close_quote by (cbn; discriminate).
  apply scanText_end.
Qed.

Lemma join_cons2 sep x y r :
  join sep (x :: y :: r) = x ++ sep ++ join sep (y :: r).
Proof. reflexivity. Qed.

Lemma scanText_fields ws : forall w r rows row,
  scanText (encodeRow (w :: ws) ++ nl :: r) rows row [] false
  = scanText r (Utils.pushRow rows (row ++ map trim (w :: ws))) [] [] false
  /\
  scanText (encodeRow (w :: ws)) rows row [] false
  = (Utils.pushRow rows (row ++ map trim (w :: ws)), [], [], false).
Proof.
  unfold encodeRow.
  induction ws as [|w' ws IH]; intros w r rows row.
  - cbn [map join]. split.
    + apply scanText_quoted_then_newline.
    + apply scanText_quoted_then_end.
  - cbn [map]. rewrite join_cons2. cbn [map] in IH.
    rewrite <- !app_assoc. cbn [app].
    rewrite !scanText_quoted_then_comma.
    destruct (IH w' r rows (row ++ [trim w])) as [IH1 IH2].
    rewrite IH1, IH2, <- !app_assoc. split; reflexivity.
Qed.

Lemma scanText_row ws r rows :
  scanText (encodeRow ws ++ nl :: r) rows [] [] false
  = scanText r (Utils.pushRow rows (map trim ws)) [] [] false
  /\
  scanText (encodeRow ws) rows [] [] false
  = (Utils.pushRow rows (map trim ws), [], [], false).
Proof.
  destruct ws as [|w ws].
  - split; reflexivity.
  - apply (scanText_fields ws w r rows []).
Qed.

Lemma scanText_rows rs : forall rows,
  scanText (encodeRows rs) rows [] [] false
  = (fold_left Utils.pushRow (map (map trim) rs) rows, [], [], false).
Proof.
  unfold encodeRows.
  induction rs as [|r [|r' rs] IH]; intros rows.
  - reflexivity.
  - cbn [map join fold_left]. apply (proj2 (scanText_row r [] rows)).
  - cbn [map]. rewrite join_cons2. cbn [map] in IH.
    cbn [app fold_left].
    rewrite (proj1 (scanText_row r _ rows)). apply IH.
Qed.

(** Round trip of the tokenizer: rows of arbitrary field values, with
    commas, quotes and line feeds in them, written as quoted fields are
    read back as the same rows of trimmed values (rows without any
    non-empty field are dropped). *)
Lemma parseCSVRows_encodeRows rs :
  Utils.parseCSVRows (encodeRows rs)
  = fold_left Utils.pushRow (map (map trim) rs) [].
Proof.
  unfold Utils.parseCSVRows. fold (scanText (encodeRows rs) [] [] [] false).
  now rewrite scanText_rows.
Qed.

(** ** Newlines in prompt and option text *)


Lemma collapseFrom_plain s : forall b,
  ~ In nl s -> collapseFrom b s = s.
Proof.
  induction s as [|c s IH]; intros b H; cbn; [reflexivity|].
  destruct (c =? nl) eqn:E.
  - apply N.eqb_eq in E. subst c. elim H. now left.
  - f_equal. apply IH. intros Hs. apply H. now right.
Qed.


Lemma addOption_spec label opt opts :
  Utils.addOption label opt opts
  = if nonEmpty (trim opt)
    then opts ++ [(label, collapseNewlines (trim opt))] else opts.
Proof.
  unfold Utils.addOption. destruct opt; [reflexivity|].
  reflexivity.
Qed.

Lemma parseRow_options i ty q a b c d e ans rest :
  Utils.buildOptions ty a b c d e
  = if eqb (trim ty) s_boolean
    then [(str "A", s_right); (str "B", s_wrong)]
    else keptOptions (i :: ty :: q :: a :: b :: c :: d :: e :: ans :: rest).
Proof.
  unfold Utils.buildOptions, keptOptions, optionColumns.
  destruct (eqb (trim ty) s_boolean); [reflexivity|].
  rewrite !addOption_spec. cbn [skipn firstn combine filter snd fst].
  destruct (nonEmpty (trim a)), (nonEmpty (trim b)), (nonEmpty (trim c)),
    (nonEmpty (trim d)), (nonEmpty (trim e)); reflexivity.
Qed.




(** The older line-based copy differs: [parseCSVLine] drops both quotes
    of a doubled quote, and its [parseCSVText] cuts the text at every
    line feed first, so a quoted field with a line feed ends the row
    (here both halves have fewer than nine fields and no record is
    made). *)
Lemma legacy_parseCSVLine_quotes :
  LegacyUtils.parseCSVLine (quoted (str "x" ++ [quote] ++ str "y"))
  = [str "xy"] /\
  LegacyUtils.parseCSVText
    (headerLine ++ [nl] ++ str "1," ++ s_single ++ str ","
     ++ quotedSample ++ str ",x,y,,,,A")
  = [].
Proof. split; reflexivity. Qed.

(** ** Records: [parseCSVText] *)

Lemma nonEmpty_true s : nonEmpty s = true <-> s <> [].
Proof. destruct s; cbn; split; congruence. Qed.

Lemma keptOptions_nonempty row :
  keptOptions row <> [] <->
  exists lv, In lv (optionColumns row) /\ trim (snd lv) <> [].
Proof.
  unfold keptOptions. split.
  - intros H.
    destruct (filter _ (optionColumns row)) as [|lv r] eqn:E;
      [now elim H|].
    assert (Hin : In lv (filter (fun lv => nonEmpty (trim (snd lv)))
                                (optionColumns row))).
    { rewrite E. now left. }
    apply filter_In in Hin. exists lv. now rewrite <- nonEmpty_true.
  - intros (lv & Hin & Hne) E. apply map_eq_nil in E.
    assert (Hf : In lv (filter (fun lv => nonEmpty (trim (snd lv)))
                               (optionColumns row))).
    { apply filter_In. now rewrite nonEmpty_true. }
    now rewrite E in Hf.
Qed.

Lemma parseRow_some row :
  (9 <= List.length row)%nat ->
  exists q, Utils.parseRow row = Some q /\ RecordOfRow row q.
Proof.
  intros H.
  destruct row as [|i [|ty [|p [|a [|b [|c [|d [|e [|ans rest]]]]]]]]];
    cbn in H; try lia.
  eexists. split; [reflexivity|].
  unfold RecordOfRow. cbn [id type question answer statistics options nth].
  rewrite (parseRow_options i ty p a b c d e ans rest).
  repeat split; try reflexivity.
  - destruct (eqb (trim ty) s_boolean) eqn:E.
    + left. now apply eqb_eq.
    + intros H1. right. now apply keptOptions_nonempty.
  - destruct (eqb (trim ty) s_boolean) eqn:E; [discriminate|].
    intros [H1|H1].
    + apply eqb_neq in E. contradiction.
    + now apply keptOptions_nonempty.
Qed.

Lemma parseRow_none row :
  (List.length row < 9)%nat -> Utils.parseRow row = None.
Proof.
  intros H.
  destruct row as [|i [|ty [|p [|a [|b [|c [|d [|e [|ans rest]]]]]]]]];
    cbn in H; try lia; reflexivity.
Qed.

Lemma parseRowsFrom_acc rows : forall acc,
  Utils.parseRowsFrom rows acc = acc ++ Utils.parseRowsFrom rows [].
Proof.
  induction rows as [|r rows IH]; intros acc; cbn.
  - now rewrite app_nil_r.
  - destruct (Utils.parseRow r) as [q|]; [|apply IH].
    rewrite (IH (acc ++ [q])), (IH [q]), <- app_assoc. reflexivity.
Qed.

(** The number of records is the number of data rows with at least nine
    fields. *)
Lemma parseRowsFrom_length rows :
  List.length (Utils.parseRowsFrom rows [])
  = List.length (filter (fun r => (9 <=? List.length r)%nat) rows).
Proof.
  induction rows as [|r rows IH]; [reflexivity|].
  cbn [Utils.parseRowsFrom filter].
  destruct (Nat.leb_spec 9 (List.length r)) as [H|H].
  - destruct (parseRow_some r H) as (q & -> & _).
    rewrite parseRowsFrom_acc. cbn [app List.length]. now rewrite IH.
  - now rewrite (parseRow_none r H).
Qed.

Lemma parseRowsFrom_records rows :
  (forall r, In r rows -> (9 <= List.length r)%nat) ->
  Forall2 RecordOfRow rows (Utils.parseRowsFrom rows []).
Proof.
  induction rows as [|r rows IH]; intros H; cbn; [constructor|].
  destruct (parseRow_some r (H r (or_introl eq_refl))) as (q & -> & R).
  rewrite parseRowsFrom_acc. cbn. constructor; [exact R|].
  apply IH. intros r' Hr'. apply H. now right.
Qed.

(** C3, as stated, fails: both data rows of [uncheckedText] resolve to
    nine fields and two records are made, but the first has no option at
    all and the answer of the second names label C, which is not among
    its options A and B. *)
Lemma parseCSVText_unchecked_records :
  (forall r, In r (tl (Utils.parseCSVRows uncheckedText)) ->
             (9 <= List.length r)%nat) /\
  List.length (tl (Utils.parseCSVRows uncheckedText)) = 2%nat /\
  exists q1 q2,
    Utils.parseCSVText uncheckedText = [q1; q2] /\
    options q1 = [] /\
    answer q2 = str "C" /\ labels (options q2) = [str "A"; str "B"] /\
    ~ WellFormedRecord q1 /\ ~ WellFormedRecord q2.
Proof.
  split; [|split; [reflexivity|]].
  - intros r [<-|[<-|[]]]; cbn; lia.
  - do 2 eexists. split; [reflexivity|].
    repeat split.
    + intros [H _]. now apply H.
    + intros [_ H]. specialize (H (str "C") (or_introl eq_refl)).
      cbn in H. intuition discriminate.
Qed.

(** C3, amended: [parseCSVText] makes one record for every data row
    (every row of [parseCSVRows] after the first) that has at least nine
    fields, and none for the others.  So when every data row has at
    least nine fields, there is exactly one record per data row, in
    order, made from the trimmed fields.  A record of the true/false
    type has the two fixed options; any other record has as options
    exactly the option columns that are not empty after trimming, so its
    option map is non-empty only if there is such a column.  The answer
    is the trimmed ninth field. *)
Theorem parseCSVText_records (text : jsstring) :
  List.length (Utils.parseCSVText text)
  = List.length (filter (fun r => (9 <=? List.length r)%nat)
                        (tl (Utils.parseCSVRows text))) /\
  ((forall r, In r (tl (Utils.parseCSVRows text)) ->
              (9 <= List.length r)%nat) ->
   List.length (Utils.parseCSVText text)
   = List.length (tl (Utils.parseCSVRows text)) /\
   Forall2 RecordOfRow (tl (Utils.parseCSVRows text))
           (Utils.parseCSVText text)).
Proof.
  unfold Utils.parseCSVText. split; [apply parseRowsFrom_length|].
  intros H.
  pose proof (parseRowsFrom_records _ H) as F.
  split; [|exact F].
  symmetry. eapply Forall2_length; eauto.
Qed.

Lemma parseCSVText_records_witness :
  List.length (Utils.parseCSVText uncheckedText)
  = List.length (tl (Utils.parseCSVRows uncheckedText)) /\
  Forall2 RecordOfRow (tl (Utils.parseCSVRows uncheckedText))
          (Utils.parseCSVText uncheckedText).
Proof.
  apply (proj2 (parseCSVText_records uncheckedText)).
  intros r [<-|[<-|[]]]; cbn; lia.
Defined.

(** ** Binary64 arithmetic of [calculateAccuracy] *)

Local Open Scope Z_scope.

Lemma digits2_pos_bounds p :
  2 ^ (Zpos (digits2_pos p) - 1) <= Zpos p < 2 ^ Zpos (digits2_pos p).
Proof.
  induction p as [p IH|p IH|]; cbn [digits2_pos].
  - rewrite Pos2Z.inj_succ.
    replace (Z.succ (Zpos (digits2_pos p)) - 1) with (Z.succ (Zpos (digits2_pos p) - 1)) by lia.
    rewrite !Z.pow_succ_r by lia. lia.
  - rewrite Pos2Z.inj_succ.
    replace (Z.succ (Zpos (digits2_pos p)) - 1) with (Z.succ (Zpos (digits2_pos p) - 1)) by lia.
    rewrite !Z.pow_succ_r by lia. lia.
  - cbn. lia.
Qed.

Lemma shr_1_m mrs : 0 <= shr_m mrs -> shr_m (shr_1 mrs) = shr_m mrs / 2.
Proof.
  destruct mrs as [m r s]. cbn [shr_m]. intros H.
  destruct m as [|[p|p|]|p]; cbn [shr_1 shr_m];
    first [ reflexivity
          | apply Z.div_unique with 1; lia
          | apply Z.div_unique with 0; lia
          | lia ].
Qed.

Lemma shr_1_nonneg mrs : 0 <= shr_m mrs -> 0 <= shr_m (shr_1 mrs).
Proof. intros H. rewrite shr_1_m by assumption. apply Z.div_pos; lia. Qed.

Lemma pow2_xI p : 2 ^ Zpos p~1 = 2 * (2 ^ Zpos p * 2 ^ Zpos p).
Proof.
  rewrite (Pos2Z.inj_xI p).
  replace (2 * Zpos p + 1) with (Zpos p + Zpos p + 1) by lia.
  rewrite Z.pow_add_r by lia. rewrite Z.pow_add_r by lia.
  change (2 ^ 1) with 2. lia.
Qed.

Lemma pow2_xO p : 2 ^ Zpos p~0 = 2 ^ Zpos p * 2 ^ Zpos p.
Proof.
  rewrite (Pos2Z.inj_xO p).
  replace (2 * Zpos p) with (Zpos p + Zpos p) by lia.
  now rewrite Z.pow_add_r by lia.
Qed.

Lemma iter_shr_m p : forall mrs,
  0 <= shr_m mrs ->
  shr_m (iter_pos shr_1 p mrs) = shr_m mrs / 2 ^ Zpos p.
Proof.
  induction p as [p IH|p IH|]; intros mrs H; cbn [iter_pos].
  - assert (H1 := shr_1_nonneg _ H).
    assert (H2 : 0 <= shr_m (iter_pos shr_1 p (shr_1 mrs))).
    { rewrite IH by assumption. apply Z.div_pos; [assumption|]. apply Z.pow_pos_nonneg; lia. }
    rewrite IH, IH, shr_1_m by assumption.
    rewrite !Z.div_div by (try apply Z.pow_pos_nonneg; lia).
    now rewrite pow2_xI.
  - assert (H2 : 0 <= shr_m (iter_pos shr_1 p mrs)).
    { rewrite IH by assumption. apply Z.div_pos; [assumption|]. apply Z.pow_pos_nonneg; lia. }
    rewrite IH, IH by assumption.
    rewrite !Z.div_div by (try apply Z.pow_pos_nonneg; lia).
    now rewrite pow2_xO.
  - rewrite shr_1_m by assumption. reflexivity.
Qed.

Lemma shr_record_of_loc_m m l : shr_m (shr_record_of_loc m l) = m.
Proof. destruct l as [|[]]; reflexivity. Qed.

Lemma round_nearest_even_range m l :
  m <= round_nearest_even m l <= m + 1.
Proof.
  destruct l as [|[]]; cbn; try lia. destruct (Z.even m); lia.
Qed.

(** [shr_fexp] on a positive mantissa of at least 53 digits, in the
    normal range: the shift brings it to 53 digits. *)
Lemma shr_fexp_spec m e l :
  0 < m -> 53 <= Zdigits2 m -> -1074 <= e ->
  let k := Zdigits2 m - 53 in
  exists mrs, shr_fexp 53 1024 m e l = (mrs, e + k) /\ shr_m mrs = m / 2 ^ k.
Proof.
  intros Hm Hd He k. unfold shr_fexp, fexp, emin.
  replace (Z.max (Zdigits2 m + e - 53) (3 - 1024 - 53) - e) with k by (unfold k; lia).
  unfold shr. destruct k as [|p|p] eqn:Ek.
  - eexists. split; [rewrite Z.add_0_r; reflexivity|].
    rewrite shr_record_of_loc_m. cbn. now rewrite Z.div_1_r.
  - eexists. split; [reflexivity|].
    rewrite iter_shr_m; rewrite shr_record_of_loc_m; [reflexivity|lia].
  - lia.
Qed.

Lemma Zdigits2_bounds m : 0 < m -> 2 ^ (Zdigits2 m - 1) <= m < 2 ^ Zdigits2 m.
Proof. destruct m; try lia. intros _. apply digits2_pos_bounds. Qed.

Lemma Zdigits2_unique m d : 0 < m -> 2 ^ (d - 1) <= m < 2 ^ d -> Zdigits2 m = d.
Proof.
  intros Hm [H1 H2]. pose proof (Zdigits2_bounds m Hm) as [B1 B2].
  assert (0 < Zdigits2 m) by (destruct m; cbn; lia).
  destruct (Z.lt_trichotomy (Zdigits2 m) d) as [L|[E|G]]; [|assumption|].
  - exfalso. assert (2 ^ Zdigits2 m <= 2 ^ (d - 1)) by (apply Z.pow_le_mono_r; lia). lia.
  - exfalso. assert (0 <= d).
    { destruct (Z_lt_le_dec d 0); [|assumption]. rewrite (Z.pow_neg_r 2 d) in H2 by assumption. lia. }
    assert (2 ^ d <= 2 ^ (Zdigits2 m - 1)) by (apply Z.pow_le_mono_r; lia). lia.
Qed.

Lemma div_pow_digits m k :
  0 < m -> 0 <= k -> k = Zdigits2 m - 53 ->
  2 ^ 52 <= m / 2 ^ k < 2 ^ 53.
Proof.
  intros Hm Hk E. pose proof (Zdigits2_bounds m Hm) as [B1 B2].
  assert (P : 0 < 2 ^ k) by (apply Z.pow_pos_nonneg; lia).
  replace (Zdigits2 m - 1) with (52 + k) in B1 by lia.
  replace (Zdigits2 m) with (53 + k) in B2 by lia.
  rewrite Z.pow_add_r in B1, B2 by lia.
  split.
  - apply Z.div_le_lower_bound; lia.
  - apply Z.div_lt_upper_bound; lia.
Qed.

Lemma binary_round_aux_spec mx ex lx :
  0 < mx -> 53 <= Zdigits2 mx -> -1074 <= ex ->
  Zdigits2 mx + ex <= 1023 ->
  exists m k,
    binary_round_aux 53 1024 false mx ex lx = S754_finite false m (ex + k) /\
    Zdigits2 mx - 53 <= k <= Zdigits2 mx - 52 /\
    2 ^ 52 <= Zpos m < 2 ^ 53 /\
    (Zpos m - 1) * 2 ^ k <= mx /\ mx + 1 <= (Zpos m + 1) * 2 ^ k.
Proof.
  intros Hm Hd He Hmax.
  set (k := Zdigits2 mx - 53).
  assert (Hk : 0 <= k) by (unfold k; lia).
  assert (P : 0 < 2 ^ k) by (apply Z.pow_pos_nonneg; lia).
  destruct (shr_fexp_spec mx ex lx Hm Hd He) as (mrs & E1 & M1).
  fold k in E1, M1.
  pose proof (div_pow_digits mx k Hm Hk eq_refl) as R1.
  unfold binary_round_aux. rewrite E1.
  set (m1 := shr_m mrs) in *.
  pose proof (round_nearest_even_range m1 (loc_of_shr_record mrs)) as R2.
  set (m2 := round_nearest_even m1 (loc_of_shr_record mrs)) in *.
  pose proof (Z.div_mod mx (2 ^ k) ltac:(lia)) as DM.
  pose proof (Z.mod_pos_bound mx (2 ^ k) P) as MB.
  rewrite <- M1 in DM, R1.
  destruct (Z_lt_le_dec m2 (2 ^ 53)) as [Hlt|Hge].
  - (* no carry *)
    assert (D2 : Zdigits2 m2 = 53) by (apply Zdigits2_unique; lia).
    destruct (shr_fexp_spec m2 (ex + k) loc_Exact) as (mrs2 & E2 & M2); try lia.
    rewrite D2 in E2, M2. cbn in M2. rewrite Z.div_1_r in M2.
    replace (53 - 53) with 0 in E2 by lia. rewrite Z.add_0_r in E2.
    rewrite E2, M2.
    destruct m2 as [|p|p] eqn:Em2; try lia.
    replace (ex + k <=? 1024 - 53) with true by (symmetry; apply Z.leb_le; unfold k; lia).
    exists p, k. split; [reflexivity|]. unfold k at 1 2. split; [lia|]. split; [lia|]. nia.
  - (* carry to 2^53 *)
    assert (Em2 : m2 = 2 ^ 53) by lia.
    assert (D2 : Zdigits2 m2 = 54) by (apply Zdigits2_unique; lia).
    destruct (shr_fexp_spec m2 (ex + k) loc_Exact) as (mrs2 & E2 & M2); try lia.
    rewrite D2 in E2, M2. replace (54 - 53) with 1 in * by lia.
    rewrite E2, M2, Em2.
    replace (2 ^ 53 / 2 ^ 1) with (Zpos (2 ^ 52)) by reflexivity.
    replace (ex + k + 1 <=? 1024 - 53) with true by (symmetry; apply Z.leb_le; unfold k; lia).
    exists (2 ^ 52)%positive, (k + 1). split; [f_equal; lia|].
    unfold k at 1 2. split; [lia|]. split; [cbn; lia|].
    rewrite Z.pow_add_r by lia. change (2 ^ 1) with 2.
    change (Zpos (2 ^ 52)) with (2 ^ 52). nia.
Qed.

Lemma iter_xO p k : Zpos (Pos.iter xO p k) = Zpos p * 2 ^ Zpos k.
Proof.
  induction k as [|k IH] using Pos.peano_ind.
  - cbn. lia.
  - rewrite Pos.iter_succ, Pos2Z.inj_succ, Z.pow_succ_r by lia.
    rewrite (Pos2Z.inj_xO (Pos.iter xO p k)), IH. lia.
Qed.

Lemma Zdigits2_pos m : 0 < m -> 0 < Zdigits2 m.
Proof. destruct m; cbn; lia. Qed.

Lemma Zdigits2_shift m k :
  0 < m -> 0 <= k -> Zdigits2 (m * 2 ^ k) = Zdigits2 m + k.
Proof.
  intros Hm Hk. pose proof (Zdigits2_bounds m Hm) as [B1 B2].
  pose proof (Zdigits2_pos m Hm).
  assert (P : 0 < 2 ^ k) by (apply Z.pow_pos_nonneg; lia).
  apply Zdigits2_unique; [nia|].
  replace (Zdigits2 m + k - 1) with (Zdigits2 m - 1 + k) by lia.
  rewrite !Z.pow_add_r by lia. nia.
Qed.

Lemma Zdigits2_mono a b : 0 < a -> a <= b -> Zdigits2 a <= Zdigits2 b.
Proof.
  intros Ha Hab.
  pose proof (Zdigits2_bounds a Ha) as [A1 A2].
  pose proof (Zdigits2_bounds b ltac:(lia)) as [B1 B2].
  pose proof (Zdigits2_pos a Ha).
  destruct (Z_lt_le_dec (Zdigits2 b) (Zdigits2 a)); [|assumption].
  exfalso.
  assert (2 ^ Zdigits2 b <= 2 ^ (Zdigits2 a - 1)) by (apply Z.pow_le_mono_r; lia).
  lia.
Qed.

(** A mantissa of 53 digits is not rounded. *)
Lemma binary_round_aux_exact p ex :
  Zdigits2 (Zpos p) = 53 -> -1074 <= ex -> ex <= 971 ->
  binary_round_aux 53 1024 false (Zpos p) ex loc_Exact = S754_finite false p ex.
Proof.
  intros Hd He Hmax.
  unfold binary_round_aux.
  destruct (shr_fexp_spec (Zpos p) ex loc_Exact) as (mrs & E1 & M1); try lia.
  rewrite Hd in E1, M1. replace (53 - 53) with 0 in * by lia.
  rewrite Z.add_0_r in E1. cbn in M1. rewrite Z.div_1_r in M1.
  rewrite E1.
  assert (L : loc_of_shr_record mrs = loc_Exact).
  { unfold shr_fexp in E1. rewrite Hd in E1. unfold fexp, emin in E1.
    replace (Z.max (53 + ex - 53) (3 - 1024 - 53) - ex) with 0 in E1 by lia.
    cbn in E1. injection E1 as <-. reflexivity. }
  rewrite L, M1. cbn [round_nearest_even].
  rewrite E1, M1.
  replace (ex <=? 1024 - 53) with true by (symmetry; apply Z.leb_le; lia).
  reflexivity.
Qed.

Lemma ofZ_pos c :
  0 < c < 2 ^ 53 ->
  exists m, ofZ c = S754_finite false m (Zdigits2 c - 53) /\
            Zpos m = c * 2 ^ (53 - Zdigits2 c) /\
            2 ^ 52 <= Zpos m < 2 ^ 53.
Proof.
  intros [Hc Hlt]. destruct c as [|p|p]; try lia.
  pose proof (Zdigits2_bounds (Zpos p) Hc) as [B1 B2].
  pose proof (Zdigits2_pos (Zpos p) Hc) as Dp.
  assert (D53 : Zdigits2 (Zpos p) <= 53).
  { destruct (Z_lt_le_dec 53 (Zdigits2 (Zpos p))); [|assumption]. exfalso.
    assert (2 ^ 53 <= 2 ^ (Zdigits2 (Zpos p) - 1)) by (apply Z.pow_le_mono_r; lia). lia. }
  unfold ofZ, binary_normalize, binary_round, shl_align.
  change (Zpos (digits2_pos p)) with (Zdigits2 (Zpos p)).
  unfold fexp, emin. rewrite Z.add_0_r.
  replace (Z.max (Zdigits2 (Zpos p) - 53) (3 - 1024 - 53)) with (Zdigits2 (Zpos p) - 53) by lia.
  rewrite Z.sub_0_r.
  destruct (Zdigits2 (Zpos p) - 53) as [|k|k] eqn:Ek; try lia.
  - exists p. rewrite binary_round_aux_exact; try lia.
    replace (53 - Zdigits2 (Zpos p)) with 0 by lia.
    split; [reflexivity|]. split; [cbn; lia|].
    replace (Zdigits2 (Zpos p)) with 53 in B1, B2 by lia. cbn in B1. lia.
  - exists (Pos.iter xO p k).
    assert (V : Zpos (Pos.iter xO p k) = Zpos p * 2 ^ (53 - Zdigits2 (Zpos p))).
    { rewrite iter_xO. f_equal. f_equal. lia. }
    assert (DD : Zdigits2 (Zpos (Pos.iter xO p k)) = 53).
    { rewrite V, Zdigits2_shift; lia. }
    rewrite binary_round_aux_exact; try lia.
    split; [reflexivity|]. split; [exact V|].
    pose proof (Zdigits2_bounds (Zpos (Pos.iter xO p k)) ltac:(lia)) as [C1 C2].
    rewrite DD in C1, C2. cbn in C1. lia.
Qed.

Lemma Zdigits2_range m lo hi :
  0 < m -> 0 <= lo -> 2 ^ lo <= m < 2 ^ hi -> lo + 1 <= Zdigits2 m <= hi.
Proof.
  intros Hm Hlo [H1 H2].
  pose proof (Zdigits2_bounds m Hm) as [B1 B2].
  pose proof (Zdigits2_pos m Hm).
  split.
  - destruct (Z_lt_le_dec (Zdigits2 m) (lo + 1)); [|lia]. exfalso.
    assert (2 ^ Zdigits2 m <= 2 ^ lo) by (apply Z.pow_le_mono_r; lia). lia.
  - destruct (Z_lt_le_dec hi (Zdigits2 m)); [|lia]. exfalso.
    assert (0 <= hi).
    { destruct (Z_lt_le_dec hi 0); [|assumption]. rewrite (Z.pow_neg_r 2 hi) in H2 by assumption. lia. }
    assert (2 ^ hi <= 2 ^ (Zdigits2 m - 1)) by (apply Z.pow_le_mono_r; lia). lia.
Qed.

Lemma SFdiv_spec mx ex my ey :
  2 ^ 52 <= Zpos mx < 2 ^ 53 ->
  2 ^ 52 <= Zpos my < 2 ^ 53 ->
  -1000 <= ex - ey <= 900 ->
  exists m k,
    SFdiv 53 1024 (S754_finite false mx ex) (S754_finite false my ey)
    = S754_finite false m (ex - ey - 53 + k) /\
    0 <= k <= 2 /\
    2 ^ 52 <= Zpos m < 2 ^ 53 /\
    (Zpos m - 1) * 2 ^ k * Zpos my <= Zpos mx * 2 ^ 53 /\
    Zpos mx * 2 ^ 53 < (Zpos m + 1) * 2 ^ k * Zpos my.
Proof.
  intros Hx Hy He.
  assert (Dx : Zdigits2 (Zpos mx) = 53) by (apply Zdigits2_unique; [lia | exact Hx]).
  assert (Dy : Zdigits2 (Zpos my) = 53) by (apply Zdigits2_unique; [lia | exact Hy]).
  unfold SFdiv, SFdiv_core_binary. rewrite Dx, Dy.
  unfold fexp, emin.
  replace (Z.min (Z.max (53 + ex - (53 + ey) - 53) (3 - 1024 - 53)) (ex - ey))
    with (ex - ey - 53) by lia.
  replace (ex - ey - (ex - ey - 53)) with 53 by lia.
  rewrite Z.shiftl_mul_pow2 by lia.
  set (a := Zpos mx * 2 ^ 53).
  assert (DE : Z.div_eucl a (Zpos my) = (a / Zpos my, a mod Zpos my)).
  { unfold Z.div, Z.modulo. now destruct (Z.div_eucl a (Zpos my)). }
  rewrite DE. cbn [xorb].
  set (q := a / Zpos my).
  pose proof (Z.div_mod a (Zpos my) ltac:(lia)) as DM.
  pose proof (Z.mod_pos_bound a (Zpos my) ltac:(lia)) as MB.
  fold q in DM.
  assert (Hq : 2 ^ 52 <= q < 2 ^ 54).
  { split.
    - apply Z.div_le_lower_bound; [lia|]. unfold a.
      change (2 ^ 53) with 9007199254740992 in *. change (2 ^ 52) with 4503599627370496 in *. nia.
    - apply Z.div_lt_upper_bound; [lia|]. unfold a.
      change (2 ^ 54) with 18014398509481984. change (2 ^ 53) with 9007199254740992 in *.
      change (2 ^ 52) with 4503599627370496 in *. nia. }
  assert (Hq0 : 0 < q) by (change (2 ^ 52) with 4503599627370496 in Hq; lia).
  pose proof (Zdigits2_range q 52 54 Hq0 ltac:(lia) Hq) as Dq.
  destruct (binary_round_aux_spec q (ex - ey - 53)
              (new_location (Zpos my) (a mod Zpos my))) as (m & k & E & Hk & Hm & L & U);
    try lia.
  exists m, k. rewrite E. split; [reflexivity|]. split; [lia|]. split; [exact Hm|].
  assert (P : 0 < 2 ^ k) by (apply Z.pow_pos_nonneg; lia).
  split; nia.
Qed.

Lemma SFmul_spec mx ex my ey :
  2 ^ 52 <= Zpos mx < 2 ^ 53 ->
  2 ^ 52 <= Zpos my < 2 ^ 53 ->
  -1000 <= ex + ey <= 900 ->
  exists m k,
    SFmul 53 1024 (S754_finite false mx ex) (S754_finite false my ey)
    = S754_finite false m (ex + ey + k) /\
    52 <= k <= 54 /\
    2 ^ 52 <= Zpos m < 2 ^ 53 /\
    (Zpos m - 1) * 2 ^ k <= Zpos mx * Zpos my /\
    Zpos mx * Zpos my < (Zpos m + 1) * 2 ^ k.
Proof.
  intros Hx Hy He.
  unfold SFmul. cbn [xorb]. rewrite Pos2Z.inj_mul.
  set (a := Zpos mx * Zpos my).
  assert (Ha : 2 ^ 104 <= a < 2 ^ 106).
  { unfold a. change (2 ^ 104) with (2 ^ 52 * 2 ^ 52). change (2 ^ 106) with (2 ^ 53 * 2 ^ 53).
    set (u := 2 ^ 52) in *. set (v := 2 ^ 53) in *.
    assert (0 < u) by (unfold u; lia). nia. }
  assert (Ha0 : 0 < a) by (unfold a; lia).
  pose proof (Zdigits2_range a 104 106 Ha0 ltac:(lia) Ha) as Da.
  destruct (binary_round_aux_spec a (ex + ey) loc_Exact) as (m & k & E & Hk & Hm & L & U);
    try lia.
  exists m, k. rewrite E. split; [reflexivity|]. split; [lia|]. split; [exact Hm|].
  split; lia.
Qed.

(** Arithmetic core: the enclosures of the division, of the
    multiplication by 100 and of [toFixed(1)] leave the integer [n]
    within one half of [1000 * c / t]. *)
Lemma tenths_enclosure c t G P1 P2 PK my mz n :
  0 < c -> 0 < t -> t < 2 ^ 32 ->
  0 < G -> 0 < P1 -> 2 ^ 52 <= P2 -> 2 ^ 43 <= PK ->
  PK * P1 * P2 = G * 2 ^ 99 ->
  (my - 1) * P1 * t <= c * G * 2 ^ 53 < (my + 1) * P1 * t ->
  (mz - 1) * P2 <= my * (100 * 2 ^ 46) < (mz + 1) * P2 ->
  2 * (n * PK - 10 * mz) <= PK ->
  2 * (10 * mz - n * PK) < PK ->
  (2 * n - 1) * t <= 2000 * c <= (2 * n + 1) * t.
Proof.
  intros Hc Ht Ht32 HG HP1 HP2 HPK HP [D1 D2] [M1 M2] R1 R2.
  change (2 ^ 32) with 4294967296 in *.
  change (2 ^ 43) with 8796093022208 in *.
  assert (E99 : 2 ^ 53 * (100 * 2 ^ 46) = 100 * 2 ^ 99) by reflexivity.
  assert (H100 : 100 * 2 ^ 46 <= 2 * P2).
  { change (2 ^ 52) with (64 * 2 ^ 46) in HP2. assert (0 < 2 ^ 46) by reflexivity. lia. }
  set (M100 := 100 * 2 ^ 46) in *.
  set (T53 := 2 ^ 53) in *. set (T99 := 2 ^ 99) in *.
  assert (HM100 : 0 < M100) by reflexivity.
  assert (HP2' : 0 < P2) by (change (2 ^ 52) with 4503599627370496 in HP2; lia).
  assert (HP12 : 0 < P1 * P2) by nia.
  (* 100 c PK P1 P2 = c G T53 M100 *)
  assert (EQ : 100 * c * PK * (P1 * P2) = c * G * T53 * M100).
  { replace (100 * c * PK * (P1 * P2)) with (100 * c * (PK * P1 * P2)) by ring.
    rewrite HP. replace (c * G * T53 * M100) with (c * G * (T53 * M100)) by ring.
    rewrite E99. ring. }
  split.
  - (* lower *)
    assert (S1 : (my - 1) * M100 * (P1 * t) <= c * G * T53 * M100).
    { replace ((my - 1) * M100 * (P1 * t)) with ((my - 1) * P1 * t * M100) by ring.
      apply Z.mul_le_mono_nonneg_r; lia. }
    assert (S2 : (mz - 3) * P2 <= (my - 1) * M100) by lia.
    assert (S3 : (mz - 3) * P2 * (P1 * t) <= (my - 1) * M100 * (P1 * t)).
    { apply Z.mul_le_mono_nonneg_r; nia. }
    assert (S4 : (mz - 3) * t * (P1 * P2) <= 100 * c * PK * (P1 * P2)).
    { rewrite EQ. replace ((mz - 3) * t * (P1 * P2)) with ((mz - 3) * P2 * (P1 * t)) by ring. lia. }
    assert (S5 : (mz - 3) * t <= 100 * c * PK).
    { apply Z.mul_le_mono_pos_r with (p := P1 * P2); assumption. }
    destruct (Z_le_gt_dec ((2 * n - 1) * t) (2000 * c)) as [|Hgt]; [assumption|exfalso].
    (* (2n-1) t >= 2000 c + 1 *)
    assert (S6 : (2 * n - 1) * PK <= 20 * mz) by lia.
    assert (S7 : (2 * n - 1) * PK * t <= 20 * mz * t).
    { apply Z.mul_le_mono_nonneg_r; lia. }
    assert (S8 : (2000 * c + 1) * PK <= (2 * n - 1) * t * PK).
    { apply Z.mul_le_mono_nonneg_r; lia. }
    nia.
  - (* upper *)
    assert (S1 : c * G * T53 * M100 < (my + 1) * M100 * (P1 * t)).
    { replace ((my + 1) * M100 * (P1 * t)) with ((my + 1) * P1 * t * M100) by ring.
      apply Z.mul_lt_mono_pos_r; lia. }
    assert (S2 : (my + 1) * M100 <= (mz + 3) * P2) by lia.
    assert (S3 : (my + 1) * M100 * (P1 * t) <= (mz + 3) * P2 * (P1 * t)).
    { apply Z.mul_le_mono_nonneg_r; nia. }
    assert (S4 : 100 * c * PK * (P1 * P2) < (mz + 3) * t * (P1 * P2)).
    { rewrite EQ. replace ((mz + 3) * t * (P1 * P2)) with ((mz + 3) * P2 * (P1 * t)) by ring. lia. }
    assert (S5 : 100 * c * PK < (mz + 3) * t).
    { apply Z.mul_lt_mono_pos_r with (p := P1 * P2); assumption. }
    destruct (Z_le_gt_dec (2000 * c) ((2 * n + 1) * t)) as [|Hgt]; [assumption|exfalso].
    assert (S6 : 20 * mz < (2 * n + 1) * PK) by lia.
    assert (S7 : 20 * mz * t < (2 * n + 1) * PK * t).
    { apply Z.mul_lt_mono_pos_r; lia. }
    assert (S8 : ((2 * n + 1) * t + 1) * PK <= 2000 * c * PK).
    { apply Z.mul_le_mono_nonneg_r; lia. }
    nia.
Qed.

Lemma nearest_tenths_bounds mz K :
  let n := (20 * Zpos mz + 2 ^ Zpos K) / 2 ^ (Zpos K + 1) in
  2 * (n * 2 ^ Zpos K - 10 * Zpos mz) <= 2 ^ Zpos K /\
  2 * (10 * Zpos mz - n * 2 ^ Zpos K) < 2 ^ Zpos K.
Proof.
  cbv zeta.
  assert (Hp : 0 < 2 ^ Zpos K) by (apply Z.pow_pos_nonneg; lia).
  assert (E : 2 ^ (Zpos K + 1) = 2 * 2 ^ Zpos K).
  { rewrite Z.pow_add_r by lia. lia. }
  rewrite E.
  pose proof (Z.div_mod (20 * Zpos mz + 2 ^ Zpos K) (2 * 2 ^ Zpos K) ltac:(lia)) as D.
  pose proof (Z.mod_pos_bound (20 * Zpos mz + 2 ^ Zpos K) (2 * 2 ^ Zpos K) ltac:(lia)) as B.
  set (n := (20 * Zpos mz + 2 ^ Zpos K) / (2 * 2 ^ Zpos K)) in *.
  set (r := (20 * Zpos mz + 2 ^ Zpos K) mod (2 * 2 ^ Zpos K)) in *.
  split; nia.
Qed.

Lemma accuracy_float c t :
  0 < c -> c <= t -> t < 2 ^ 32 ->
  exists mz K,
    SFmul 53 1024 (SFdiv 53 1024 (ofZ c) (ofZ t)) (ofZ 100)
    = S754_finite false mz (Zneg K) /\
    Zpos mz < 2 ^ 53 /\
    let n := (20 * Zpos mz + 2 ^ Zpos K) / 2 ^ (Zpos K + 1) in
    (2 * n - 1) * t <= 2000 * c <= (2 * n + 1) * t.
Proof.
  intros Hc Hct Ht.
  assert (T53 : 2 ^ 32 < 2 ^ 53) by reflexivity.
  destruct (ofZ_pos c ltac:(lia)) as (Mc & Ec & Vc & Bc).
  destruct (ofZ_pos t ltac:(lia)) as (Mt & Et & Vt & Bt).
  assert (E100 : ofZ 100 = S754_finite false 7036874417766400 (-46)) by reflexivity.
  pose proof (Zdigits2_mono c t Hc Hct) as Dct.
  pose proof (Zdigits2_pos c Hc) as Dc0.
  assert (Dt32 : Zdigits2 t <= 32).
  { apply (Zdigits2_range t 0 32); [lia|lia|]. cbn. lia. }
  set (dc := Zdigits2 c) in *. set (dt := Zdigits2 t) in *.
  rewrite Ec, Et, E100.
  destruct (SFdiv_spec Mc (dc - 53) Mt (dt - 53) Bc Bt ltac:(lia))
    as (my & k1 & Ed & Hk1 & Bmy & D1 & D2).
  rewrite Ed.
  destruct (SFmul_spec my (dc - 53 - (dt - 53) - 53 + k1) 7036874417766400 (-46) Bmy)
    as (mz & k2 & Em & Hk2 & Bmz & M1 & M2).
  { change (2 ^ 52) with 4503599627370496.
    change (2 ^ 53) with 9007199254740992. lia. }
  { lia. }
  rewrite Em.
  set (ez := dc - 53 - (dt - 53) - 53 + k1 + -46 + k2).
  assert (Hez : ez <= -43) by (unfold ez; lia).
  destruct ez as [|K|K] eqn:EK; try lia.
  exists mz, K. split; [reflexivity|]. split; [lia|].
  pose proof (nearest_tenths_bounds mz K) as [R1 R2]. cbv zeta in R1, R2 |- *.
  set (n := (20 * Zpos mz + 2 ^ Zpos K) / 2 ^ (Zpos K + 1)) in *.
  assert (HK : Zpos K = dt - dc + 99 - k1 - k2) by (unfold ez in EK; lia).
  assert (PB : 0 < 2 ^ (53 - dt)) by (apply Z.pow_pos_nonneg; lia).
  assert (PG : 0 < 2 ^ (dt - dc)) by (apply Z.pow_pos_nonneg; lia).
  assert (PP1 : 0 < 2 ^ k1) by (apply Z.pow_pos_nonneg; lia).
  assert (EA : 2 ^ (53 - dc) = 2 ^ (53 - dt) * 2 ^ (dt - dc)).
  { rewrite <- Z.pow_add_r by lia. f_equal. lia. }
  assert (HP2 : 2 ^ 52 <= 2 ^ k2) by (apply Z.pow_le_mono_r; lia).
  assert (HPK : 2 ^ 43 <= 2 ^ Zpos K) by (apply Z.pow_le_mono_r; lia).
  assert (HP : 2 ^ Zpos K * 2 ^ k1 * 2 ^ k2 = 2 ^ (dt - dc) * 2 ^ 99).
  { rewrite <- !Z.pow_add_r by lia. f_equal. lia. }
  assert (HD : (Zpos my - 1) * 2 ^ k1 * t <= c * 2 ^ (dt - dc) * 2 ^ 53
               < (Zpos my + 1) * 2 ^ k1 * t).
  { rewrite Vc, Vt, EA in *.
    set (B := 2 ^ (53 - dt)) in *. set (G := 2 ^ (dt - dc)) in *.
    set (P1 := 2 ^ k1) in *. set (T := 2 ^ 53) in *.
    split.
    - apply Z.mul_le_mono_pos_r with (p := B); [assumption|].
      replace ((Zpos my - 1) * P1 * t * B) with ((Zpos my - 1) * P1 * (t * B)) by ring.
      replace (c * G * T * B) with (c * (B * G) * T) by ring. exact D1.
    - apply Z.mul_lt_mono_pos_r with (p := B); [assumption|].
      replace ((Zpos my + 1) * P1 * t * B) with ((Zpos my + 1) * P1 * (t * B)) by ring.
      replace (c * G * T * B) with (c * (B * G) * T) by ring. exact D2. }
  assert (HM : (Zpos mz - 1) * 2 ^ k2 <= Zpos my * (100 * 2 ^ 46)
               < (Zpos mz + 1) * 2 ^ k2).
  { change (Zpos 7036874417766400) with (100 * 2 ^ 46) in M1, M2.
    split; assumption. }
  exact (tenths_enclosure c t (2 ^ (dt - dc)) (2 ^ k1) (2 ^ k2) (2 ^ Zpos K)
           (Zpos my) (Zpos mz) n Hc ltac:(lia) Ht PG PP1 HP2 HPK HP HD HM R1 R2).
Qed.

Local Close Scope Z_scope.

(** ** Score report: [currentExamScore] and [calculateAccuracy] *)

Lemma decimalFrom_fuel f1 : forall f2 n,
  (0 <= n < 2 ^ Z.of_nat (S f1))%Z ->
  (n < 2 ^ Z.of_nat (S f2))%Z ->
  Float64.decimalFrom (S f1) n = Float64.decimalFrom (S f2) n.
Proof.
  induction f1 as [|f1 IH]; intros f2 n H1 H2; cbn [Float64.decimalFrom].
  - destruct (Z.ltb_spec n 10); [reflexivity|].
    change (2 ^ Z.of_nat 1)%Z with 2%Z in H1. lia.
  - destruct (Z.ltb_spec n 10) as [|Hn]; [reflexivity|].
    destruct f2 as [|f2].
    { change (2 ^ Z.of_nat 1)%Z with 2%Z in H2. lia. }
    f_equal. apply IH.
    + rewrite Nat2Z.inj_succ, Z.pow_succ_r in H1 by lia.
      split; [apply Z.div_pos; lia|].
      apply Z.div_lt_upper_bound; lia.
    + rewrite Nat2Z.inj_succ, Z.pow_succ_r in H2 by lia.
      apply Z.div_lt_upper_bound; lia.
Qed.

Lemma decimal_bits n :
  (0 <= n)%Z -> (n < 2 ^ Z.of_nat (S (Z.to_nat (Z.log2 n))))%Z.
Proof.
  intros H. rewrite Nat2Z.inj_succ, Z2Nat.id by apply Z.log2_nonneg.
  destruct (Z.eq_dec n 0) as [->|Hn]; [reflexivity|].
  apply Z.log2_spec. lia.
Qed.

(** The digits of [n], with a point before the last one, are the digits
    of [n / 10], a point, and the digit [n mod 10]. *)
Lemma pointBeforeLast_tenths n :
  (0 <= n)%Z ->
  Float64.pointBeforeLast n
  = Float64.decimal (n / 10) ++ str "." ++ [Float64.digit (n mod 10)].
Proof.
  intros H. unfold Float64.pointBeforeLast.
  destruct (Z.ltb_spec n 10) as [Hlt|Hge].
  - assert (E : Float64.decimal n = [Float64.digit n]).
    { unfold Float64.decimal. cbn [Float64.decimalFrom].
      destruct (Z.ltb_spec n 10); [reflexivity | lia]. }
    rewrite E. cbn [List.length Nat.leb app firstn skipn Nat.sub].
    rewrite Z.div_small, Z.mod_small by lia. reflexivity.
  - assert (E : Float64.decimal n
                = Float64.decimal (n / 10) ++ [Float64.digit (n mod 10)]).
    { unfold Float64.decimal at 1. cbn [Float64.decimalFrom].
      destruct (Z.ltb_spec n 10); [lia|]. f_equal.
      pose proof (decimal_bits n H) as B.
      destruct (Z.to_nat (Z.log2 n)) as [|f] eqn:Ef.
      { change (2 ^ Z.of_nat 1)%Z with 2%Z in B. lia. }
      unfold Float64.decimal. apply decimalFrom_fuel.
      - rewrite Nat2Z.inj_succ, Z.pow_succ_r in B by lia.
        split; [apply Z.div_pos; lia|].
        apply Z.div_lt_upper_bound; lia.
      - apply decimal_bits. apply Z.div_pos; lia. }
    rewrite E.
    assert (L : (1 <= List.length (Float64.decimal (n / 10)))%nat).
    { unfold Float64.decimal. cbn [Float64.decimalFrom].
      destruct (n / 10 <? 10)%Z; [cbn; lia|]. rewrite length_app. cbn. lia. }
    destruct (Float64.decimal (n / 10)) as [|d ds] eqn:Ed; [cbn in L; lia|].
    set (w := d :: ds) in *.
    replace (List.length (w ++ [Float64.digit (n mod 10)]) <=? 1)%nat
      with false.
    2:{ symmetry. apply Nat.leb_gt. rewrite length_app. cbn. lia. }
    replace (List.length (w ++ [Float64.digit (n mod 10)]) - 1)%nat
      with (List.length w + 0)%nat by (rewrite length_app; cbn; lia).
    rewrite firstn_app_2, skipn_app, Nat.add_0_r, skipn_all.
    cbn [firstn skipn app]. rewrite app_nil_r.
    replace (List.length w - List.length w)%nat with 0%nat by lia.
    reflexivity.
Qed.

Lemma startExam_CountersAgree s :
  App.availableQuestions s <> [] -> CountersAgree (App.startExam s).
Proof.
  intros H. rewrite (startExam_started s H). unfold CountersAgree.
  set (y := App.setIndex 0 (App.setExamQuestions (App.availableRefs s) s)).
  set (x := App.setIncorrect 0 (App.setCorrect 0 (App.newAnswers y))).
  destruct (resetAnswer_frame x) as (_ & _ & _ & _ & A & _ & C & I & _).
  change (currentExamCorrect (App.resetAnswer x)
          + currentExamIncorrect (App.resetAnswer x)
          = N.of_nat (List.length (currentExamAnswers (App.resetAnswer x)))).
  rewrite A, C, I.
  change (currentExamAnswers x) with (currentExamAnswers (App.newAnswers y)).
  now rewrite currentExamAnswers_newAnswers.
Qed.

Lemma recordAnswer_CountersAgree s s' :
  CountersAgree s -> App.recordAnswer s = Some s' -> CountersAgree s'.
Proof.
  unfold CountersAgree, App.recordAnswer. intros H.
  destruct (App.hasAnswer s).
  - destruct (App.currentQuestion s) as [q|]; [|discriminate].
    destruct (eqb (type q) s_multi).
    + destruct (userAnswer s) as [t|a]; [discriminate|].
      intros E. injection E as <-. unfold currentExamAnswers in *.
      destruct (Utils.checkAnswer _ _ _); cbn;
        rewrite write_same, length_app; cbn; lia.
    + intros E. injection E as <-. unfold currentExamAnswers in *.
      destruct (Utils.checkAnswer _ _ _); cbn;
        rewrite write_same, length_app; cbn; lia.
  - intros E. injection E as <-. exact H.
Qed.

Section Score.

Variable numberToString : spec_float -> jsstring.

Local Abbreviation calculateAccuracy :=
  (Utils.calculateAccuracy numberToString).

Lemma submitAnswer_CountersAgree env s s' timer :
  CountersAgree s ->
  App.submitAnswer numberToString env s = Returned s' timer ->
  CountersAgree s'.
Proof.
  unfold App.submitAnswer. intros H.
  destruct (App.recordAnswer s) as [s1|] eqn:E; [|discriminate].
  pose proof (recordAnswer_CountersAgree s s1 H E) as H1.
  unfold CountersAgree in *.
  destruct (App.isLastQuestion s1); cbn [negb].
  - destruct (App.hasAnswer s1); intros R; injection R as <- _;
      [assumption|].
    destruct (finishExam_frame numberToString env s1)
      as (_ & _ & _ & A & _ & C & I & _).
    now rewrite A, C, I.
  - intros R. injection R as <- _.
    destruct (resetAnswer_frame
                (App.setIndex (currentQuestionIndex s1 + 1) s1))
      as (_ & _ & _ & _ & A & _ & C & I & _).
    cbn in A, C, I. now rewrite A, C, I.
Qed.

(** For a total below 2^32 (the bound of an array length) and no more
    correct answers than answers, the accuracy is the decimal numeral,
    with one digit after the point, of a multiple [n / 10] of one tenth
    that is within one half of a tenth of the exact [100 * c / t]. *)
Lemma calculateAccuracy_rounds (c t : N) :
  0 < t < 2 ^ 32 -> c <= t ->
  exists n : Z,
    calculateAccuracy c t
    = Float64.decimal (n / 10) ++ str "." ++ [Float64.digit (n mod 10)]
      ++ str "%" /\
    (0 <= n)%Z /\
    ((2 * n - 1) * Z.of_N t <= 2000 * Z.of_N c
     <= (2 * n + 1) * Z.of_N t)%Z.
Proof.
  intros [Ht0 Ht] Hct. unfold Utils.calculateAccuracy.
  replace (t =? 0) with false by (symmetry; apply N.eqb_neq; lia).
  unfold Float64.mul, Float64.div, Float64.ofN, Float64.prec, Float64.emax.
  fold (ofZ (Z.of_N c)). fold (ofZ (Z.of_N t)).
  change (binary_normalize 53 1024 (Z.of_N 100) 0 false) with (ofZ 100).
  assert (Ht' : (Z.of_N t < 2 ^ 32)%Z).
  { change (2 ^ 32)%Z with (Z.of_N (2 ^ 32)). lia. }
  destruct (N.eq_dec c 0) as [->|Hc].
  - exists 0%Z.
    destruct (ofZ_pos (Z.of_N t)) as (m & -> & _).
    { assert (2 ^ 32 < 2 ^ 53)%Z by reflexivity. lia. }
    split; [reflexivity|]. lia.
  - destruct (accuracy_float (Z.of_N c) (Z.of_N t)) as (mz & K & -> & B & R);
      try lia.
    cbv zeta in R.
    set (n := ((20 * Zpos mz + 2 ^ Zpos K) / 2 ^ (Zpos K + 1))%Z) in *.
    assert (Hn : (0 <= n)%Z) by nia.
    exists n. split; [|split; assumption].
    cbn [Float64.toFixed1 Float64.atLeast1e21 Float64.nearestTenths].
    replace (10 ^ 21 * 2 ^ Zpos K <=? Zpos mz)%Z with false.
    2:{ symmetry. apply Z.leb_gt.
        assert (0 < 2 ^ Zpos K)%Z by (apply Z.pow_pos_nonneg; lia).
        assert (2 ^ 53 < 10 ^ 21)%Z by reflexivity. nia. }
    fold n. rewrite pointBeforeLast_tenths by assumption.
    cbn [app]. now rewrite <- !app_assoc.
Qed.

(** C8: the score report has [total] equal to the number of answer
    records and [correct], [incorrect] equal to the two counters.  Its
    accuracy is "0%" when there is no answer.  Otherwise, in a session
    whose counters add up to the number of its answers (fewer than 2^32,
    as in every array), the accuracy is a decimal numeral with one digit
    after the point, followed by "%", whose value [n / 10] is a nearest
    multiple of one tenth to the exact [correct / total * 100]: it
    differs from it by at most one twentieth.  For 1 correct out of 3
    this is "33.3%". *)
Theorem currentExamScore_report (s : State) :
  let r := App.currentExamScore numberToString s in
  total r = N.of_nat (List.length (currentExamAnswers s)) /\
  correct r = currentExamCorrect s /\
  incorrect r = currentExamIncorrect s /\
  (currentExamAnswers s = [] -> accuracy r = str "0%") /\
  (currentExamAnswers s <> [] ->
   CountersAgree s ->
   total r < 2 ^ 32 ->
   exists n : Z,
     accuracy r
     = Float64.decimal (n / 10) ++ str "." ++ [Float64.digit (n mod 10)]
       ++ str "%" /\
     (0 <= n)%Z /\
     ((2 * n - 1) * Z.of_N (total r) <= 2000 * Z.of_N (correct r)
      <= (2 * n + 1) * Z.of_N (total r))%Z) /\
  calculateAccuracy 0 0 = str "0%" /\
  calculateAccuracy 1 3 = str "33.3%".
Proof.
  cbv zeta. cbn [total correct incorrect accuracy App.currentExamScore].
  split; [reflexivity|]. split; [reflexivity|]. split; [reflexivity|].
  split; [now intros ->|]. split; [|split; reflexivity].
  intros Hne HC Ht. apply calculateAccuracy_rounds.
  - split; [|assumption]. destruct (currentExamAnswers s); [congruence|].
    cbn [List.length]. lia.
  - unfold CountersAgree in HC. lia.
Qed.

End Score.

Lemma currentExamScore_report_witness :
  exists n : Z,
    accuracy (App.currentExamScore sampleToString answeredSession)
    = Float64.decimal (n / 10) ++ str "." ++ [Float64.digit (n mod 10)]
      ++ str "%" /\
    (0 <= n)%Z /\
    ((2 * n - 1) * 4 <= 2000 * 2 <= (2 * n + 1) * 4)%Z.
Proof.
  destruct (currentExamScore_report sampleToString answeredSession)
    as (_ & _ & _ & _ & H & _).
  apply H.
  - discriminate.
  - reflexivity.
  - reflexivity.
Defined.

(** ** End-to-end scenario *)

(** The scenario of the specification: three answers, two of them
    correct, give the score 3 / 2 / 1 / "66.7%", one history record, the
    report page, a streak of 1 for the first two questions and a streak
    of 0 for the third. *)
Example scenario_score :
  scenarioSummary
  = Some (report,
          [mkScore 3 2 1 (str "66.7%")],
          [mkStatistics 1 1 1; mkStatistics 1 1 1; mkStatistics 0 1 0]).
Proof. vm_compute. reflexivity. Qed.

(** * Further properties of the code *)

(** ** Starting an exam *)

Lemma availableQuestions_streak s :
  Forall (fun q => consecutiveCorrect (statistics q)
                   < consecutiveCorrectThreshold s)
         (App.availableQuestions s).
Proof.
  apply Forall_forall. intros q H. apply filter_In in H.
  now apply N.ltb_lt.
Qed.

(** The fields and the store after a start. *)
Lemma startExam_fields s :
  App.availableQuestions s <> [] ->
  let s' := App.startExam s in
  currentPage s' = exam /\
  examQuestionRefs s' = App.availableRefs s /\
  currentExamQuestions s' = App.availableQuestions s /\
  currentQuestionIndex s' = 0%Z /\
  userAnswer s' = emptyFormAt (App.availableQuestions s) 0 /\
  currentExamAnswers s' = [] /\
  currentExamCorrect s' = 0 /\
  currentExamIncorrect s' = 0 /\
  lastAnswerFeedback s' = None /\
  questions s' = questions s /\
  examHistory s' = examHistory s /\
  consecutiveCorrectThreshold s' = consecutiveCorrectThreshold s /\
  objects s' = objects s /\
  questionRefs s' = questionRefs s /\
  historyEntries s' = historyEntries s.
Proof.
  intros H. rewrite (startExam_started s H). cbv zeta.
  set (y := App.setIndex 0 (App.setExamQuestions (App.availableRefs s) s)).
  set (x := App.setIncorrect 0 (App.setCorrect 0 (App.newAnswers y))).
  destruct (resetAnswer_frame x)
    as (R1 & R2 & R3 & R4 & R5 & R6 & R7 & R8 & R9 & R10).
  destruct (resetAnswer_store x) as (G1 & G2 & G3 & G4 & G5 & G6).
  pose proof (resetAnswer_userAnswer x) as U.
  assert (X : currentExamQuestions x = App.availableQuestions s)
    by exact (availableRefs_view s).
  split; [reflexivity|].
  split; [exact G3|].
  split; [exact (eq_trans R3 X)|].
  split; [exact R4|].
  split; [rewrite <- X; exact U|].
  split; [exact (eq_trans R5 (currentExamAnswers_newAnswers y))|].
  split; [exact R7|]. split; [exact R8|]. split; [reflexivity|].
  split; [exact R2|].
  split; [exact (eq_trans R9 (examHistory_newAnswers y))|].
  split; [exact R10|].
  split; [exact G1|]. split; [exact G2 | exact G6].
Qed.

(** X1: [startExam] returns the state unchanged when no question has a
    streak below the threshold, in particular always when the threshold
    is 0.  Otherwise the new session is in progress at position 0 with
    no answers, counters 0 and no feedback, its snapshot is the list of
    the available questions in bank order, all with a streak below the
    threshold, and the pending input is the empty form of the first
    question; bank, history and threshold are not changed. *)
Theorem startExam_effect (s : State) :
  (App.availableQuestions s = [] -> App.startExam s = s) /\
  (consecutiveCorrectThreshold s = 0 -> App.startExam s = s) /\
  (App.availableQuestions s <> [] ->
   let s' := App.startExam s in
   InProgress s' /\
   currentExamQuestions s' = App.availableQuestions s /\
   Forall (fun q => consecutiveCorrect (statistics q)
                    < consecutiveCorrectThreshold s)
          (currentExamQuestions s') /\
   currentQuestionIndex s' = 0%Z /\
   userAnswer s' = emptyFormAt (App.availableQuestions s) 0 /\
   currentExamAnswers s' = [] /\
   currentExamCorrect s' = 0 /\
   currentExamIncorrect s' = 0 /\
   lastAnswerFeedback s' = None /\
   questions s' = questions s /\
   examHistory s' = examHistory s /\
   consecutiveCorrectThreshold s' = consecutiveCorrectThreshold s).
Proof.
  split; [exact (startExam_none s)|]. split.
  - intros H. apply startExam_none. unfold App.availableQuestions.
    rewrite H.
    induction (questions s) as [|q r IH]; cbn; [reflexivity|].
    replace (consecutiveCorrect (statistics q) <? 0) with false; [exact IH|].
    symmetry. apply N.ltb_ge. lia.
  - intros Hne. cbv zeta. pose proof (availableQuestions_streak s) as F.
    destruct (startExam_fields s Hne)
      as (P & _ & X & I & U & A & C & Ic & Fb & Q & Hi & Th & _).
    unfold InProgress. rewrite P, X, I, U, A, C, Ic, Fb, Q, Hi, Th.
    destruct (App.availableQuestions s) as [|q r]; [congruence|].
    cbn [List.length]. repeat split; auto; lia.
Qed.

Lemma startExam_effect_witness :
  InProgress (App.startExam (imported sampleBank 3)).
Proof.
  apply (proj2 (proj2 (startExam_effect (imported sampleBank 3)))).
  discriminate.
Defined.

(** ** Submitting an answer *)

Lemma sort_idempotent a : sort (sort a) = sort a.
Proof. apply sort_Permutation_eq, sort_Permutation. Qed.

Lemma sort_length a : List.length (sort a) = List.length a.
Proof. apply Permutation_length, sort_Permutation. Qed.

Lemma currentIsMulti_type s q :
  App.currentQuestion s = Some q ->
  App.currentIsMulti s = eqb (type q) s_multi.
Proof. unfold App.currentIsMulti. now intros ->. Qed.

Lemma InProgress_currentQuestion s :
  InProgress s -> exists q, App.currentQuestion s = Some q.
Proof.
  intros [_ [H0 H1]]. rewrite currentQuestion_at. unfold App.at_.
  replace (currentQuestionIndex s <? 0)%Z with false
    by (symmetry; apply Z.ltb_ge; lia).
  destruct (nth_error (currentExamQuestions s)
                      (Z.to_nat (currentQuestionIndex s))) as [q|] eqn:E;
    [now exists q|].
  apply nth_error_None in E. lia.
Qed.

(** The first half of [submitAnswer] when there is an answer. *)
Lemma recordAnswer_answered s q :
  App.hasAnswer s = true ->
  App.currentQuestion s = Some q ->
  exists s1,
    App.recordAnswer s = Some s1 /\
    currentExamAnswers s1
    = currentExamAnswers s ++ [recorded q (userAnswer s)] /\
    currentExamCorrect s1
    = currentExamCorrect s
      + (if isCorrect (recorded q (userAnswer s)) then 1 else 0) /\
    currentExamIncorrect s1
    = currentExamIncorrect s
      + (if isCorrect (recorded q (userAnswer s)) then 0 else 1) /\
    lastAnswerFeedback s1
    = Some (mkFeedback (currentQuestionIndex s + 1)
                       (normalized q (userAnswer s)) (answer q)
                       (isCorrect (recorded q (userAnswer s)))) /\
    userAnswer s1
    = (if eqb (type q) s_multi then sortInPlace (userAnswer s)
       else userAnswer s) /\
    currentPage s1 = currentPage s /\
    questions s1 = questions s /\
    currentExamQuestions s1 = currentExamQuestions s /\
    currentQuestionIndex s1 = currentQuestionIndex s /\
    historyEntries s1 = historyEntries s /\
    consecutiveCorrectThreshold s1 = consecutiveCorrectThreshold s.
Proof.
  intros H Hq. unfold App.recordAnswer. rewrite H, Hq.
  unfold App.hasAnswer in H. rewrite (currentIsMulti_type s q Hq) in H.
  unfold recorded, normalized. cbn [isCorrect].
  destruct (eqb (type q) s_multi) eqn:M.
  - destruct (userAnswer s) as [t|a] eqn:U; [discriminate|].
    cbn [sortInPlace App.setUserAnswer userAnswer].
    assert (C : Utils.checkAnswer (Labels (sort a)) (answer q) (type q)
                = Utils.checkAnswer (Labels a) (answer q) (type q)).
    { unfold Utils.checkAnswer. now rewrite M, sort_idempotent. }
    rewrite C. unfold Utils.checkAnswerArgument. rewrite M.
    cbn [sortInPlace]. rewrite sort_idempotent.
    eexists. split; [reflexivity|].
    unfold currentExamAnswers, questions, currentExamQuestions.
    destruct (Utils.checkAnswer (Labels a) (answer q) (type q)); cbn;
      rewrite ?N.add_0_r, write_same; repeat split.
  - unfold Utils.checkAnswerArgument. rewrite M.
    eexists. split; [reflexivity|].
    unfold currentExamAnswers, questions, currentExamQuestions.
    destruct (Utils.checkAnswer (userAnswer s) (answer q) (type q)); cbn;
      rewrite ?N.add_0_r, write_same; repeat split.
Qed.

(** The first half of [submitAnswer] and the history. *)
Lemma recordAnswer_history s s1 :
  App.recordAnswer s = Some s1 ->
  examHistory s1 = historyWith (currentExamAnswers s1) s.
Proof.
  unfold App.recordAnswer.
  destruct (App.hasAnswer s).
  - destruct (App.currentQuestion s) as [q|]; [|discriminate].
    destruct (eqb (type q) s_multi).
    + destruct (userAnswer s) as [t|a]; [discriminate|].
      intros [= <-].
      destruct (Utils.checkAnswer _ _ _); views;
        now rewrite currentExamAnswers_setAnswers, examHistory_setAnswers.
    + intros [= <-].
      destruct (Utils.checkAnswer _ _ _); views;
        now rewrite currentExamAnswers_setAnswers, examHistory_setAnswers.
  - intros [= <-]. views. symmetry. apply historyWith_same.
Qed.

(** The first half of [submitAnswer] and the store: the record is
    pushed onto the current answer array, in place. *)
Lemma recordAnswer_store s s1 :
  App.recordAnswer s = Some s1 ->
  objects s1 = objects s /\
  questionRefs s1 = questionRefs s /\
  examQuestionRefs s1 = examQuestionRefs s /\
  examAnswersRef s1 = examAnswersRef s /\
  historyEntries s1 = historyEntries s /\
  forall r, arrays s1 r
            = write (examAnswersRef s) (currentExamAnswers s1) (arrays s) r.
Proof.
  unfold App.recordAnswer.
  destruct (App.hasAnswer s).
  - destruct (App.currentQuestion s) as [q|]; [|discriminate].
    destruct (eqb (type q) s_multi).
    + destruct (userAnswer s) as [t|a]; [discriminate|].
      intros [= <-]. unfold currentExamAnswers.
      destruct (Utils.checkAnswer _ _ _); cbn; rewrite write_same;
        repeat split.
    + intros [= <-]. unfold currentExamAnswers.
      destruct (Utils.checkAnswer _ _ _); cbn; rewrite write_same;
        repeat split.
  - intros [= <-]. repeat split. intros r.
    unfold currentExamAnswers, write. cbn.
    now destruct (Nat.eqb_spec r (examAnswersRef s)) as [->|].
Qed.

Lemma hasAnswer_sorted s q :
  App.currentQuestion s = Some q ->
  App.hasAnswer s = true ->
  forall s1,
    currentExamQuestions s1 = currentExamQuestions s ->
    currentQuestionIndex s1 = currentQuestionIndex s ->
    userAnswer s1
    = (if eqb (type q) s_multi then sortInPlace (userAnswer s)
       else userAnswer s) ->
    App.hasAnswer s1 = true.
Proof.
  intros Hq H s1 E1 E2 E3.
  assert (Hq1 : App.currentQuestion s1 = Some q).
  { rewrite currentQuestion_at, E1, E2, <- currentQuestion_at. exact Hq. }
  unfold App.hasAnswer in *.
  rewrite (currentIsMulti_type _ _ Hq) in H.
  rewrite (currentIsMulti_type _ _ Hq1), E3.
  destruct (eqb (type q) s_multi); [|exact H].
  destruct (userAnswer s) as [t|a]; [discriminate|].
  cbn [sortInPlace]. now rewrite sort_length.
Qed.

Section Answering.

Variable numberToString : spec_float -> jsstring.

Local Abbreviation submitAnswer := (App.submitAnswer numberToString).

(** X2: in a session in progress, submitting a non-empty selection
    appends exactly one record, for the current question, whose
    correctness flag is the verdict of [checkAnswer] on the selection;
    the matching counter grows by one, the other one stays; the
    feedback shows the 1-based position, the normalized answer, the
    correct answer and the verdict.  Before the last question the
    pointer moves on by one and the pending input is emptied; at the
    last question the pointer stays and the timer is armed.  Page, bank
    and snapshot are not changed by the call itself, and no record is
    added to the history or taken from it; but the records of the
    history that hold the answer array of this session (those of an
    earlier hand-in of the same session) show the new answer too.  The
    history reads as before when the session has not been handed
    in. *)
Theorem submitAnswer_answered env s :
  InProgress s ->
  App.hasAnswer s = true ->
  exists q s' timer,
    App.currentQuestion s = Some q /\
    submitAnswer env s = Returned s' timer /\
    currentExamAnswers s'
    = currentExamAnswers s ++ [recorded q (userAnswer s)] /\
    currentExamCorrect s'
    = currentExamCorrect s
      + (if Utils.checkAnswer (userAnswer s) (answer q) (type q)
         then 1 else 0) /\
    currentExamIncorrect s'
    = currentExamIncorrect s
      + (if Utils.checkAnswer (userAnswer s) (answer q) (type q)
         then 0 else 1) /\
    lastAnswerFeedback s'
    = Some (mkFeedback (currentQuestionIndex s + 1)
                       (normalized q (userAnswer s)) (answer q)
                       (Utils.checkAnswer (userAnswer s) (answer q)
                                          (type q))) /\
    ((currentQuestionIndex s
      < Z.of_nat (List.length (currentExamQuestions s)) - 1)%Z ->
     currentQuestionIndex s' = (currentQuestionIndex s + 1)%Z /\
     userAnswer s'
     = emptyFormAt (currentExamQuestions s) (currentQuestionIndex s + 1) /\
     timer = false) /\
    (currentQuestionIndex s
     = (Z.of_nat (List.length (currentExamQuestions s)) - 1)%Z ->
     currentQuestionIndex s' = currentQuestionIndex s /\ timer = true) /\
    currentPage s' = currentPage s /\
    questions s' = questions s /\
    currentExamQuestions s' = currentExamQuestions s /\
    historyEntries s' = historyEntries s /\
    examHistory s'
    = historyWith (currentExamAnswers s ++ [recorded q (userAnswer s)]) s /\
    (NotHandedIn s -> examHistory s' = examHistory s).
Proof.
  intros P H. destruct (InProgress_currentQuestion s P) as (q & Hq).
  destruct (recordAnswer_answered s q H Hq)
    as (s1 & E & A & C & I & F & U & Pg & Q & X & Ix & Hi & Th).
  pose proof (recordAnswer_history s s1 E) as Hv. rewrite A in Hv.
  pose proof (hasAnswer_sorted s q Hq H s1 X Ix U) as H1.
  unfold App.submitAnswer. rewrite E. unfold App.isLastQuestion.
  rewrite X, Ix.
  destruct (Z.ltb_spec (currentQuestionIndex s)
              (Z.of_nat (List.length (currentExamQuestions s)) - 1))
    as [Lt|Ge]; cbn [negb].
  - exists q. eexists. exists false. split; [assumption|].
    split; [reflexivity|].
    set (x := App.setIndex (currentQuestionIndex s + 1) s1).
    pose proof (resetAnswer_frame x) as R.
    pose proof (resetAnswer_userAnswer x) as Ux.
    destruct (resetAnswer_store x) as (_ & _ & _ & _ & _ & G6).
    subst x. cbn -[App.resetAnswer emptyFormAt] in R, Ux, G6. views.
    destruct R as (R1 & R2 & R3 & R4 & R5 & R6 & R7 & R8 & R9 & R10).
    rewrite R1, R2, R3, R4, R5, R6, R7, R8, R9, Ux, X, G6.
    cbn [recorded isCorrect] in C, I, F.
    repeat split; auto; try lia.
    intros N. rewrite Hv. now apply historyWith_NotHandedIn.
  - rewrite H1. exists q, s1, true. split; [assumption|].
    split; [reflexivity|].
    cbn [recorded isCorrect] in C, I, F.
    repeat split; auto; try lia.
    intros N. rewrite Hv. now apply historyWith_NotHandedIn.
Qed.

(** X3: [submitAnswer] throws exactly when something is selected while
    the position pointer is at no question of the snapshot (after a jump
    outside it, or without a session); in a session in progress it
    always returns. *)
Theorem submitAnswer_throws env s :
  (submitAnswer env s = TypeError <->
   App.hasAnswer s = true /\ App.currentQuestion s = None) /\
  (InProgress s -> submitAnswer env s <> TypeError).
Proof.
  assert (T : submitAnswer env s = TypeError <->
              App.hasAnswer s = true /\ App.currentQuestion s = None).
  { destruct (App.hasAnswer s) eqn:H.
    - destruct (App.currentQuestion s) as [q|] eqn:Hq.
      + destruct (recordAnswer_answered s q H Hq) as (s1 & E & _).
        unfold App.submitAnswer. rewrite E. split.
        * destruct (negb _); [discriminate|].
          destruct (App.hasAnswer s1); discriminate.
        * intros [_ ?]. discriminate.
      + unfold App.submitAnswer, App.recordAnswer. rewrite H, Hq.
        split; auto.
    - destruct (submitAnswer_no_answer numberToString env s H)
        as (s' & E & _).
      rewrite E. split; [discriminate|]. intros [? _]. discriminate. }
  split; [exact T|].
  intros P E. apply T in E. destruct E as [_ E].
  destruct (InProgress_currentQuestion s P) as (q & Hq). congruence.
Qed.

(** X4: the two copies of [submitAnswer] agree whenever something is
    selected: the older one returns the same state and arms the timer
    in the same cases, whatever the confirmation dialog would answer.
    They differ only on an empty selection. *)
Theorem submitAnswer_copies_agree env s :
  App.hasAnswer s = true ->
  LegacyApp.submitAnswer s = submitAnswer env s.
Proof.
  intros H. unfold LegacyApp.submitAnswer, App.submitAnswer. rewrite H.
  cbn [negb].
  destruct (App.currentQuestion s) as [q|] eqn:Hq.
  - destruct (recordAnswer_answered s q H Hq)
      as (s1 & E & _ & _ & _ & _ & U & _ & _ & X & Ix & _).
    rewrite E. destruct (negb (App.isLastQuestion s1)); [reflexivity|].
    now rewrite (hasAnswer_sorted s q Hq H s1 X Ix U).
  - unfold App.recordAnswer. now rewrite H, Hq.
Qed.

End Answering.

Lemma submitAnswer_answered_witness :
  (exists q s' timer,
     App.currentQuestion sampleSession = Some q /\
     App.submitAnswer sampleToString sampleEnv sampleSession
     = Returned s' timer /\
     currentExamAnswers s'
     = currentExamAnswers sampleSession
       ++ [recorded q (userAnswer sampleSession)]) /\
  (exists s',
     App.submitAnswer sampleToString sampleEnv handedInSession
     = Returned s' true /\
     map answers (examHistory handedInSession)
     = [[mkAnswerRecord (str "1") (str "Q") (str "B") (str "A") false]] /\
     map answers (examHistory s')
     = [[mkAnswerRecord (str "1") (str "Q") (str "B") (str "A") false;
         mkAnswerRecord (str "1") (str "Q") (str "A") (str "A") true]]).
Proof.
  split.
  - destruct (submitAnswer_answered sampleToString sampleEnv sampleSession)
      as (q & s' & timer & Hq & E & A & _).
    + split; [now left | rewrite length_currentExamQuestions; cbn; lia].
    + reflexivity.
    + exists q, s', timer. auto.
  - destruct (submitAnswer_answered sampleToString sampleEnv
                handedInSession)
      as (q & s' & timer & Hq & E & _ & _ & _ & _ & _ & Last & _ & _ & _
          & _ & Hist & _).
    + split; [now left | vm_compute; intuition discriminate].
    + reflexivity.
    + destruct Last as [_ ->];
        [rewrite length_currentExamQuestions; reflexivity|].
      exists s'. split; [exact E|]. split; [reflexivity|].
      rewrite Hist. vm_compute in Hq. injection Hq as <-. reflexivity.
Defined.

Lemma submitAnswer_throws_witness :
  App.submitAnswer sampleToString sampleEnv sampleSession <> TypeError.
Proof.
  apply (proj2 (submitAnswer_throws sampleToString sampleEnv sampleSession)).
  split; [now left | rewrite length_currentExamQuestions; cbn; lia].
Defined.

Lemma submitAnswer_copies_agree_witness :
  LegacyApp.submitAnswer sampleSession
  = App.submitAnswer sampleToString sampleEnv sampleSession.
Proof.
  apply (submitAnswer_copies_agree sampleToString sampleEnv sampleSession).
  reflexivity.
Defined.

(** ** Going back and forth *)

(** [resetAnswer] assigns the pending input only. *)
Lemma resetAnswer_eq s :
  App.resetAnswer s
  = App.setUserAnswer
      (emptyFormAt (currentExamQuestions s) (currentQuestionIndex s)) s.
Proof.
  unfold App.resetAnswer, App.currentIsMulti, emptyFormAt.
  rewrite currentQuestion_at.
  destruct (App.at_ _ _) as [q|]; [destruct (eqb (type q) s_multi)|];
    reflexivity.
Qed.

Lemma hasAnswer_reset x f :
  App.hasAnswer (App.setFeedback f (App.resetAnswer x)) = false.
Proof.
  rewrite resetAnswer_eq. unfold App.hasAnswer, App.currentIsMulti.
  rewrite currentQuestion_at. cbn -[emptyFormAt]. views.
  unfold emptyFormAt.
  destruct (App.at_ (currentExamQuestions x) (currentQuestionIndex x))
    as [q|]; [destruct (eqb (type q) s_multi) eqn:M|]; cbn; rewrite ?M;
    reflexivity.
Qed.

Section BackAndForth.

Variable numberToString : spec_float -> jsstring.

(** X5: going back one question and submitting without selecting
    anything leads to the question one came from: the state is the one
    before, with the pending input emptied and the feedback cleared; no
    answer is lost or added and the timer is not armed. *)
Theorem previous_then_skip env s :
  PointerInRange s ->
  (0 < currentQuestionIndex s)%Z ->
  App.submitAnswer numberToString env (App.previousQuestion s)
  = Returned (App.setFeedback None (App.resetAnswer s)) false.
Proof.
  intros [_ Hlt] Hpos. unfold App.previousQuestion.
  replace (0 <? currentQuestionIndex s)%Z with true
    by (symmetry; apply Z.ltb_lt; lia).
  unfold App.submitAnswer.
  rewrite (recordAnswer_no_answer _
             (hasAnswer_reset
                (App.setIndex (currentQuestionIndex s - 1) s) None)).
  unfold App.isLastQuestion. rewrite !resetAnswer_eq.
  cbn -[emptyFormAt]. views.
  replace (currentQuestionIndex s - 1
           <? Z.of_nat (List.length (currentExamQuestions s)) - 1)%Z
    with true by (symmetry; apply Z.ltb_lt; lia).
  cbn [negb]. f_equal.
  replace (currentQuestionIndex s - 1 + 1)%Z with (currentQuestionIndex s)
    by lia.
  reflexivity.
Qed.

End BackAndForth.

Lemma previous_then_skip_witness :
  App.submitAnswer sampleToString sampleEnv
    (App.previousQuestion (App.setIndex 1 staleFeedbackSession))
  = Returned
      (App.setFeedback None
         (App.resetAnswer (App.setIndex 1 staleFeedbackSession))) false.
Proof.
  apply (previous_then_skip sampleToString sampleEnv
           (App.setIndex 1 staleFeedbackSession)).
  - unfold PointerInRange. rewrite length_currentExamQuestions. cbn. lia.
  - cbn. lia.
Defined.

(** ** What every session event keeps *)

Lemma jumpToQuestion_frame index s :
  currentExamAnswers (App.jumpToQuestion index s) = currentExamAnswers s /\
  currentExamCorrect (App.jumpToQuestion index s) = currentExamCorrect s /\
  currentExamIncorrect (App.jumpToQuestion index s)
  = currentExamIncorrect s.
Proof.
  unfold App.jumpToQuestion. rewrite resetAnswer_eq. repeat split.
Qed.

Lemma jumpToQuestion_rest index s :
  questions (App.jumpToQuestion index s) = questions s /\
  currentExamQuestions (App.jumpToQuestion index s)
  = currentExamQuestions s /\
  examHistory (App.jumpToQuestion index s) = examHistory s /\
  consecutiveCorrectThreshold (App.jumpToQuestion index s)
  = consecutiveCorrectThreshold s.
Proof.
  unfold App.jumpToQuestion. rewrite resetAnswer_eq. repeat split.
Qed.

Lemma jumpToQuestion_range index s :
  currentExamQuestions (App.jumpToQuestion index s)
  = currentExamQuestions s /\
  currentQuestionIndex (App.jumpToQuestion index s) = index.
Proof.
  unfold App.jumpToQuestion. rewrite resetAnswer_eq. repeat split.
Qed.

Lemma jumpToQuestion_store index s :
  let s' := App.jumpToQuestion index s in
  objects s' = objects s /\
  questionRefs s' = questionRefs s /\
  examQuestionRefs s' = examQuestionRefs s /\
  arrays s' = arrays s /\
  examAnswersRef s' = examAnswersRef s /\
  historyEntries s' = historyEntries s.
Proof.
  unfold App.jumpToQuestion. rewrite resetAnswer_eq. repeat split.
Qed.

Lemma startExam_range s :
  App.availableQuestions s <> [] ->
  PointerInRange (App.startExam s) /\
  currentExamAnswers (App.startExam s) = [].
Proof.
  intros Hne.
  destruct (startExam_fields s Hne) as (_ & _ & X & I & _ & A & _).
  unfold PointerInRange. rewrite X, I, A.
  destruct (App.availableQuestions s); [congruence|].
  cbn [List.length]. split; [lia | reflexivity].
Qed.

Lemma startExam_frame s :
  questions (App.startExam s) = questions s /\
  examHistory (App.startExam s) = examHistory s /\
  consecutiveCorrectThreshold (App.startExam s)
  = consecutiveCorrectThreshold s.
Proof.
  destruct (App.availableQuestions s) as [|q l] eqn:E.
  - rewrite (startExam_none s E). tauto.
  - destruct (startExam_fields s)
      as (_ & _ & _ & _ & _ & _ & _ & _ & _ & Q & H & T & _);
      [congruence | tauto].
Qed.

Lemma previousQuestion_frame s :
  let s' := App.previousQuestion s in
  currentPage s' = currentPage s /\
  questions s' = questions s /\
  currentExamQuestions s' = currentExamQuestions s /\
  currentExamAnswers s' = currentExamAnswers s /\
  currentExamCorrect s' = currentExamCorrect s /\
  currentExamIncorrect s' = currentExamIncorrect s /\
  examHistory s' = examHistory s /\
  consecutiveCorrectThreshold s' = consecutiveCorrectThreshold s /\
  (currentQuestionIndex s'
   = if (0 <? currentQuestionIndex s)%Z then currentQuestionIndex s - 1
     else currentQuestionIndex s)%Z.
Proof.
  unfold App.previousQuestion.
  destruct (0 <? currentQuestionIndex s)%Z; [|cbn; tauto].
  rewrite resetAnswer_eq. repeat split.
Qed.

Lemma previousQuestion_store s :
  let s' := App.previousQuestion s in
  objects s' = objects s /\
  questionRefs s' = questionRefs s /\
  examQuestionRefs s' = examQuestionRefs s /\
  arrays s' = arrays s /\
  examAnswersRef s' = examAnswersRef s /\
  historyEntries s' = historyEntries s.
Proof.
  unfold App.previousQuestion.
  destruct (0 <? currentQuestionIndex s)%Z; [|cbn; tauto].
  rewrite resetAnswer_eq. repeat split.
Qed.

(** What the first half of [submitAnswer] does to the fields. *)
Lemma recordAnswer_grows s s1 :
  App.recordAnswer s = Some s1 ->
  currentQuestionIndex s1 = currentQuestionIndex s /\
  consecutiveCorrectThreshold s1 = consecutiveCorrectThreshold s /\
  exists more,
    currentExamAnswers s1 = currentExamAnswers s ++ more /\
    (List.length more <= 1)%nat.
Proof.
  unfold App.recordAnswer.
  destruct (App.hasAnswer s).
  - destruct (App.currentQuestion s) as [q|]; [|discriminate].
    destruct (eqb (type q) s_multi).
    + destruct (userAnswer s) as [t|a]; [discriminate|].
      intros [= <-].
      destruct (Utils.checkAnswer _ _ _); views;
        rewrite currentExamAnswers_setAnswers; views;
        (split; [reflexivity|]; split; [reflexivity|]);
        eexists; (split; [reflexivity | cbn; lia]).
    + intros [= <-].
      destruct (Utils.checkAnswer _ _ _); views;
        rewrite currentExamAnswers_setAnswers; views;
        (split; [reflexivity|]; split; [reflexivity|]);
        eexists; (split; [reflexivity | cbn; lia]).
  - intros [= <-]. views. split; [reflexivity|]. split; [reflexivity|].
    exists []. split; [now rewrite app_nil_r | cbn; lia].
Qed.

Lemma finishExam_entries numberToString env s :
  exists new,
    historyEntries (App.finishExam numberToString env s)
    = new ++ historyEntries s /\ (List.length new <= 1)%nat.
Proof.
  unfold App.finishExam.
  destruct (currentExamAnswers s);
    [exists []; split; [reflexivity | cbn; lia]|].
  destruct (confirm env);
    [|exists []; split; [reflexivity | cbn; lia]].
  eexists [_]. split; [reflexivity | cbn; lia].
Qed.

Section Events.

Variable numberToString : spec_float -> jsstring.

Local Abbreviation step := (step numberToString).
Local Abbreviation run := (run numberToString).
Local Abbreviation AllAdmissible := (AllAdmissible numberToString).

(** What [submitAnswer] leaves alone, with or without an answer. *)
Lemma submitAnswer_frame env s s' timer :
  App.submitAnswer numberToString env s = Returned s' timer ->
  questionRefs s' = questionRefs s /\
  (forall r, content (objects s' r) = content (objects s r)) /\
  consecutiveCorrectThreshold s' = consecutiveCorrectThreshold s /\
  examQuestionRefs s' = examQuestionRefs s /\
  examAnswersRef s' = examAnswersRef s /\
  (exists new, historyEntries s' = new ++ historyEntries s /\
               (List.length new <= 1)%nat) /\
  (forall r, r <> examAnswersRef s -> arrays s' r = arrays s r) /\
  (exists more, currentExamAnswers s' = currentExamAnswers s ++ more /\
                (List.length more <= 1)%nat) /\
  (PointerInRange s -> PointerInRange s').
Proof.
  unfold App.submitAnswer.
  destruct (App.recordAnswer s) as [s1|] eqn:E; [|discriminate].
  destruct (recordAnswer_store s s1 E) as (O1 & Q1 & X1 & R1 & H1 & W1).
  destruct (recordAnswer_grows s s1 E) as (I1 & T1 & G1).
  assert (N0 : exists new, historyEntries s1 = new ++ historyEntries s /\
                           (List.length new <= 1)%nat).
  { exists []. split; [exact H1 | cbn; lia]. }
  assert (A1 : forall r, r <> examAnswersRef s -> arrays s1 r = arrays s r).
  { intros r Hr. rewrite W1. now apply write_other. }
  unfold App.isLastQuestion, PointerInRange.
  rewrite !length_currentExamQuestions, X1, I1.
  destruct (Z.ltb_spec (currentQuestionIndex s)
              (Z.of_nat (List.length (examQuestionRefs s)) - 1))
    as [Lt|Ge]; cbn [negb].
  - intros [= <- _]. rewrite resetAnswer_eq.
    cbn -[emptyFormAt]. views.
    rewrite ?length_currentExamQuestions, ?O1, ?Q1, ?X1, ?T1, ?R1.
    repeat split; auto; lia.
  - destruct (App.hasAnswer s1).
    + intros [= <- _].
      rewrite ?length_currentExamQuestions, ?O1, ?Q1, ?X1, ?T1, ?R1, ?I1.
      repeat split; auto; lia.
    + intros [= <- _].
      destruct (finishExam_frame numberToString env s1)
        as (F1 & F2 & _ & F4 & _ & _ & _ & F8).
      destruct (finishExam_store numberToString env s1)
        as (S1 & S2 & S3 & S4 & _).
      destruct (finishExam_entries numberToString env s1)
        as (new & Hn & Ln).
      rewrite ?length_currentExamQuestions, ?F1, ?F2, ?F4, ?F8, ?S1, ?S2,
        ?S3, ?Q1, ?X1, ?T1, ?R1, ?I1.
      repeat split; auto; try lia.
      * intros r. now rewrite S4, O1.
      * exists new. now rewrite Hn, H1.
Qed.

Lemma step_CountersAgree e s :
  CountersAgree s -> CountersAgree (step e s).
Proof.
  intros H. destruct e as [|u|env|env| |index| | |]; cbn.
  - destruct (App.availableQuestions s) eqn:E.
    + now rewrite (startExam_none s E).
    + apply startExam_CountersAgree. congruence.
  - exact H.
  - destruct (App.submitAnswer numberToString env s) as [s' t|] eqn:E;
      [|exact H].
    exact (submitAnswer_CountersAgree numberToString env s s' t H E).
  - destruct (finishExam_frame numberToString env s)
      as (_ & _ & _ & A & _ & C & I & _).
    unfold CountersAgree. now rewrite A, C, I.
  - destruct (previousQuestion_frame s) as (_ & _ & _ & A & C & I & _).
    unfold CountersAgree. now rewrite A, C, I.
  - destruct (jumpToQuestion_frame index s) as (A & C & I).
    unfold CountersAgree. now rewrite A, C, I.
  - exact H.
  - exact H.
  - exact H.
Qed.

Lemma step_PointerInRange e s :
  PointerInRange s -> Admissible e s -> PointerInRange (step e s).
Proof.
  intros H Ad. destruct e as [|u|env|env| |index| | |]; cbn.
  - destruct (App.availableQuestions s) eqn:E.
    + now rewrite (startExam_none s E).
    + destruct (startExam_range s) as [P _]; [congruence | exact P].
  - exact H.
  - destruct (App.submitAnswer numberToString env s) as [s' t|] eqn:E;
      [|exact H].
    now apply (submitAnswer_frame env s s' t E).
  - destruct (finishExam_frame numberToString env s) as (X & Ix & _).
    unfold PointerInRange in *.
    now rewrite !length_currentExamQuestions, X, Ix in *.
  - destruct (previousQuestion_frame s)
      as (_ & _ & X & _ & _ & _ & _ & _ & Ix).
    unfold PointerInRange in *. rewrite X, Ix.
    destruct (Z.ltb_spec 0 (currentQuestionIndex s)); lia.
  - destruct (jumpToQuestion_range index s) as (X & Ix).
    unfold PointerInRange. cbn in Ad. now rewrite X, Ix.
  - exact H.
  - exact H.
  - exact H.
Qed.

(** X6: through every sequence of session events (start, select,
    submit, hand in, back, jump, page changes) the two counters keep
    adding up to the number of recorded answers; and as long as every
    jump goes to an index inside the snapshot, the position pointer
    stays inside the snapshot. *)
Theorem run_invariants (es : list Event) (s : State) :
  (CountersAgree s -> CountersAgree (run es s)) /\
  (PointerInRange s -> AllAdmissible es s -> PointerInRange (run es s)).
Proof.
  revert s. induction es as [|e es IH]; intros s; cbn; [tauto|].
  destruct (IH (step e s)) as [IH1 IH2]. split.
  - intros H. apply IH1. now apply step_CountersAgree.
  - intros H [Ad Rest]. apply IH2; [|exact Rest].
    now apply step_PointerInRange.
Qed.

End Events.

Lemma run_invariants_witness :
  CountersAgree
    (run sampleToString
         [DoStart; DoSelect (Text (str "B")); DoSubmit sampleEnv;
          DoPrevious; DoJump 2; DoSubmit sampleEnv; DoFinish sampleEnv]
         (imported sampleBank 3)) /\
  PointerInRange
    (run sampleToString
         [DoSelect (Text (str "A")); DoJump 1; DoPrevious;
          DoSubmit sampleEnv]
         staleFeedbackSession).
Proof.
  split.
  - apply (proj1 (run_invariants sampleToString _ _)). reflexivity.
  - apply (proj2 (run_invariants sampleToString _ _)).
    + unfold PointerInRange. rewrite length_currentExamQuestions. cbn. lia.
    + cbn. rewrite !length_currentExamQuestions. cbn. repeat split; lia.
Defined.

Section Frame.

Variable numberToString : spec_float -> jsstring.

Local Abbreviation stepN := (step numberToString).
Local Abbreviation runN := (run numberToString).

(** One event and the store. *)
Lemma step_store e s :
  questionRefs (stepN e s) = questionRefs s /\
  (forall r, content (objects (stepN e s) r) = content (objects s r)) /\
  consecutiveCorrectThreshold (stepN e s) = consecutiveCorrectThreshold s /\
  (exists new, historyEntries (stepN e s) = new ++ historyEntries s /\
               (List.length new <= 1)%nat) /\
  (forall h, In h (historyEntries s) ->
     exists more,
       arrays (stepN e s) (entryAnswers h)
       = arrays s (entryAnswers h) ++ more) /\
  (e <> DoStart ->
   examQuestionRefs (stepN e s) = examQuestionRefs s /\
   examAnswersRef (stepN e s) = examAnswersRef s /\
   exists more, currentExamAnswers (stepN e s) = currentExamAnswers s ++ more
                /\ (List.length more <= 1)%nat).
Proof.
  assert (N0 : forall A (l : list A),
             exists new, l = new ++ l /\ (List.length new <= 1)%nat).
  { intros A l. exists []. split; [reflexivity | cbn; lia]. }
  assert (N1 : forall A (l : list A),
             exists more, l = l ++ more /\ (List.length more <= 1)%nat).
  { intros A l. exists []. split; [now rewrite app_nil_r | cbn; lia]. }
  assert (N2 : forall h : HistoryEntry,
             exists more,
               arrays s (entryAnswers h) = arrays s (entryAnswers h) ++ more).
  { intros h. exists []. now rewrite app_nil_r. }
  destruct e as [|u|env|env| |index| | |]; cbn [step].
  - destruct (App.availableQuestions s) as [|q l] eqn:E.
    + rewrite (startExam_none s E). repeat split; auto; congruence.
    + assert (Hne : App.availableQuestions s <> []) by congruence.
      destruct (startExam_fields s Hne)
        as (_ & _ & _ & _ & _ & _ & _ & _ & _ & _ & _ & T & O & Q & H).
      rewrite T, O, Q, H. repeat split; auto; try congruence.
      intros h Hh. exists []. rewrite app_nil_r.
      rewrite (startExam_started s Hne), resetAnswer_eq. cbn.
      apply write_other.
      exact (freshArray_history
               (App.setIndex 0
                  (App.setExamQuestions (App.availableRefs s) s)) h Hh).
  - repeat split; auto; intros; apply N2.
  - destruct (App.submitAnswer numberToString env s) as [s' t|] eqn:E.
    + destruct (submitAnswer_frame numberToString env s s' t E)
        as (Q & O & T & X & R & Hn & W & (more & A & Lm) & _).
      repeat split; auto.
      * intros h Hh.
        destruct (Nat.eq_dec (entryAnswers h) (examAnswersRef s)) as [Eh|Nh].
        -- exists more. rewrite Eh.
           change (arrays s (examAnswersRef s)) with (currentExamAnswers s).
           rewrite <- A. unfold currentExamAnswers. now rewrite R.
        -- exists []. rewrite app_nil_r. now apply W.
      * now exists more.
    + repeat split; auto.
  - destruct (finishExam_frame numberToString env s)
      as (X & _ & _ & A & _ & _ & _ & T).
    destruct (finishExam_store numberToString env s)
      as (Q & W & R & O & _).
    destruct (finishExam_entries numberToString env s) as (new & Hn & Ln).
    rewrite X, A, T, Q, W, R. repeat split; auto. now exists new.
  - destruct (previousQuestion_frame s)
      as (_ & _ & _ & A & _ & _ & _ & T & _).
    destruct (previousQuestion_store s) as (O & Q & X & W & R & H).
    rewrite A, T, O, Q, X, W, R, H. repeat split; auto.
  - destruct (jumpToQuestion_rest index s) as (_ & _ & _ & T).
    destruct (jumpToQuestion_frame index s) as (A & _).
    destruct (jumpToQuestion_store index s) as (O & Q & X & W & R & H).
    rewrite A, T, O, Q, X, W, R, H. repeat split; auto.
  - repeat split; auto; intros; apply N2.
  - repeat split; auto; intros; apply N2.
  - repeat split; auto; intros; apply N2.
Qed.

(** The same over a run. *)
Lemma run_store es : forall s,
  questionRefs (runN es s) = questionRefs s /\
  (forall r, content (objects (runN es s) r) = content (objects s r)) /\
  consecutiveCorrectThreshold (runN es s) = consecutiveCorrectThreshold s /\
  (exists new, historyEntries (runN es s) = new ++ historyEntries s /\
               (List.length new <= List.length es)%nat) /\
  (forall h, In h (historyEntries s) ->
     exists more,
       arrays (runN es s) (entryAnswers h)
       = arrays s (entryAnswers h) ++ more) /\
  (~ In DoStart es ->
   examQuestionRefs (runN es s) = examQuestionRefs s /\
   examAnswersRef (runN es s) = examAnswersRef s /\
   exists more, currentExamAnswers (runN es s) = currentExamAnswers s ++ more
                /\ (List.length more <= List.length es)%nat).
Proof.
  induction es as [|e es IH]; intros s; cbn [run fold_left].
  - repeat split; auto.
    + exists []. split; [reflexivity | cbn; lia].
    + intros h _. exists []. now rewrite app_nil_r.
    + exists []. split; [now rewrite app_nil_r | cbn; lia].
  - fold (stepN e s). fold (runN es (stepN e s)).
    destruct (IH (stepN e s))
      as (Q & O & T & (new & Hn & Ln) & G & Rest).
    destruct (step_store e s)
      as (Q1 & O1 & T1 & (new1 & Hn1 & Ln1) & G1 & Rest1).
    split; [congruence|]. split; [intros r; now rewrite O, O1|].
    split; [congruence|]. split; [|split].
    + exists (new ++ new1). rewrite Hn, Hn1, app_assoc.
      split; [reflexivity|]. rewrite length_app. cbn [List.length]. lia.
    + intros h Hh. destruct (G1 h Hh) as (m1 & E1).
      destruct (G h) as (m & E).
      { rewrite Hn1. apply in_or_app. now right. }
      exists (m1 ++ m). now rewrite E, E1, app_assoc.
    + intros Hno.
      destruct Rest as (X & R & more & A & Lm);
        [intros H; apply Hno; now right|].
      destruct Rest1 as (X1 & R1 & more1 & A1 & Lm1);
        [intros ->; apply Hno; now left|].
      split; [congruence|]. split; [congruence|].
      exists (more1 ++ more). rewrite A, A1, app_assoc.
      split; [reflexivity|]. rewrite length_app. cbn [List.length]. lia.
Qed.

(** X7: no sequence of session events changes anything of the bank but
    statistics (ids, types, prompts, options and answers stay, in the
    same order) or the threshold.  The history only grows at the front,
    by at most one record per event; of an old record the id, the
    timestamps and the score stay, and its answers only grow at the end
    (they grow when the session it belongs to goes on after the
    hand-in, since the record holds the session's answer array).
    Within one session (no new start) the snapshot holds the same
    objects, of which only statistics change, and the answer list only
    grows at the end, by at most one record per event: recorded answers
    are never edited or removed, also not by going back or jumping. *)
Theorem run_frame (es : list Event) (s : State) :
  map content (questions (runN es s)) = map content (questions s) /\
  consecutiveCorrectThreshold (runN es s) = consecutiveCorrectThreshold s /\
  (exists new olds,
     examHistory (runN es s) = new ++ olds /\
     (List.length new <= List.length es)%nat /\
     Forall2 GrownFrom (examHistory s) olds) /\
  (~ In DoStart es ->
   examQuestionRefs (runN es s) = examQuestionRefs s /\
   map content (currentExamQuestions (runN es s))
   = map content (currentExamQuestions s) /\
   exists more, currentExamAnswers (runN es s) = currentExamAnswers s ++ more
                /\ (List.length more <= List.length es)%nat).
Proof.
  destruct (run_store es s) as (Q & O & T & (new & Hn & Ln) & G & Rest).
  split; [|split; [exact T|split]].
  - unfold questions. rewrite Q, !map_map. apply map_ext. exact O.
  - exists (map (readEntry (runN es s)) new),
           (map (readEntry (runN es s)) (historyEntries s)).
    split; [|split].
    + unfold examHistory. now rewrite Hn, map_app.
    + now rewrite length_map.
    + unfold examHistory. clear - G.
      induction (historyEntries s) as [|h l IH]; cbn; constructor.
      * unfold GrownFrom, readEntry. cbn. repeat split.
        apply G. now left.
      * apply IH. intros h' Hh'. apply G. now right.
  - intros Hno. destruct (Rest Hno) as (X & R & more & A & Lm).
    split; [exact X|]. split; [|now exists more].
    unfold currentExamQuestions. rewrite X, !map_map.
    apply map_ext. exact O.
Qed.

End Frame.

Lemma run_frame_witness :
  examQuestionRefs
    (run sampleToString
         [DoSelect (Text (str "A")); DoSubmit sampleEnv; DoPrevious]
         staleFeedbackSession)
  = examQuestionRefs staleFeedbackSession /\
  map content
    (currentExamQuestions
       (run sampleToString
            [DoSelect (Text (str "A")); DoSubmit sampleEnv; DoPrevious]
            staleFeedbackSession))
  = map content (currentExamQuestions staleFeedbackSession) /\
  exists more,
    currentExamAnswers
      (run sampleToString
           [DoSelect (Text (str "A")); DoSubmit sampleEnv; DoPrevious]
           staleFeedbackSession)
    = currentExamAnswers staleFeedbackSession ++ more /\
    (List.length more <= 3)%nat.
Proof.
  apply (proj2 (proj2 (proj2 (run_frame sampleToString
           [DoSelect (Text (str "A")); DoSubmit sampleEnv; DoPrevious]
           staleFeedbackSession)))).
  cbn. intuition discriminate.
Defined.

(** ** Mastery and eligibility *)

Lemma streak_all_correct l : forall c,
  forallb isCorrect l = true ->
  streak c l = c + N.of_nat (List.length l).
Proof.
  unfold streak.
  induction l as [|a l IH]; intros c H; cbn in *; [lia|].
  apply andb_prop in H. destruct H as [Ha Hl]. rewrite Ha.
  rewrite IH by assumption. lia.
Qed.

(** X8: after [updateQuestionStats], the question that [find] returns
    for an id (the first of the bank with that id) is available for the
    next exam again whenever its last answer of the session was
    incorrect and the threshold is positive, whatever its streak was
    before; and when all its answers of the session were correct it is
    available exactly when its former streak plus their number is still
    below the threshold. *)
Theorem mastery_eligibility (s : State) (i : nat) (q : Question) :
  nth_error (questions s) i = Some q ->
  ~ In (id q) (map id (firstn i (questions s))) ->
  let mine := answersFor (id q) (currentExamAnswers s) in
  let q' := App.setStatistics (replay mine (statistics q)) q in
  let s' := App.updateQuestionStats s in
  nth_error (questions s') i = Some q' /\
  ((exists l a, mine = l ++ [a] /\ isCorrect a = false) ->
   0 < consecutiveCorrectThreshold s ->
   In q' (App.availableQuestions s')) /\
  (forallb isCorrect mine = true ->
   (In q' (App.availableQuestions s') <->
    consecutiveCorrect (statistics q) + N.of_nat (List.length mine)
    < consecutiveCorrectThreshold s)).
Proof.
  intros H Hfirst mine q' s'.
  assert (Hn : nth_error (questions s') i = Some q').
  { unfold s'. now apply updateQuestionStats_nth. }
  assert (Hin : In q' (questions s')) by (eapply nth_error_In; eauto).
  destruct (replay_counts mine (statistics q)) as (_ & _ & S & _).
  assert (A : In q' (App.availableQuestions s') <->
              consecutiveCorrect (replay mine (statistics q))
              < consecutiveCorrectThreshold s).
  { unfold App.availableQuestions. rewrite filter_In, N.ltb_lt.
    cbn. tauto. }
  split; [exact Hn|]. split.
  - intros (l & a & E & Ha) Hthr. apply A. rewrite S, E, streak_snoc, Ha.
    exact Hthr.
  - intros Hall. rewrite A, S, streak_all_correct by assumption.
    reflexivity.
Qed.

Lemma mastery_eligibility_witness :
  In (App.setStatistics
        (replay (answersFor (str "3") sampleAnswers) (mkStatistics 2 5 4))
        (mkQuestion (str "3") s_boolean (str "Q3")
           [(str "A", s_right); (str "B", s_wrong)] (str "A")
           (mkStatistics 2 5 4)))
     (App.availableQuestions (App.updateQuestionStats answeredSession)).
Proof.
  apply (proj1 (proj2 (mastery_eligibility answeredSession 2
           (mkQuestion (str "3") s_boolean (str "Q3")
              [(str "A", s_right); (str "B", s_wrong)] (str "A")
              (mkStatistics 2 5 4)) eq_refl
           ltac:(vm_compute; intuition discriminate)))).
  - exists [], (mkAnswerRecord (str "3") (str "Q3") (str "B") (str "A") false).
    split; reflexivity.
  - reflexivity.
Defined.

Lemma recordAttempt_StatsOK b st :
  StatsOK st -> StatsOK (App.recordAttempt b st).
Proof.
  unfold StatsOK, App.recordAttempt. intros [H1 H2].
  destruct b; cbn; lia.
Qed.

Lemma replay_StatsOK l : forall st, StatsOK st -> StatsOK (replay l st).
Proof.
  unfold replay.
  induction l as [|a l IH]; intros st H; cbn; [assumption|].
  apply IH. now apply recordAttempt_StatsOK.
Qed.

Lemma updateQuestionStats_StatsOK s r :
  StatsOK (statistics (objects s r)) ->
  StatsOK (statistics (objects (App.updateQuestionStats s) r)).
Proof.
  intros H. rewrite updateQuestionStats_objects. cbn.
  now apply replay_StatsOK.
Qed.

Lemma Forall_questions (P : Question -> Prop) s s' :
  questionRefs s' = questionRefs s ->
  (forall r, P (objects s r) -> P (objects s' r)) ->
  Forall P (questions s) -> Forall P (questions s').
Proof.
  unfold questions. intros -> H. rewrite !Forall_map.
  apply Forall_impl. exact H.
Qed.

Lemma parseRowsFrom_zero rows :
  Forall (fun q => statistics q = zeroStatistics)
         (Utils.parseRowsFrom rows []).
Proof.
  induction rows as [|r rows IH]; cbn; [constructor|].
  destruct (Utils.parseRow r) as [q|] eqn:E; [|exact IH].
  rewrite parseRowsFrom_acc. cbn. constructor; [|exact IH].
  destruct r as [|i [|ty [|p [|a [|b [|c [|d [|e [|ans rest]]]]]]]]];
    try discriminate.
  injection E as <-. reflexivity.
Qed.

Section StatsInvariant.

Variable numberToString : spec_float -> jsstring.

Lemma finishExam_StatsOK env s r :
  StatsOK (statistics (objects s r)) ->
  StatsOK (statistics (objects (App.finishExam numberToString env s) r)).
Proof.
  intros H. unfold App.finishExam.
  destruct (currentExamAnswers s); [exact H|].
  destruct (confirm env); [|exact H].
  exact (updateQuestionStats_StatsOK s r H).
Qed.

Lemma step_StatsOK e s r :
  StatsOK (statistics (objects s r)) ->
  StatsOK (statistics (objects (step numberToString e s) r)).
Proof.
  intros H. destruct e as [|u|env|env| |index| | |]; cbn [step];
    try exact H.
  - destruct (App.availableQuestions s) as [|q l] eqn:E.
    + now rewrite (startExam_none s E).
    + destruct (startExam_fields s)
        as (_ & _ & _ & _ & _ & _ & _ & _ & _ & _ & _ & _ & O & _);
        [congruence|]. now rewrite O.
  - destruct (App.submitAnswer numberToString env s) as [s' t|] eqn:E;
      [|exact H].
    unfold App.submitAnswer in E.
    destruct (App.recordAnswer s) as [s1|] eqn:R; [|discriminate].
    destruct (recordAnswer_store s s1 R) as (O1 & _).
    destruct (negb (App.isLastQuestion s1)).
    + injection E as <- _. rewrite resetAnswer_eq.
      change (StatsOK (statistics (objects s1 r))). now rewrite O1.
    + destruct (App.hasAnswer s1); injection E as <- _.
      * now rewrite O1.
      * apply finishExam_StatsOK. now rewrite O1.
  - now apply finishExam_StatsOK.
  - destruct (previousQuestion_store s) as (O & _). now rewrite O.
  - destruct (jumpToQuestion_store index s) as (O & _). now rewrite O.
Qed.

(** X9: the statistics of every question satisfy
    [consecutiveCorrect <= correctAttempts <= totalAttempts]: this holds
    for every record the parser makes, [updateQuestionStats] keeps it,
    and so does every sequence of session events. *)
Theorem statistics_invariant :
  (forall text,
     Forall (fun q => StatsOK (statistics q)) (Utils.parseCSVText text)) /\
  (forall s,
     Forall (fun q => StatsOK (statistics q)) (questions s) ->
     Forall (fun q => StatsOK (statistics q))
            (questions (App.updateQuestionStats s))) /\
  (forall es s,
     Forall (fun q => StatsOK (statistics q)) (questions s) ->
     Forall (fun q => StatsOK (statistics q))
            (questions (run numberToString es s))).
Proof.
  split; [|split].
  - intros text. unfold Utils.parseCSVText.
    eapply Forall_impl; [|apply parseRowsFrom_zero].
    intros q ->. unfold StatsOK. cbn. lia.
  - intros s. apply Forall_questions; [reflexivity|].
    apply updateQuestionStats_StatsOK.
  - induction es as [|e es IH]; intros s H; cbn [run fold_left];
      [assumption|].
    apply IH. revert H. apply Forall_questions.
    + apply (step_store numberToString e s).
    + intros r. apply step_StatsOK.
Qed.

End StatsInvariant.

Lemma statistics_invariant_witness :
  Forall (fun q => StatsOK (statistics q))
         (questions (App.updateQuestionStats answeredSession)).
Proof.
  apply (proj1 (proj2 (statistics_invariant sampleToString))).
  repeat constructor; cbn; lia.
Defined.

(** ** Clearing all data *)

(** X10: [clearAllData] does nothing when the user declines; when the
    user confirms, it empties the bank, the session and the history and
    sets the threshold back to 3, while the page and the pending input
    stay; afterwards no exam can be started, nothing can be handed in,
    the score is 0 of 0 with the text [0%], and every position of the
    overview is unanswered. *)
Theorem clearAllData_effect (numberToString : spec_float -> jsstring)
    (env : Env) (s : State) :
  (confirm env = false -> AppMore.clearAllData env s = s) /\
  (confirm env = true ->
   let s' := AppMore.clearAllData env s in
   questions s' = [] /\
   currentExamQuestions s' = [] /\
   currentExamAnswers s' = [] /\
   examHistory s' = [] /\
   lastAnswerFeedback s' = None /\
   consecutiveCorrectThreshold s' = 3 /\
   currentPage s' = currentPage s /\
   userAnswer s' = userAnswer s /\
   App.startExam s' = s' /\
   (forall env', App.finishExam numberToString env' s' = s') /\
   App.currentExamScore numberToString s' = mkScore 0 0 0 (str "0%") /\
   (forall index, AppMore.getQuestionStatus index s' = str "unanswered") /\
   App.currentQuestion s' = None).
Proof.
  unfold AppMore.clearAllData. split; intros ->; cbn [negb].
  - reflexivity.
  - cbv zeta.
    match goal with |- context [App.newAnswers ?x] => set (s0 := x) end.
    match goal with |- context [App.setFeedback ?a ?x] =>
      set (s' := App.setFeedback a x) end.
    assert (A : currentExamAnswers s' = []).
    { unfold s'. views. apply currentExamAnswers_newAnswers. }
    assert (Q : questions s' = []) by reflexivity.
    assert (X : currentExamQuestions s' = []) by reflexivity.
    assert (H : examHistory s' = []) by reflexivity.
    split; [exact Q|]. split; [exact X|]. split; [exact A|].
    split; [exact H|]. do 4 (split; [reflexivity|]).
    split; [|split; [|split; [|split]]].
    + apply startExam_none. unfold App.availableQuestions. now rewrite Q.
    + intros env'. unfold App.finishExam. now rewrite A.
    + unfold App.currentExamScore. now rewrite A.
    + intros index. unfold AppMore.getQuestionStatus, App.at_. rewrite A.
      destruct (index <? 0)%Z; [reflexivity|].
      now destruct (Z.to_nat index).
    + unfold App.currentQuestion. now rewrite X.
Qed.

Lemma clearAllData_effect_witness :
  confirm sampleEnv = true /\
  questions (AppMore.clearAllData sampleEnv answeredSession) = [].
Proof.
  split; [reflexivity|].
  apply (proj2 (clearAllData_effect sampleToString sampleEnv
                  answeredSession) eq_refl).
Defined.

(** ** The overview and the order of the answers *)

Lemma hasAnswer_isAnswerFor s q :
  App.currentQuestion s = Some q ->
  App.hasAnswer s = isAnswerFor q (userAnswer s).
Proof.
  intros Hq. unfold App.hasAnswer, isAnswerFor.
  now rewrite (currentIsMulti_type _ _ Hq).
Qed.

Lemma skipn_nth_error {A : Type} (l : list A) : forall k x,
  nth_error l k = Some x -> skipn k l = x :: skipn (S k) l.
Proof.
  induction l as [|y l IH]; intros [|k] x H; cbn in *; try discriminate.
  - now injection H as ->.
  - now apply IH.
Qed.

Lemma getQuestionStatus_nth i s :
  AppMore.getQuestionStatus (Z.of_nat i) s
  = match nth_error (currentExamAnswers s) i with
    | None => str "unanswered"
    | Some a => if isCorrect a then str "correct" else str "incorrect"
    end.
Proof.
  unfold AppMore.getQuestionStatus, App.at_.
  replace (Z.of_nat i <? 0)%Z with false by (symmetry; apply Z.ltb_ge; lia).
  now rewrite Nat2Z.id.
Qed.

Section Overview.

Variable numberToString : spec_float -> jsstring.
Variable env : Env.

Local Abbreviation submitted := (step numberToString (DoSubmit env)).
Local Abbreviation inTurn := (answerInTurn numberToString env).

Lemma submitted_answer s q :
  App.hasAnswer s = true ->
  App.currentQuestion s = Some q ->
  currentExamAnswers (submitted s)
  = currentExamAnswers s ++ [recorded q (userAnswer s)] /\
  currentExamQuestions (submitted s) = currentExamQuestions s /\
  currentQuestionIndex (submitted s)
  = (if (currentQuestionIndex s
         <? Z.of_nat (List.length (currentExamQuestions s)) - 1)%Z
     then currentQuestionIndex s + 1 else currentQuestionIndex s)%Z /\
  questions (submitted s) = questions s.
Proof.
  intros H Hq.
  destruct (recordAnswer_answered s q H Hq)
    as (s1 & E & A & C & I & F & U & Pg & Q & X & Ix & Hi & Th).
  pose proof (hasAnswer_sorted s q Hq H s1 X Ix U) as H1.
  cbn [step]. unfold App.submitAnswer. rewrite E. unfold App.isLastQuestion.
  rewrite X, Ix, H1.
  destruct (currentQuestionIndex s
            <? Z.of_nat (List.length (currentExamQuestions s)) - 1)%Z;
    cbn [negb].
  - rewrite resetAnswer_eq. views. rewrite A, X, Q. repeat split.
  - rewrite A, X, Ix, Q. auto.
Qed.

Lemma submitted_skip s :
  App.hasAnswer s = false ->
  (currentQuestionIndex s
   < Z.of_nat (List.length (currentExamQuestions s)) - 1)%Z ->
  currentExamAnswers (submitted s) = currentExamAnswers s /\
  currentExamQuestions (submitted s) = currentExamQuestions s /\
  currentQuestionIndex (submitted s) = (currentQuestionIndex s + 1)%Z.
Proof.
  intros H Lt. cbn [step]. unfold App.submitAnswer.
  rewrite (recordAnswer_no_answer _ H). unfold App.isLastQuestion.
  views. cbn [currentQuestionIndex App.setFeedback].
  replace (currentQuestionIndex s
           <? Z.of_nat (List.length (currentExamQuestions s)) - 1)%Z
    with true by (symmetry; apply Z.ltb_lt; lia).
  cbn [negb]. rewrite resetAnswer_eq. views. repeat split.
Qed.

Lemma inTurn_from us : forall s,
  (List.length (currentExamAnswers s) + List.length us
   <= List.length (currentExamQuestions s))%nat ->
  ((List.length (currentExamAnswers s)
    < List.length (currentExamQuestions s))%nat ->
   currentQuestionIndex s
   = Z.of_nat (List.length (currentExamAnswers s))) ->
  forallb (fun p => isAnswerFor (fst p) (snd p))
    (combine (skipn (List.length (currentExamAnswers s))
                    (currentExamQuestions s)) us) = true ->
  currentExamAnswers (inTurn us s)
  = currentExamAnswers s
    ++ verdicts (skipn (List.length (currentExamAnswers s))
                       (currentExamQuestions s)) us /\
  questions (inTurn us s) = questions s.
Proof.
  induction us as [|u r IH]; intros s Len Ptr All.
  - unfold verdicts. rewrite combine_nil. cbn. now rewrite app_nil_r.
  - cbn [List.length] in Len.
    assert (Lt : (List.length (currentExamAnswers s)
                  < List.length (currentExamQuestions s))%nat) by lia.
    specialize (Ptr Lt).
    destruct (nth_error (currentExamQuestions s)
                (List.length (currentExamAnswers s))) as [q|] eqn:Hn;
      [|apply nth_error_None in Hn; lia].
    rewrite (skipn_nth_error _ _ _ Hn) in All |- *.
    cbn [combine forallb fst snd] in All.
    apply andb_prop in All. destruct All as [Hu All].
    set (s0 := App.setUserAnswer u s).
    assert (Hq : App.currentQuestion s0 = Some q).
    { rewrite currentQuestion_at.
      change (currentExamQuestions s0) with (currentExamQuestions s).
      change (currentQuestionIndex s0) with (currentQuestionIndex s).
      rewrite Ptr. unfold App.at_.
      replace (Z.of_nat (List.length (currentExamAnswers s)) <? 0)%Z
        with false by (symmetry; apply Z.ltb_ge; lia).
      now rewrite Nat2Z.id. }
    assert (H : App.hasAnswer s0 = true)
      by (rewrite (hasAnswer_isAnswerFor _ _ Hq); exact Hu).
    destruct (submitted_answer s0 q H Hq) as (A & X & Ix & Qs).
    cbn [answerInTurn]. fold s0.
    change (currentExamAnswers s0) with (currentExamAnswers s) in A.
    change (currentExamQuestions s0) with (currentExamQuestions s) in X, Ix.
    change (currentQuestionIndex s0) with (currentQuestionIndex s) in Ix.
    change (userAnswer s0) with u in A.
    change (questions s0) with (questions s) in Qs.
    assert (L1 : List.length (currentExamAnswers (submitted s0))
                 = S (List.length (currentExamAnswers s))).
    { rewrite A, length_app. cbn. lia. }
    destruct (IH (submitted s0)) as [IA IQ].
    + rewrite L1, X. lia.
    + rewrite L1, X, Ix. intros Lt'.
      replace (currentQuestionIndex s
               <? Z.of_nat (List.length (currentExamQuestions s)) - 1)%Z
        with true by (symmetry; apply Z.ltb_lt; lia).
      lia.
    + rewrite L1, X. exact All.
    + rewrite IA, IQ, L1, X, A, <- app_assoc. split; [reflexivity|exact Qs].
Qed.

(** X11: when a fresh session is answered in turn (every question gets
    an answer before it is submitted), the record at position [i] of
    [currentExamAnswers] is the record of the answer to the question at
    position [i] of the snapshot, so [getQuestionStatus] gives every
    answered position the verdict on its own question and calls the
    others unanswered. *)
Theorem answered_in_turn_overview (us : list UserAnswer) (s : State) :
  currentExamAnswers s = [] ->
  currentQuestionIndex s = 0%Z ->
  (List.length us <= List.length (currentExamQuestions s))%nat ->
  forallb (fun p => isAnswerFor (fst p) (snd p))
          (combine (currentExamQuestions s) us) = true ->
  let s' := inTurn us s in
  currentExamAnswers s' = verdicts (currentExamQuestions s) us /\
  (forall i q u,
     nth_error (currentExamQuestions s) i = Some q ->
     nth_error us i = Some u ->
     AppMore.getQuestionStatus (Z.of_nat i) s'
     = if Utils.checkAnswer u (answer q) (type q)
       then str "correct" else str "incorrect") /\
  (forall i, (List.length us <= i)%nat ->
     AppMore.getQuestionStatus (Z.of_nat i) s' = str "unanswered").
Proof.
  intros A0 I0 Len All s'.
  assert (E : currentExamAnswers s' = verdicts (currentExamQuestions s) us).
  { unfold s'.
    destruct (inTurn_from us s) as [IA _];
      rewrite ?A0; cbn [List.length skipn app]; auto.
    now rewrite IA, A0. }
  split; [exact E|]. split.
  - intros i q u Hq Hu. rewrite getQuestionStatus_nth, E. unfold verdicts.
    rewrite nth_error_map.
    assert (C : nth_error (combine (currentExamQuestions s) us) i
                = Some (q, u)).
    { clear - Hq Hu. revert i us Hq Hu.
      induction (currentExamQuestions s) as [|x l IH];
        intros [|i] [|y us] Hq Hu; cbn in *; try discriminate.
      - congruence.
      - now apply IH. }
    rewrite C. reflexivity.
  - intros i Hi. rewrite getQuestionStatus_nth, E.
    replace (nth_error _ i) with (@None AnswerRecord); [reflexivity|].
    symmetry. apply nth_error_None. unfold verdicts.
    rewrite length_map, length_combine. lia.
Qed.

(** X12: the records are kept in the order of submission, not by
    position: when the first question of a fresh session is passed
    without an answer and the second one is answered, the only record
    is that of the second question, and [getQuestionStatus] reports its
    verdict for position 0 and calls position 1 unanswered. *)
Theorem skipped_question_shifts_overview (u : UserAnswer) (q1 : Question)
    (s : State) :
  currentExamAnswers s = [] ->
  currentQuestionIndex s = 0%Z ->
  App.hasAnswer s = false ->
  nth_error (currentExamQuestions s) 1 = Some q1 ->
  isAnswerFor q1 u = true ->
  let s' := run numberToString [DoSubmit env; DoSelect u; DoSubmit env] s in
  currentExamAnswers s' = [recorded q1 u] /\
  AppMore.getQuestionStatus 0 s'
  = (if Utils.checkAnswer u (answer q1) (type q1)
     then str "correct" else str "incorrect") /\
  AppMore.getQuestionStatus 1 s' = str "unanswered".
Proof.
  intros A0 I0 H0 Hq1 Hu s'.
  assert (Len : (2 <= List.length (currentExamQuestions s))%nat).
  { assert (N : nth_error (currentExamQuestions s) 1 <> None)
      by congruence.
    apply nth_error_Some in N. lia. }
  destruct (submitted_skip s H0) as (A1 & X1 & Ix1); [lia|].
  set (s1 := submitted s) in *.
  set (s2 := App.setUserAnswer u s1).
  assert (Hq : App.currentQuestion s2 = Some q1).
  { rewrite currentQuestion_at.
    change (currentExamQuestions s2) with (currentExamQuestions s1).
    change (currentQuestionIndex s2) with (currentQuestionIndex s1).
    rewrite Ix1, X1, I0. exact Hq1. }
  assert (H : App.hasAnswer s2 = true)
    by (rewrite (hasAnswer_isAnswerFor _ _ Hq); exact Hu).
  destruct (submitted_answer s2 q1 H Hq) as (A2 & _).
  assert (E : currentExamAnswers s' = [recorded q1 u]).
  { change (currentExamAnswers (submitted s2) = [recorded q1 u]).
    rewrite A2.
    change (currentExamAnswers s2) with (currentExamAnswers s1).
    rewrite A1, A0. reflexivity. }
  split; [exact E|].
  rewrite (getQuestionStatus_nth 0), (getQuestionStatus_nth 1), E.
  split; reflexivity.
Qed.

End Overview.

Lemma answered_in_turn_overview_witness :
  currentExamAnswers
    (answerInTurn sampleToString sampleEnv
       [Text (str "B"); Labels [str "C"; str "A"]] freshSession)
  = verdicts (currentExamQuestions freshSession)
             [Text (str "B"); Labels [str "C"; str "A"]].
Proof.
  apply (answered_in_turn_overview sampleToString sampleEnv
           [Text (str "B"); Labels [str "C"; str "A"]] freshSession);
    [reflexivity | reflexivity | vm_compute; lia | reflexivity].
Defined.

Lemma skipped_question_shifts_overview_witness :
  AppMore.getQuestionStatus 0
    (run sampleToString
       [DoSubmit sampleEnv; DoSelect (Labels [str "A"]); DoSubmit sampleEnv]
       freshSession)
  = str "incorrect".
Proof.
  apply (proj1 (proj2 (skipped_question_shifts_overview sampleToString
           sampleEnv (Labels [str "A"])
           (mkQuestion (str "2") s_multi (str "Q2")
              [(str "A", str "x"); (str "B", str "y"); (str "C", str "z")]
              (str "AC") zeroStatistics)
           freshSession eq_refl eq_refl eq_refl eq_refl eq_refl))).
Defined.

(** ** The options marked in review and the verdict on an answer *)

Lemma includes_single s c :
  UtilsMore.includes s [c] = true <-> In c s.
Proof.
  induction s as [|y s IH]; cbn.
  - split; [discriminate | tauto].
  - replace (UtilsMore.startsWith s []) with true by now destruct s.
    rewrite orb_true_iff, andb_true_r, N.eqb_eq, IH.
    split; intros [H|H]; auto.
Qed.

Lemma markedKeys_Permutation q :
  type q = s_multi ->
  Forall singleLabel (map fst (options q)) ->
  NoDup (map fst (options q)) ->
  NoDup (answer q) ->
  (forall c, In c (answer q) -> In [c] (map fst (options q))) ->
  Permutation (markedKeys q) (splitChars (answer q)).
Proof.
  intros Ty Single Keys Ans Cover.
  apply NoDup_Permutation.
  - now apply NoDup_filter.
  - now apply NoDup_splitChars.
  - intros x. unfold markedKeys, UtilsMore.isCorrectOption, splitChars.
    rewrite filter_In, Ty, eqb_refl. split.
    + intros [Hx Inc].
      rewrite Forall_forall in Single.
      destruct (Single x Hx) as (c & ->).
      apply (in_map (fun d => [d])), includes_single, Inc.
    + intros H. apply in_map_iff in H. destruct H as (c & <- & Hc).
      split; [now apply Cover|]. now apply includes_single.
Qed.

(** X13: the verdict of [checkAnswer] agrees with the marking of
    [isCorrectOption]. For a question that is not multi-choice, an
    option key is marked exactly when answering with it is judged
    correct. For a multi-choice question whose option keys are distinct
    single code units and whose answer names each of its keys once, a
    selection of labels is judged correct exactly when it consists of
    the marked keys, in any order. *)
Theorem marked_options_judged_correct (q : Question) :
  (type q <> s_multi ->
   forall k,
     UtilsMore.isCorrectOption q k
     = Utils.checkAnswer (Text k) (answer q) (type q)) /\
  (type q = s_multi ->
   Forall singleLabel (map fst (options q)) ->
   NoDup (map fst (options q)) ->
   NoDup (answer q) ->
   (forall c, In c (answer q) -> In [c] (map fst (options q))) ->
   forall u,
     Forall singleLabel u ->
     (Utils.checkAnswer (Labels u) (answer q) (type q) = true
      <-> Permutation u (markedKeys q))).
Proof.
  split.
  - intros Ty k. unfold UtilsMore.isCorrectOption, Utils.checkAnswer.
    rewrite (proj2 (eqb_neq _ _) Ty). cbn [toString].
    destruct (eqb k (answer q)) eqn:E.
    + apply eqb_eq in E. subst k. apply eqb_refl.
    + destruct (eqb (answer q) k) eqn:E'; [|reflexivity].
      apply eqb_eq in E'. subst k. now rewrite eqb_refl in E.
  - intros Ty Single Keys Ans Cover u Hu.
    pose proof (markedKeys_Permutation q Ty Single Keys Ans Cover) as P.
    rewrite Ty, (checkAnswer_multi_Permutation u (answer q) Hu).
    split; intros H.
    + now rewrite H, P.
    + now rewrite H, <- P.
Qed.

Lemma marked_options_judged_correct_witness :
  Utils.checkAnswer (Labels [str "C"; str "A"]) (str "AC") s_multi = true.
Proof.
  apply (proj2 (marked_options_judged_correct
           (mkQuestion (str "2") s_multi (str "Q2")
              [(str "A", str "x"); (str "B", str "y"); (str "C", str "z")]
              (str "AC") zeroStatistics))
         eq_refl).
  - repeat constructor; eexists; reflexivity.
  - repeat constructor; cbn; intuition discriminate.
  - repeat constructor; cbn; intuition discriminate.
  - cbn. intros c [<-|[<-|[]]]; auto.
  - repeat constructor; eexists; reflexivity.
  - cbn. apply perm_swap.
Defined.

(** ** What [parseCSVRows] returns *)

Lemma trimStart_head s :
  match trimStart s with
  | [] => True
  | c :: _ => isWhiteSpace c = false
  end.
Proof.
  induction s as [|c r IH]; cbn; [exact I|].
  destruct (isWhiteSpace c) eqn:E; [exact IH | exact E].
Qed.

Lemma trimStart_idem s : trimStart (trimStart s) = trimStart s.
Proof.
  pose proof (trimStart_head s) as H.
  destruct (trimStart s) as [|c r]; [reflexivity|]. cbn. now rewrite H.
Qed.

Lemma trimStart_suffix s : exists p, s = p ++ trimStart s.
Proof.
  induction s as [|c r (p & IH)]; cbn; [now exists []|].
  destruct (isWhiteSpace c); [|now exists []].
  exists (c :: p). cbn. now rewrite <- IH.
Qed.

Lemma trim_idem s : trim (trim s) = trim s.
Proof.
  unfold trim.
  pose proof (trimStart_head s) as Ht.
  destruct (trimStart_suffix (rev (trimStart s))) as (p & Hp).
  pose proof (trimStart_idem (rev (trimStart s))) as Hi.
  set (t := trimStart s) in *.
  set (u := trimStart (rev t)) in *.
  assert (K : trimStart (rev u) = rev u).
  { assert (E : t = rev u ++ rev p).
    { rewrite <- rev_app_distr, <- Hp. now rewrite rev_involutive. }
    destruct (rev u) as [|d r] eqn:R; [reflexivity|].
    rewrite E in Ht. cbn in Ht |- *. now rewrite Ht. }
  now rewrite K, rev_involutive, Hi.
Qed.

Lemma scanLine_trimmed line : forall row field inQ,
  Forall (fun w => trim w = w) row ->
  Forall (fun w => trim w = w) (fst (fst (Utils.scanLine line row field inQ))).
Proof.
  remember (List.length line) as n eqn:Hn.
  assert (Le : (List.length line <= n)%nat) by lia. clear Hn.
  revert line Le.
  induction n as [|n IH]; intros [|c rest] Le row field inQ H;
    try exact H; cbn in Le; [lia|].
  cbn [Utils.scanLine].
  destruct (c =? quote).
  - destruct rest as [|c' rest']; [exact H|].
    destruct (inQ && (c' =? quote)); apply IH; cbn in *; auto; lia.
  - destruct ((c =? comma) && negb inQ); apply IH; auto; try lia.
    apply Forall_app. split; [exact H|].
    constructor; [apply trim_idem | constructor].
Qed.

Lemma pushRow_normal rows row :
  Forall NormalRow rows ->
  Forall (fun w => trim w = w) row ->
  Forall NormalRow (Utils.pushRow rows row).
Proof.
  intros Hr Hw. unfold Utils.pushRow.
  destruct (existsb nonEmpty row) eqn:E; [|exact Hr].
  apply Forall_app. split; [exact Hr|]. constructor; [|constructor].
  now split.
Qed.

Lemma snoc_trimmed row field :
  Forall (fun w => trim w = w) row ->
  Forall (fun w => trim w = w) (row ++ [trim field]).
Proof.
  intros H. apply Forall_app. split; [exact H|].
  constructor; [apply trim_idem | constructor].
Qed.

Lemma scanLines_normal lines : forall rows row field inQ,
  Forall NormalRow rows ->
  Forall (fun w => trim w = w) row ->
  Forall NormalRow (fst (fst (fst (Utils.scanLines lines rows row field inQ))))
  /\ Forall (fun w => trim w = w)
            (snd (fst (fst (Utils.scanLines lines rows row field inQ)))).
Proof.
  induction lines as [|line more IH]; intros rows row field inQ Hr Hw;
    cbn [Utils.scanLines]; [now split|].
  pose proof (scanLine_trimmed line row field inQ Hw) as H1.
  destruct (Utils.scanLine line row field inQ) as [[row1 field1] inQ1].
  cbn [fst] in H1.
  destruct inQ1; apply IH; auto.
  apply pushRow_normal; auto using snoc_trimmed.
Qed.

Lemma pushRows_normal rs : forall rows,
  Forall NormalRow rs ->
  fold_left Utils.pushRow (map (map trim) rs) rows = rows ++ rs.
Proof.
  induction rs as [|r rs IH]; intros rows H; cbn.
  - now rewrite app_nil_r.
  - inversion H as [|? ? [Hne Htr] Hrs]; subst.
    assert (E : map trim r = r).
    { clear - Htr. induction Htr as [|w r Hw _ IH]; cbn; congruence. }
    rewrite E. unfold Utils.pushRow at 2. rewrite Hne.
    rewrite IH by assumption. now rewrite <- app_assoc.
Qed.

(** X14: every row [parseCSVRows] returns has a field that is not
    empty, and none of its fields begins or ends with white space;
    writing the returned rows as quoted fields and parsing them again
    gives the same rows. *)
Theorem parseCSVRows_normal (text : jsstring) :
  Forall NormalRow (Utils.parseCSVRows text) /\
  Utils.parseCSVRows (encodeRows (Utils.parseCSVRows text))
  = Utils.parseCSVRows text.
Proof.
  assert (N : Forall NormalRow (Utils.parseCSVRows text)).
  { unfold Utils.parseCSVRows.
    destruct (scanLines_normal (splitLines text) [] [] [] false)
      as [Hr Hw]; [constructor | constructor |].
    destruct (Utils.scanLines (splitLines text) [] [] [] false)
      as [[[rows row] field] inQ].
    cbn [fst snd] in Hr, Hw.
    destruct ((0 <? N.of_nat (List.length row)) || nonEmpty field);
      [|exact Hr].
    apply pushRow_normal; auto using snoc_trimmed. }
  split; [exact N|].
  rewrite parseCSVRows_encodeRows. now rewrite pushRows_normal.
Qed.

(** X15: a table of rows that each have a field that is not empty and
    whose fields neither begin nor end with white space is read back
    unchanged from its quoted form, whatever commas, quotes and line
    feeds its fields hold. *)
Theorem parseCSVRows_round_trip (rs : list (list jsstring)) :
  Forall NormalRow rs ->
  Utils.parseCSVRows (encodeRows rs) = rs.
Proof.
  intros H. rewrite parseCSVRows_encodeRows. now rewrite pushRows_normal.
Qed.

Lemma parseCSVRows_round_trip_witness :
  Utils.parseCSVRows
    (encodeRows [[str "1"; str "a,b" ++ [nl] ++ str "c"; [quote]];
                 [[]; str "x y"]])
  = [[str "1"; str "a,b" ++ [nl] ++ str "c"; [quote]]; [[]; str "x y"]].
Proof.
  apply (parseCSVRows_round_trip
           [[str "1"; str "a,b" ++ [nl] ++ str "c"; [quote]];
            [[]; str "x y"]]).
  repeat constructor.
Defined.

(** ** Texts without quotes *)

Lemma splitOn_nl s : splitOn nl s = splitLines s.
Proof.
  induction s as [|c r IH]; cbn; [reflexivity|]. now rewrite IH.
Qed.

Lemma splitOn_not_nil d s : splitOn d s <> [].
Proof.
  destruct s as [|c r]; cbn; [discriminate|].
  destruct (c =? d); [discriminate|].
  destruct (splitOn d r); discriminate.
Qed.

Lemma scanLine_plain line : forall row field,
  ~ In quote line ->
  exists row1 field1,
    Utils.scanLine line row field false = (row1, field1, false) /\
    row1 ++ [trim field1]
    = row ++ map trim (prefixed field (splitOn comma line)).
Proof.
  induction line as [|c rest IH]; intros row field NQ.
  - exists row, field. cbn. now rewrite app_nil_r.
  - assert (Hc : c <> quote) by (intros ->; apply NQ; now left).
    assert (NQ' : ~ In quote rest) by (intros H; apply NQ; now right).
    cbn [Utils.scanLine splitOn].
    rewrite (proj2 (N.eqb_neq _ _) Hc).
    destruct (c =? comma) eqn:E; cbn [andb negb].
    + destruct (IH (row ++ [trim field]) [] NQ') as (row1 & field1 & S & R).
      exists row1, field1. split; [exact S|]. rewrite R.
      cbn [prefixed map]. rewrite app_nil_r, <- app_assoc. cbn [app].
      pose proof (splitOn_not_nil comma rest) as NN.
      destruct (splitOn comma rest); [contradiction | reflexivity].
    + destruct (IH row (field ++ [c]) NQ') as (row1 & field1 & S & R).
      exists row1, field1. split; [exact S|]. rewrite R.
      pose proof (splitOn_not_nil comma rest) as NN.
      destruct (splitOn comma rest); [contradiction|].
      cbn [prefixed]. now rewrite <- app_assoc.
Qed.

Lemma splitLines_no_quote text :
  ~ In quote text -> Forall (fun l => ~ In quote l) (splitLines text).
Proof.
  induction text as [|c r IH]; intros NQ; cbn.
  - repeat constructor. intros [].
  - assert (NQ' : ~ In quote r) by (intros H; apply NQ; now right).
    specialize (IH NQ').
    destruct (c =? nl); [constructor; [intros []|exact IH]|].
    destruct (splitLines r) as [|l ls].
    + repeat constructor. intros [->|[]]. apply NQ. now left.
    + inversion IH; subst. constructor; [|assumption].
      intros [->|H]; [apply NQ; now left | contradiction].
Qed.

Lemma scanLines_plain lines : forall rows,
  Forall (fun l => ~ In quote l) lines ->
  Utils.scanLines lines rows [] [] false
  = (fold_left Utils.pushRow (map plainFields lines) rows, [], [], false).
Proof.
  induction lines as [|line more IH]; intros rows H; [reflexivity|].
  inversion H as [|? ? NQ Hm]; subst.
  cbn [Utils.scanLines map fold_left].
  destruct (scanLine_plain line [] [] NQ) as (row1 & field1 & S & R).
  rewrite S, R. cbn [app].
  replace (prefixed [] (splitOn comma line)) with (splitOn comma line).
  - now apply IH.
  - pose proof (splitOn_not_nil comma line) as NN.
    destruct (splitOn comma line); [contradiction | reflexivity].
Qed.

Lemma pushRows_filter rs : forall rows,
  fold_left Utils.pushRow rs rows = rows ++ filter (existsb nonEmpty) rs.
Proof.
  induction rs as [|r rs IH]; intros rows; cbn.
  - now rewrite app_nil_r.
  - rewrite IH. unfold Utils.pushRow.
    destruct (existsb nonEmpty r); [|reflexivity].
    now rewrite <- app_assoc.
Qed.

Lemma parseCSVRows_no_quote text :
  ~ In quote text ->
  Utils.parseCSVRows text
  = filter (existsb nonEmpty) (map plainFields (splitLines text)).
Proof.
  intros NQ. unfold Utils.parseCSVRows.
  rewrite (scanLines_plain _ _ (splitLines_no_quote _ NQ)).
  cbn. apply pushRows_filter.
Qed.

(** X16: on a text without quotes [parseCSVRows] is line-by-line
    splitting: every line is split at its commas, the parts are
    trimmed, and the lines whose parts are all empty are left out; so
    the rows are as many as the lines that have a part which is not
    blank. *)
Theorem parseCSVRows_plain (text : jsstring) :
  ~ In quote text ->
  Utils.parseCSVRows text
  = filter (existsb nonEmpty) (map plainFields (splitLines text)) /\
  List.length (Utils.parseCSVRows text)
  = List.length (filter (fun l => existsb nonEmpty (plainFields l))
                        (splitLines text)).
Proof.
  intros NQ. rewrite (parseCSVRows_no_quote text NQ).
  split; [reflexivity|].
  induction (splitLines text) as [|l ls IH]; cbn; [reflexivity|].
  destruct (existsb nonEmpty (plainFields l)); cbn; now rewrite IH.
Qed.

Lemma parseCSVRows_plain_witness :
  Utils.parseCSVRows (str "a , b" ++ [nl] ++ str " ,, " ++ [nl] ++ str "c")
  = filter (existsb nonEmpty)
      (map plainFields
         (splitLines (str "a , b" ++ [nl] ++ str " ,, " ++ [nl] ++ str "c"))).
Proof.
  apply (proj1 (parseCSVRows_plain
           (str "a , b" ++ [nl] ++ str " ,, " ++ [nl] ++ str "c")
           ltac:(cbn; intuition discriminate))).
Defined.

(** ** The older [parseCSVLine] *)

Lemma join_snoc_append sep l x y :
  join sep (l ++ [x ++ y]) = join sep (l ++ [x]) ++ y.
Proof.
  induction l as [|a l IH]; cbn; [reflexivity|].
  destruct l as [|b l]; cbn in *.
  - now rewrite <- !app_assoc.
  - rewrite IH. now rewrite <- !app_assoc.
Qed.

Lemma join_snoc_empty sep l x :
  join sep ((l ++ [x]) ++ [[]]) = join sep (l ++ [x]) ++ sep.
Proof.
  induction l as [|a l IH]; cbn; [now rewrite app_nil_r|].
  destruct l as [|b l]; cbn in *.
  - now rewrite app_nil_r, <- !app_assoc.
  - rewrite IH. now rewrite <- !app_assoc.
Qed.

Lemma scanFields_join line : forall fields field inQ,
  join [comma] (LegacyUtils.scanFields line fields field inQ)
  = join [comma] (fields ++ [field])
    ++ filter (fun c => negb (c =? quote)) line.
Proof.
  induction line as [|c rest IH]; intros fields field inQ;
    cbn [LegacyUtils.scanFields filter].
  - now rewrite app_nil_r.
  - destruct (c =? quote) eqn:Q; cbn [negb]; [apply IH|].
    destruct ((c =? comma) && negb inQ) eqn:E.
    + apply andb_prop in E. destruct E as [E _].
      apply N.eqb_eq in E. subst c.
      rewrite IH, join_snoc_empty, <- app_assoc. reflexivity.
    + rewrite IH, join_snoc_append, <- app_assoc. reflexivity.
Qed.

Lemma scanFields_plain line : forall fields field,
  ~ In quote line ->
  LegacyUtils.scanFields line fields field false
  = fields ++ prefixed field (splitOn comma line).
Proof.
  induction line as [|c rest IH]; intros fields field NQ.
  - cbn. now rewrite app_nil_r.
  - assert (Hc : c <> quote) by (intros ->; apply NQ; now left).
    assert (NQ' : ~ In quote rest) by (intros H; apply NQ; now right).
    cbn [LegacyUtils.scanFields splitOn].
    rewrite (proj2 (N.eqb_neq _ _) Hc).
    pose proof (splitOn_not_nil comma rest) as NN.
    destruct (c =? comma) eqn:E; cbn [andb negb]; rewrite IH by assumption;
      destruct (splitOn comma rest); try contradiction; cbn [prefixed].
    + now rewrite app_nil_r, <- app_assoc.
    + now rewrite <- app_assoc.
Qed.

(** X17: the older [parseCSVLine] loses nothing but the quotes: its
    fields joined with commas are the line without its quotes; and on
    a line without quotes it is the split at the commas. *)
Theorem legacy_parseCSVLine_join (line : jsstring) :
  join [comma] (LegacyUtils.parseCSVLine line)
  = filter (fun c => negb (c =? quote)) line /\
  (~ In quote line ->
   LegacyUtils.parseCSVLine line = splitOn comma line).
Proof.
  unfold LegacyUtils.parseCSVLine. split.
  - now rewrite scanFields_join.
  - intros NQ. rewrite scanFields_plain by assumption. cbn [app].
    pose proof (splitOn_not_nil comma line) as NN.
    destruct (splitOn comma line); [contradiction | reflexivity].
Qed.

Lemma legacy_parseCSVLine_join_witness :
  LegacyUtils.parseCSVLine (str "a,,b c") = splitOn comma (str "a,,b c").
Proof.
  apply (proj2 (legacy_parseCSVLine_join (str "a,,b c"))).
  cbn. intuition discriminate.
Defined.

(** ** A bank that was just imported *)

Lemma startExam_snapshot s :
  App.availableQuestions s <> [] ->
  currentExamQuestions (App.startExam s) = App.availableQuestions s /\
  currentPage (App.startExam s) = exam /\
  currentQuestionIndex (App.startExam s) = 0%Z.
Proof.
  intros Hne.
  destruct (startExam_fields s Hne) as (P & _ & X & I & _). auto.
Qed.

(** X18: every record [parseCSVText] makes starts with zero statistics,
    so with a positive threshold a bank that holds just the parsed
    records is available as a whole, and [startExam] takes all of it,
    in the order of the file, as the snapshot of the exam. *)
Theorem imported_bank_all_available (text : jsstring) (s : State) :
  questions s = Utils.parseCSVText text ->
  0 < consecutiveCorrectThreshold s ->
  App.availableQuestions s = questions s /\
  (questions s <> [] ->
   currentExamQuestions (App.startExam s) = questions s /\
   currentPage (App.startExam s) = exam).
Proof.
  intros Q Thr.
  assert (A : App.availableQuestions s = questions s).
  { unfold App.availableQuestions. rewrite Q.
    pose proof (parseRowsFrom_zero (tl (Utils.parseCSVRows text))) as Z.
    fold (Utils.parseCSVText text) in Z.
    apply N.ltb_lt in Thr. clear Q.
    induction (Utils.parseCSVText text) as [|q r IH]; [reflexivity|].
    inversion Z as [|? ? Hq Hr]; subst. cbn [filter].
    rewrite Hq. cbn [consecutiveCorrect zeroStatistics].
    rewrite Thr. now rewrite IH. }
  split; [exact A|]. intros Hne.
  destruct (startExam_snapshot s) as (X & P & _); [now rewrite A|].
  rewrite X, A. split; [reflexivity | exact P].
Qed.

Lemma imported_bank_all_available_witness :
  App.availableQuestions
    (imported (Utils.parseCSVText uncheckedText) 3)
  = Utils.parseCSVText uncheckedText.
Proof.
  apply (proj1 (imported_bank_all_available uncheckedText
           (imported (Utils.parseCSVText uncheckedText) 3)
           eq_refl eq_refl)).
Defined.

(** ** Exact percentages *)

(** X19: when the percentage has at most one decimal, that is when
    [1000 * correct = k * total] for an integer [k], the text of
    [calculateAccuracy] is exactly [k / 10] with the decimal [k mod 10]
    and a percent sign, for totals below 2^32; in particular it is
    [100.0%] when all answers are correct and [0.0%] when none is. *)
Theorem calculateAccuracy_exact (numberToString : spec_float -> jsstring)
    (t : N) :
  0 < t < 2 ^ 32 ->
  (forall c k,
     c <= t -> 1000 * c = k * t ->
     Utils.calculateAccuracy numberToString c t
     = Float64.decimal (Z.of_N k / 10) ++ str "."
       ++ [Float64.digit (Z.of_N k mod 10)] ++ str "%") /\
  Utils.calculateAccuracy numberToString t t = str "100.0%" /\
  Utils.calculateAccuracy numberToString 0 t = str "0.0%".
Proof.
  intros Ht.
  assert (E : forall c k,
     c <= t -> 1000 * c = k * t ->
     Utils.calculateAccuracy numberToString c t
     = Float64.decimal (Z.of_N k / 10) ++ str "."
       ++ [Float64.digit (Z.of_N k mod 10)] ++ str "%").
  { intros c k Hc Hk.
    destruct (calculateAccuracy_rounds numberToString c t Ht Hc)
      as (n & -> & Hn & Lo & Hi).
    assert (Hk' : (1000 * Z.of_N c = Z.of_N k * Z.of_N t)%Z) by lia.
    assert (n = Z.of_N k) by nia.
    now subst n. }
  split; [exact E|]. split.
  - rewrite (E t 1000); [reflexivity | lia | lia].
  - rewrite (E 0 0); [reflexivity | lia | lia].
Qed.

Lemma calculateAccuracy_exact_witness :
  Utils.calculateAccuracy sampleToString 7 7 = str "100.0%".
Proof.
  apply (proj1 (proj2 (calculateAccuracy_exact sampleToString 7
                         ltac:(cbn; lia)))).
Defined.

(** ** Colour codes *)

Lemma startsWith_hash r :
  UtilsMore.startsWith (UtilsMore.hash :: r) [UtilsMore.hash] = true.
Proof. cbn. now destruct r. Qed.

(** X20: [rgbToHex] gives no colour exactly for no string and for the
    empty one; every colour it gives begins with [#]; a string that
    begins with [#] is returned as it is, so converting a result again
    changes nothing; and of a string of eight code units the first two
    are left out. *)
Theorem rgbToHex_hash (toUpperCase : jsstring -> jsstring)
    (rgb : option jsstring) :
  let rgbToHex := UtilsMore.rgbToHex toUpperCase in
  (rgbToHex rgb = None <-> rgb = None \/ rgb = Some []) /\
  (forall h, rgbToHex rgb = Some h ->
     UtilsMore.startsWith h [UtilsMore.hash] = true) /\
  rgbToHex (rgbToHex rgb) = rgbToHex rgb /\
  (forall r, rgb = Some r -> List.length r = 8%nat ->
     UtilsMore.startsWith r [UtilsMore.hash] = false ->
     rgbToHex rgb = Some (UtilsMore.hash :: toUpperCase (skipn 2 r))).
Proof.
  cbv zeta. unfold UtilsMore.rgbToHex.
  destruct rgb as [[|c r]|].
  - split; [|split; [|split]].
    + split; auto.
    + discriminate.
    + reflexivity.
    + intros r [= <-]. discriminate.
  - destruct (UtilsMore.startsWith (c :: r) [UtilsMore.hash]) eqn:E.
    + split; [|split; [|split]].
      * split; [discriminate | intros [H|H]; discriminate].
      * intros h [= <-]. exact E.
      * now rewrite E.
      * intros r' [= <-] _ H. congruence.
    + split; [|split; [|split]].
      * split; [discriminate | intros [H|H]; discriminate].
      * intros h [= <-]. apply startsWith_hash.
      * now rewrite startsWith_hash.
      * intros r' [= <-] L _. now rewrite L.
  - split; [|split; [|split]].
    + split; auto.
    + discriminate.
    + reflexivity.
    + discriminate.
Qed.

Lemma rgbToHex_hash_witness :
  UtilsMore.rgbToHex (fun r => r) (Some (str "FF00A0B1"))
  = Some (UtilsMore.hash :: str "00A0B1").
Proof.
  apply (proj2 (proj2 (proj2 (rgbToHex_hash (fun r => r)
                                (Some (str "FF00A0B1")))))
           (str "FF00A0B1") eq_refl eq_refl eq_refl).
Defined.

(** ** Shuffling *)

Lemma nth_error_middle {A : Type} (a : list A) : forall i x,
  nth_error a i = Some x ->
  a = firstn i a ++ x :: skipn (S i) a.
Proof.
  intros i x H. rewrite <- (skipn_nth_error a i x H).
  symmetry. apply firstn_skipn.
Qed.

Lemma nth_error_replaced {A : Type} (a : list A) : forall i j (v : A),
  (i < List.length a)%nat ->
  nth_error (firstn i a ++ v :: skipn (S i) a) j
  = if (j =? i)%nat then Some v else nth_error a j.
Proof.
  induction a as [|h t IH]; intros i j v Hi; cbn in Hi; [lia|].
  destruct i as [|i]; destruct j as [|j]; cbn; try reflexivity.
  apply IH. lia.
Qed.

Lemma middle_Permutation {A : Type} (a : list A) i x :
  nth_error a i = Some x ->
  Permutation a (x :: firstn i a ++ skipn (S i) a).
Proof.
  intros H.
  pose proof (Permutation_middle (firstn i a) (skipn (S i) a) x) as P.
  rewrite <- (nth_error_middle a i x H) in P. symmetry. exact P.
Qed.

Lemma swap_Permutation {A : Type} (i j : nat) (a : list A) :
  Permutation (UtilsMore.swap i j a) a.
Proof.
  unfold UtilsMore.swap.
  destruct (nth_error a i) as [x|] eqn:Hi; [|reflexivity].
  destruct (nth_error a j) as [y|] eqn:Hj; [|reflexivity].
  cbv zeta.
  set (a1 := firstn i a ++ y :: skipn (S i) a).
  assert (Li : (i < List.length a)%nat)
    by (apply nth_error_Some; congruence).
  assert (Hj1 : nth_error a1 j = Some y).
  { unfold a1. rewrite nth_error_replaced by assumption.
    destruct (j =? i)%nat; [reflexivity | exact Hj]. }
  pose proof (middle_Permutation a i x Hi) as Pa.
  pose proof (middle_Permutation a1 j y Hj1) as P1.
  assert (P0 : Permutation a1 (y :: firstn i a ++ skipn (S i) a))
    by (symmetry; apply Permutation_middle).
  apply (Permutation_cons_inv (a := y)).
  transitivity (y :: x :: firstn j a1 ++ skipn (S j) a1).
  { constructor. symmetry. apply Permutation_middle. }
  transitivity (x :: a1).
  { rewrite perm_swap. constructor. symmetry. exact P1. }
  transitivity (x :: y :: firstn i a ++ skipn (S i) a).
  { constructor. exact P0. }
  rewrite perm_swap. constructor. symmetry. exact Pa.
Qed.

Lemma shuffleFrom_Permutation {A : Type} (pick : nat -> nat) (i : nat) :
  forall a : list A, Permutation (UtilsMore.shuffleFrom pick i a) a.
Proof.
  induction i as [|i IH]; intros a; cbn; [reflexivity|].
  rewrite IH. apply swap_Permutation.
Qed.

(** X21: [shuffleArray] returns a rearrangement of its argument: the
    same elements, each as often as before, and so as many.  The draws
    are those of the code, [pick i] between 0 and [i], for which both
    indices of every swap are inside the array. *)
Theorem shuffleArray_Permutation {A : Type} (pick : nat -> nat)
    (array : list A) :
  (forall i, (pick i <= i)%nat) ->
  Permutation (UtilsMore.shuffleArray pick array) array /\
  List.length (UtilsMore.shuffleArray pick array) = List.length array.
Proof.
  intros _.
  assert (P : Permutation (UtilsMore.shuffleArray pick array) array)
    by apply shuffleFrom_Permutation.
  split; [exact P | now apply Permutation_length].
Qed.

Lemma shuffleArray_Permutation_witness :
  Permutation (UtilsMore.shuffleArray (fun _ => O) [1; 2; 3; 4; 5])
              [1; 2; 3; 4; 5].
Proof.
  apply (proj1 (shuffleArray_Permutation (fun _ => O) [1; 2; 3; 4; 5]
                  (fun i => Nat.le_0_l i))).
Defined.

(** ** Answering a question again *)

(** X22: an answer is never replaced: when a question that is not the
    last one is answered, the user goes back to it and answers it
    again, both records are kept, in the order they were given, so the
    question counts twice in the total of the score. *)
Theorem answering_again_appends (numberToString : spec_float -> jsstring)
    (env : Env) (u1 u2 : UserAnswer) (q : Question) (s : State) :
  App.currentQuestion s = Some q ->
  (currentQuestionIndex s
   < Z.of_nat (List.length (currentExamQuestions s)) - 1)%Z ->
  isAnswerFor q u1 = true ->
  isAnswerFor q u2 = true ->
  let s' :=
    run numberToString
      [DoSelect u1; DoSubmit env; DoPrevious; DoSelect u2; DoSubmit env] s in
  currentExamAnswers s'
  = currentExamAnswers s ++ [recorded q u1; recorded q u2] /\
  currentQuestionIndex s' = (currentQuestionIndex s + 1)%Z /\
  total (App.currentExamScore numberToString s')
  = N.of_nat (List.length (currentExamAnswers s)) + 2.
Proof.
  intros Hq Lt H1 H2 s'.
  assert (Pos : (0 <= currentQuestionIndex s)%Z).
  { rewrite currentQuestion_at in Hq. unfold App.at_ in Hq.
    destruct (Z.ltb_spec (currentQuestionIndex s) 0); [discriminate | lia]. }
  set (s1 := App.setUserAnswer u1 s).
  assert (Hq1 : App.currentQuestion s1 = Some q) by exact Hq.
  assert (Ha1 : App.hasAnswer s1 = true)
    by (rewrite (hasAnswer_isAnswerFor _ _ Hq1); exact H1).
  destruct (submitted_answer numberToString env s1 q Ha1 Hq1)
    as (A2 & X2 & I2 & _).
  set (s2 := step numberToString (DoSubmit env) s1) in *.
  change (currentExamAnswers s1) with (currentExamAnswers s) in A2.
  change (currentExamQuestions s1) with (currentExamQuestions s) in X2, I2.
  change (currentQuestionIndex s1) with (currentQuestionIndex s) in I2.
  change (userAnswer s1) with u1 in A2.
  replace (currentQuestionIndex s
           <? Z.of_nat (List.length (currentExamQuestions s)) - 1)%Z
    with true in I2 by (symmetry; apply Z.ltb_lt; lia).
  destruct (previousQuestion_frame s2)
    as (_ & _ & X3 & A3 & _ & _ & _ & _ & I3).
  set (s3 := App.previousQuestion s2) in *.
  replace (0 <? currentQuestionIndex s2)%Z with true in I3
    by (symmetry; apply Z.ltb_lt; lia).
  set (s4 := App.setUserAnswer u2 s3).
  assert (Hq4 : App.currentQuestion s4 = Some q).
  { rewrite currentQuestion_at.
    change (currentExamQuestions s4) with (currentExamQuestions s3).
    change (currentQuestionIndex s4) with (currentQuestionIndex s3).
    rewrite X3, X2, I3, I2.
    replace (currentQuestionIndex s + 1 - 1)%Z with (currentQuestionIndex s)
      by lia.
    rewrite currentQuestion_at in Hq. exact Hq. }
  assert (Ha4 : App.hasAnswer s4 = true)
    by (rewrite (hasAnswer_isAnswerFor _ _ Hq4); exact H2).
  destruct (submitted_answer numberToString env s4 q Ha4 Hq4)
    as (A5 & X5 & I5 & _).
  change (currentExamAnswers s4) with (currentExamAnswers s3) in A5.
  change (currentExamQuestions s4) with (currentExamQuestions s3) in I5.
  change (currentQuestionIndex s4) with (currentQuestionIndex s3) in I5.
  change (userAnswer s4) with u2 in A5.
  rewrite X3, X2, I3, I2 in I5.
  replace (currentQuestionIndex s + 1 - 1
           <? Z.of_nat (List.length (currentExamQuestions s)) - 1)%Z
    with true in I5 by (symmetry; apply Z.ltb_lt; lia).
  change s' with (step numberToString (DoSubmit env) s4).
  rewrite A3, A2, <- app_assoc in A5. cbn [app] in A5.
  split; [exact A5|]. split; [rewrite I5; lia|].
  cbn [App.currentExamScore total]. rewrite A5, length_app. cbn. lia.
Qed.

Lemma answering_again_appends_witness :
  currentExamAnswers
    (run sampleToString
       [DoSelect (Text (str "A")); DoSubmit sampleEnv; DoPrevious;
        DoSelect (Text (str "B")); DoSubmit sampleEnv] freshSession)
  = [recorded (mkQuestion (str "1") s_single (str "Q1")
                 [(str "A", str "x"); (str "B", str "y")] (str "B")
                 zeroStatistics) (Text (str "A"));
     recorded (mkQuestion (str "1") s_single (str "Q1")
                 [(str "A", str "x"); (str "B", str "y")] (str "B")
                 zeroStatistics) (Text (str "B"))].
Proof.
  apply (proj1 (answering_again_appends sampleToString sampleEnv
           (Text (str "A")) (Text (str "B"))
           (mkQuestion (str "1") s_single (str "Q1")
              [(str "A", str "x"); (str "B", str "y")] (str "B")
              zeroStatistics)
           freshSession eq_refl eq_refl eq_refl eq_refl)).
Defined.

(** ** From an exam to the statistics *)

Lemma NoDup_map_filter {A B : Type} (f : A -> B) (p : A -> bool) l :
  NoDup (map f l) -> NoDup (map f (filter p l)).
Proof.
  induction l as [|x l IH]; intros H; cbn in *; [constructor|].
  inversion H as [|? ? Hx Hl]; subst.
  destruct (p x); cbn; [constructor|]; auto.
  intros I. apply Hx. apply in_map_iff in I. destruct I as (y & E & Iy).
  apply in_map_iff. exists y. split; [exact E|].
  now apply filter_In in Iy.
Qed.

Lemma NoDup_map_inj {A B : Type} (f : A -> B) l x y :
  NoDup (map f l) -> In x l -> In y l -> f x = f y -> x = y.
Proof.
  induction l as [|z l IH]; intros H Ix Iy E; [contradiction|].
  cbn in H. inversion H as [|? ? Hz Hl]; subst.
  destruct Ix as [->|Ix]; destruct Iy as [->|Iy]; auto.
  - exfalso. apply Hz. rewrite E. now apply in_map.
  - exfalso. apply Hz. rewrite <- E. now apply in_map.
Qed.

Lemma In_verdicts a qs : forall us,
  In a (verdicts qs us) ->
  exists i q u,
    nth_error qs i = Some q /\ nth_error us i = Some u /\ a = recorded q u.
Proof.
  unfold verdicts.
  induction qs as [|q0 qs IH]; intros [|u0 us] H; cbn in H;
    try contradiction.
  destruct H as [<-|H].
  - now exists O, q0, u0.
  - destruct (IH us H) as (i & q & u & Hq & Hu & E).
    now exists (S i), q, u.
Qed.

Lemma answersFor_verdicts_none qid qs us :
  ~ In qid (map id qs) -> answersFor qid (verdicts qs us) = [].
Proof.
  intros N. unfold answersFor.
  destruct (filter _ (verdicts qs us)) as [|a r] eqn:E; [reflexivity|].
  exfalso.
  assert (I : In a (filter (fun a => eqb (questionId a) qid)
                           (verdicts qs us)))
    by (rewrite E; now left).
  apply filter_In in I. destruct I as [I Q].
  destruct (In_verdicts _ _ _ I) as (i & q & u & Hq & _ & ->).
  apply eqb_eq in Q. cbn in Q. apply N. rewrite <- Q.
  apply in_map. eapply nth_error_In; eauto.
Qed.

Lemma answersFor_verdicts_at qs : forall us i q u,
  NoDup (map id qs) ->
  nth_error qs i = Some q ->
  nth_error us i = Some u ->
  answersFor (id q) (verdicts qs us) = [recorded q u].
Proof.
  induction qs as [|q0 qs IH]; intros [|u0 us] [|i] q u N Hq Hu;
    cbn in Hq, Hu; try discriminate;
    cbn in N; inversion N as [|? ? N0 N1]; subst.
  - injection Hq as ->. injection Hu as ->.
    unfold verdicts. cbn [combine map fst snd].
    unfold answersFor. cbn [filter recorded questionId].
    rewrite eqb_refl. f_equal.
    now apply answersFor_verdicts_none.
  - unfold verdicts. cbn [combine map fst snd].
    unfold answersFor. cbn [filter recorded questionId].
    replace (eqb (id q0) (id q)) with false.
    + exact (IH us i q u N1 Hq Hu).
    + symmetry. apply eqb_neq. intros E. apply N0. rewrite E.
      apply in_map. eapply nth_error_In; eauto.
Qed.

(** X23: an exam from its start to the statistics. In a bank with
    distinct ids, when the questions of a new exam are answered in turn
    (all of them or the first ones) and the exam is handed in and
    confirmed, the report is shown; every answered question is still at
    its place in the bank, with the same id, type, prompt, options and
    answer, and its statistics have got exactly one attempt, that of
    its own answer: one more attempt in total, one more correct attempt
    when the answer was right, and a streak that is one longer after a
    right answer and zero after a wrong one; every other question of
    the bank is as it was. *)
Theorem exam_updates_statistics (numberToString : spec_float -> jsstring)
    (env : Env) (us : list UserAnswer) (s : State) :
  NoDup (map id (questions s)) ->
  confirm env = true ->
  us <> [] ->
  (List.length us <= List.length (App.availableQuestions s))%nat ->
  forallb (fun p => isAnswerFor (fst p) (snd p))
          (combine (App.availableQuestions s) us) = true ->
  let s' :=
    App.finishExam numberToString env
      (answerInTurn numberToString env us (App.startExam s)) in
  currentPage s' = report /\
  (forall i q u,
     nth_error (App.availableQuestions s) i = Some q ->
     nth_error us i = Some u ->
     let right := Utils.checkAnswer u (answer q) (type q) in
     exists j q',
       nth_error (questions s) j = Some q /\
       nth_error (questions s') j = Some q' /\
       content q' = content q /\
       statistics q' = App.recordAttempt right (statistics q) /\
       totalAttempts (statistics q') = totalAttempts (statistics q) + 1 /\
       correctAttempts (statistics q')
       = correctAttempts (statistics q) + (if right then 1 else 0) /\
       consecutiveCorrect (statistics q')
       = (if right then consecutiveCorrect (statistics q) + 1 else 0)) /\
  (forall j q,
     nth_error (questions s) j = Some q ->
     (forall i, nth_error (App.availableQuestions s) i = Some q ->
                (List.length us <= i)%nat) ->
     nth_error (questions s') j = Some q).
Proof.
  intros ND Cf Hus Len All s'.
  assert (Hne : App.availableQuestions s <> []).
  { intros E. rewrite E in Len. destruct us; [congruence | cbn in Len; lia]. }
  destruct (startExam_snapshot s Hne) as (X & _ & I0).
  destruct (startExam_range s Hne) as (_ & A0).
  destruct (startExam_frame s) as (Q0 & _).
  set (s1 := App.startExam s) in *.
  destruct (inTurn_from numberToString env us s1) as [A2 Q2].
  { rewrite A0, X. cbn. exact Len. }
  { rewrite A0. intros _. exact I0. }
  { rewrite A0, X. exact All. }
  rewrite A0, X in A2. cbn [List.length skipn app] in A2.
  rewrite Q0 in Q2.
  set (s2 := answerInTurn numberToString env us s1) in *.
  clearbody s2.
  assert (Q' : questions s' = questions (App.updateQuestionStats s2)
               /\ currentPage s' = report).
  { unfold s', App.finishExam. rewrite A2.
    destruct (verdicts (App.availableQuestions s) us) as [|a r] eqn:V.
    - exfalso. unfold verdicts in V.
      destruct (App.availableQuestions s); [congruence|].
      destruct us; [congruence | discriminate].
    - rewrite Cf. cbn [negb]. split; reflexivity. }
  destruct Q' as [Q' P']. split; [exact P'|]. rewrite Q'.
  pose proof (NoDup_map_filter id
                (fun q => consecutiveCorrect (statistics q)
                          <? consecutiveCorrectThreshold s)
                (questions s) ND) as NDa.
  fold (App.availableQuestions s) in NDa.
  split.
  - intros i q u Hq Hu right.
    assert (Iq : In q (questions s)).
    { apply nth_error_In in Hq. unfold App.availableQuestions in Hq.
      now apply filter_In in Hq. }
    destruct (In_nth_error _ _ Iq) as (j & Hj).
    exists j, (App.setStatistics
                 (App.recordAttempt right (statistics q)) q).
    split; [exact Hj|]. split.
    + rewrite (updateQuestionStats_nth s2 j q);
        rewrite ?Q2; [|exact Hj|exact (NoDup_ids_first _ _ _ ND Hj)].
      now rewrite A2, (answersFor_verdicts_at _ _ i q u NDa Hq Hu).
    + destruct q as [qi qt qq qo qa st]. unfold App.recordAttempt.
      destruct right; cbn; repeat split; lia.
  - intros j q Hj Out. apply updateQuestionStats_other;
      [now rewrite Q2|].
    rewrite A2. intros a Ia E.
    destruct (In_verdicts _ _ _ Ia) as (i & q' & u & Hq' & Hu & ->).
    cbn in E.
    assert (Iq' : In q' (questions s)).
    { apply nth_error_In in Hq'. unfold App.availableQuestions in Hq'.
      now apply filter_In in Hq'. }
    assert (q' = q).
    { apply (NoDup_map_inj id (questions s)); auto.
      eapply nth_error_In; eauto. }
    subst q'. specialize (Out i Hq').
    assert (i < List.length us)%nat by (apply nth_error_Some; congruence).
    lia.
Qed.

Lemma exam_updates_statistics_witness :
  exists j q',
    nth_error (questions (imported sampleBank 3)) j
    = Some (mkQuestion (str "2") s_multi (str "Q2")
              [(str "A", str "x"); (str "B", str "y"); (str "C", str "z")]
              (str "AC") zeroStatistics) /\
    nth_error
      (questions
         (App.finishExam sampleToString sampleEnv
            (answerInTurn sampleToString sampleEnv
               [Text (str "B"); Labels [str "C"; str "A"]]
               (App.startExam (imported sampleBank 3))))) j
    = Some q' /\
    totalAttempts (statistics q') = 1 /\
    correctAttempts (statistics q') = 1 /\
    consecutiveCorrect (statistics q') = 1.
Proof.
  destruct (proj1 (proj2 (exam_updates_statistics sampleToString sampleEnv
              [Text (str "B"); Labels [str "C"; str "A"]]
              (imported sampleBank 3)
              ltac:(unfold questions; cbn; repeat constructor; cbn;
                    intuition discriminate)
              eq_refl ltac:(discriminate) ltac:(vm_compute; lia) eq_refl))
            1%nat
            (mkQuestion (str "2") s_multi (str "Q2")
               [(str "A", str "x"); (str "B", str "y"); (str "C", str "z")]
               (str "AC") zeroStatistics)
            (Labels [str "C"; str "A"]) eq_refl eq_refl)
    as (j & q' & Hj & Hj' & _ & _ & T & C & S).
  exists j, q'. repeat split; assumption.
Defined.

(** ** The older parser and the revised one *)

Lemma trimStart_ws w :
  forallb isWhiteSpace w = true -> trimStart w = [].
Proof.
  induction w as [|c w IH]; cbn; [reflexivity|].
  intros H. apply andb_prop in H. destruct H as [Hc Hw].
  rewrite Hc. now apply IH.
Qed.

Lemma trimStart_app_ws w y :
  forallb isWhiteSpace w = true -> trimStart (w ++ y) = trimStart y.
Proof.
  induction w as [|c w IH]; cbn; [reflexivity|].
  intros H. apply andb_prop in H. destruct H as [Hc Hw].
  rewrite Hc. now apply IH.
Qed.

Lemma trimStart_app x w :
  trimStart x <> [] -> trimStart (x ++ w) = trimStart x ++ w.
Proof.
  induction x as [|c x IH]; cbn; [congruence|].
  destruct (isWhiteSpace c); [exact IH | reflexivity].
Qed.

Lemma trimStart_nil_ws x :
  trimStart x = [] -> forallb isWhiteSpace x = true.
Proof.
  induction x as [|c x IH]; cbn; [reflexivity|].
  destruct (isWhiteSpace c); [exact IH | discriminate].
Qed.

Lemma trimStart_split s :
  exists p, s = p ++ trimStart s /\ forallb isWhiteSpace p = true.
Proof.
  induction s as [|c r (p & IH & W)]; cbn; [now exists []|].
  destruct (isWhiteSpace c) eqn:E; [|now exists []].
  exists (c :: p). cbn. rewrite E, W. now rewrite <- IH.
Qed.

Lemma forallb_rev {A : Type} (f : A -> bool) l :
  forallb f l = true -> forallb f (rev l) = true.
Proof.
  rewrite !forallb_forall. intros H x Hx. apply H. now apply in_rev.
Qed.

Lemma trim_app_ws x w :
  forallb isWhiteSpace w = true -> trim (x ++ w) = trim x.
Proof.
  intros W. unfold trim.
  destruct (trimStart x) as [|c r] eqn:E.
  - rewrite (trimStart_ws (x ++ w)); [reflexivity|].
    rewrite forallb_app, W, (trimStart_nil_ws _ E). reflexivity.
  - rewrite trimStart_app by congruence. rewrite E, rev_app_distr.
    now rewrite trimStart_app_ws by now apply forallb_rev.
Qed.

Lemma trim_cons_ws c x :
  isWhiteSpace c = true -> trim (c :: x) = trim x.
Proof. intros H. unfold trim. cbn. now rewrite H. Qed.

Lemma trim_nil_ws x : trim x = [] -> forallb isWhiteSpace x = true.
Proof.
  unfold trim. intros H.
  assert (H1 : trimStart (rev (trimStart x)) = []).
  { destruct (trimStart (rev (trimStart x))) as [|c l]; [reflexivity|].
    cbn in H. now destruct (rev l). }
  apply trimStart_nil_ws, forallb_rev in H1. rewrite rev_involutive in H1.
  pose proof (trimStart_head x) as Hd.
  destruct (trimStart x) as [|c r] eqn:E; [now apply trimStart_nil_ws|].
  cbn in H1. rewrite Hd in H1. discriminate.
Qed.

Lemma In_trimStart c x : In c (trimStart x) -> In c x.
Proof.
  induction x as [|d x IH]; cbn; [tauto|].
  destruct (isWhiteSpace d); [auto | tauto].
Qed.

Lemma In_trim c x : In c (trim x) -> In c x.
Proof.
  unfold trim. intros H.
  apply in_rev, In_trimStart in H. apply in_rev in H.
  now apply In_trimStart.
Qed.

Lemma splitOn_none d w : ~ In d w -> splitOn d w = [w].
Proof.
  induction w as [|c w IH]; intros N; cbn; [reflexivity|].
  replace (c =? d) with false
    by (symmetry; apply N.eqb_neq; intros ->; apply N; now left).
  rewrite IH; [reflexivity|]. intros H. apply N. now right.
Qed.

Lemma appendLast_cons x r w :
  r <> [] -> appendLast (x :: r) w = x :: appendLast r w.
Proof. destruct r; [congruence | reflexivity]. Qed.

Lemma splitOn_app_last d m w :
  ~ In d w -> splitOn d (m ++ w) = appendLast (splitOn d m) w.
Proof.
  intros N. induction m as [|c m IH]; cbn [app splitOn].
  - now rewrite splitOn_none.
  - pose proof (splitOn_not_nil d m) as NN. rewrite IH.
    destruct (c =? d).
    + now rewrite appendLast_cons.
    + destruct (splitOn d m) as [|h [|h2 t]]; [contradiction | |];
        reflexivity.
Qed.

Lemma map_trim_appendLast parts w :
  forallb isWhiteSpace w = true -> parts <> [] ->
  map trim (appendLast parts w) = map trim parts.
Proof.
  intros W. induction parts as [|x r IH]; [congruence|]. intros _.
  destruct r as [|y r].
  - cbn. now rewrite trim_app_ws.
  - rewrite appendLast_cons by discriminate.
    cbn [map]. rewrite IH by discriminate. reflexivity.
Qed.

Lemma ws_not_In d w :
  isWhiteSpace d = false -> forallb isWhiteSpace w = true -> ~ In d w.
Proof.
  intros D W H. rewrite forallb_forall in W. rewrite (W d H) in D.
  discriminate.
Qed.

Lemma split_trimStart d l :
  isWhiteSpace d = false ->
  map trim (splitOn d (trimStart l)) = map trim (splitOn d l).
Proof.
  intros D. induction l as [|c r IH]; [reflexivity|].
  cbn [trimStart]. destruct (isWhiteSpace c) eqn:E; [|reflexivity].
  rewrite IH. cbn [splitOn].
  replace (c =? d) with false
    by (symmetry; apply N.eqb_neq; congruence).
  pose proof (splitOn_not_nil d r) as NN.
  destruct (splitOn d r) as [|h t]; [contradiction|].
  cbn [map]. now rewrite trim_cons_ws.
Qed.

Lemma split_trimEnd d l :
  isWhiteSpace d = false ->
  map trim (splitOn d (rev (trimStart (rev l)))) = map trim (splitOn d l).
Proof.
  intros D. destruct (trimStart_split (rev l)) as (p & E & W).
  assert (L : l = rev (trimStart (rev l)) ++ rev p).
  { rewrite <- rev_app_distr, <- E. now rewrite rev_involutive. }
  rewrite L at 2.
  rewrite splitOn_app_last
    by (apply ws_not_In; [exact D | now apply forallb_rev]).
  rewrite map_trim_appendLast;
    [reflexivity | now apply forallb_rev | apply splitOn_not_nil].
Qed.

Lemma split_trim l :
  map trim (splitOn comma (trim l)) = plainFields l.
Proof.
  unfold trim, plainFields.
  rewrite split_trimEnd by reflexivity. now apply split_trimStart.
Qed.

Lemma In_splitOn d l : forall part c,
  In part (splitOn d l) -> In c part -> In c l.
Proof.
  induction l as [|x l IH]; intros part c Hp Hc; cbn in Hp.
  - destruct Hp as [<-|[]]. contradiction.
  - destruct (x =? d).
    + destruct Hp as [<-|Hp]; [contradiction|]. right. eauto.
    + pose proof (splitOn_not_nil d l) as NN.
      destruct (splitOn d l) as [|h t]; [contradiction|].
      destruct Hp as [<-|Hp].
      * destruct Hc as [->|Hc]; [now left|]. right.
        apply (IH h); [now left | exact Hc].
      * right. apply (IH part); [now right | exact Hc].
Qed.

Lemma splitLines_no_nl text :
  Forall (fun l => ~ In nl l) (splitLines text).
Proof.
  induction text as [|c r IH]; cbn.
  - repeat constructor. intros [].
  - destruct (c =? nl) eqn:E; [constructor; [intros []|exact IH]|].
    apply N.eqb_neq in E.
    destruct (splitLines r) as [|l ls].
    + repeat constructor. intros [H|[]]. congruence.
    + inversion IH; subst. constructor; [|assumption].
      intros [H|H]; [congruence | contradiction].
Qed.

Lemma addOption_agree label a a' opts :
  trim a = trim a' -> ~ In nl a' ->
  Utils.addOption label (trim a) opts
  = LegacyUtils.addOption label a' opts.
Proof.
  intros E N. unfold Utils.addOption, LegacyUtils.addOption.
  rewrite trim_idem, E.
  assert (C : collapseNewlines (trim a') = trim a').
  { apply collapseFrom_plain. intros H. apply N. now apply In_trim. }
  rewrite C, andb_diag.
  destruct a' as [|c r]; [reflexivity|]. cbn [nonEmpty andb]. reflexivity.
Qed.

Lemma parseRow_agree fields :
  Forall (fun f => ~ In nl f) fields ->
  Utils.parseRow (map trim fields) = LegacyUtils.parseFields fields.
Proof.
  intros N.
  destruct fields
    as [|i [|ty [|q [|a [|b [|c [|d [|e [|ans rest]]]]]]]]];
    try reflexivity.
  repeat match goal with
         | H : Forall _ (_ :: _) |- _ =>
             let H1 := fresh "N" in
             let H2 := fresh "F" in
             inversion H as [|? ? H1 H2]; subst; clear H
         end.
  cbn [map Utils.parseRow LegacyUtils.parseFields].
  rewrite !trim_idem.
  assert (C : collapseNewlines (trim q) = trim q).
  { apply collapseFrom_plain. intros H. now apply In_trim in H. }
  rewrite C. unfold Utils.buildOptions, LegacyUtils.buildOptions.
  rewrite trim_idem.
  now rewrite !(fun l x y o => addOption_agree l x x o eq_refl y)
    by assumption.
Qed.

Lemma blank_line_no_fields l :
  trim l = [] -> existsb nonEmpty (plainFields l) = false.
Proof.
  intros E. unfold plainFields.
  rewrite splitOn_none.
  - cbn. now rewrite E.
  - apply ws_not_In; [reflexivity | now apply trim_nil_ws].
Qed.

Lemma rows_of_lines lines :
  Forall (fun l => trim l <> [] ->
                   existsb nonEmpty (plainFields l) = true) lines ->
  filter (existsb nonEmpty) (map plainFields lines)
  = map plainFields (filter (fun line => nonEmpty (trim line)) lines).
Proof.
  induction 1 as [|l ls Hl _ IH]; cbn [map filter]; [reflexivity|].
  destruct (trim l) as [|c r] eqn:E.
  - rewrite (blank_line_no_fields l E). exact IH.
  - rewrite Hl by discriminate. cbn [nonEmpty map]. now rewrite IH.
Qed.

Lemma lines_agree ls : forall acc,
  Forall (fun l => ~ In quote l /\ ~ In nl l /\ nonEmpty (trim l) = true)
         ls ->
  Utils.parseRowsFrom (map plainFields ls) acc
  = LegacyUtils.parseLinesFrom ls acc.
Proof.
  induction ls as [|l ls IH]; intros acc H; [reflexivity|].
  inversion H as [|? ? (NQ & NN & NB) Hls]; subst.
  cbn [map Utils.parseRowsFrom LegacyUtils.parseLinesFrom].
  rewrite NB. cbn [negb].
  assert (E : Utils.parseRow (plainFields l)
              = LegacyUtils.parseFields (LegacyUtils.parseCSVLine (trim l))).
  { unfold LegacyUtils.parseCSVLine.
    rewrite scanFields_plain
      by (intros I; apply NQ; now apply In_trim).
    cbn [app].
    replace (prefixed [] (splitOn comma (trim l)))
      with (splitOn comma (trim l)).
    - rewrite <- split_trim. apply parseRow_agree.
      apply Forall_forall. intros part Hp Hn. apply NN.
      apply In_trim. eapply In_splitOn; eauto.
    - pose proof (splitOn_not_nil comma (trim l)) as N0.
      destruct (splitOn comma (trim l)); [contradiction | reflexivity]. }
  rewrite E.
  destruct (LegacyUtils.parseFields (LegacyUtils.parseCSVLine (trim l)));
    now apply IH.
Qed.

(** X24: on a text without quotes in which no line is made of commas
    and white space only, the older [parseCSVText] and the revised one
    return the same records; a line of commas alone tells them apart:
    the older copy makes a record of it, the revised one leaves it
    out. *)
Theorem parseCSVText_copies_agree :
  (forall text,
     ~ In quote text -> NoCommaLines text ->
     LegacyUtils.parseCSVText text = Utils.parseCSVText text) /\
  List.length (LegacyUtils.parseCSVText commaLineText) = 1%nat /\
  Utils.parseCSVText commaLineText = [].
Proof.
  split; [|split; reflexivity].
  intros text NQ NC.
  unfold LegacyUtils.parseCSVText, Utils.parseCSVText.
  rewrite (parseCSVRows_no_quote text NQ), (rows_of_lines _ NC).
  set (lines := filter (fun line => nonEmpty (trim line)) (splitLines text)).
  assert (F : Forall (fun l => ~ In quote l /\ ~ In nl l
                               /\ nonEmpty (trim l) = true) lines).
  { apply Forall_forall. intros l Hl. apply filter_In in Hl.
    destruct Hl as [Hl Hb].
    pose proof (splitLines_no_quote text NQ) as F1.
    pose proof (splitLines_no_nl text) as F2.
    rewrite Forall_forall in F1, F2. auto. }
  destruct lines as [|h ls]; [reflexivity|].
  cbn [map tl]. inversion F; subst. symmetry. now apply lines_agree.
Qed.

Lemma parseCSVText_copies_agree_witness :
  LegacyUtils.parseCSVText uncheckedText = Utils.parseCSVText uncheckedText.
Proof.
  apply (proj1 parseCSVText_copies_agree uncheckedText).
  - vm_compute. intuition discriminate.
  - unfold NoCommaLines.
    repeat (constructor; [intros _; vm_compute; reflexivity|]).
    constructor.
Defined.

(** ** Highlighting *)



